(** * TabSurvey: the model registry, the feed-forward model, the evaluation
    driver and the attribution helper, embedded in Rocq.

    Source files: [models/__init__.py], [models/mlp.py], [evaluate.py],
    [utils/baseline_attributions.py]. *)

From Stdlib Require Import String Ascii List ZArith Bool Arith Lia.
From Stdlib Require Import Permutation.
From Stdlib Require Import Floats.SpecFloat.
From Stdlib Require Import Reals Lra.
Import ListNotations.

Set Implicit Arguments.
Local Open Scope list_scope.

(** ** Python exceptions raised by the modelled code *)

Inductive exn : Type :=
| NotImplementedError (msg : string)
| FileNotFoundError (path : string)
| ZeroDivisionError
| ValueError
| IndexError
| AxisError
| AssertionError
| RuntimeError.

Inductive result (A : Type) : Type :=
| Ok (a : A)
| Raise (e : exn).
Arguments Ok {A} a.
Arguments Raise {A} e.

(** An exception raised by a statement skips the statements after it. *)
Definition bind {A B : Type} (r : result A) (k : A -> result B) : result B :=
  match r with
  | Ok a => k a
  | Raise e => Raise e
  end.

Notation "x <- e ;; k" := (bind e (fun x => k))
  (at level 61, e at next level, right associativity).

(** ** models/__init__.py *)

Module Registry.
Local Open Scope string_scope.

(** The classes the registry imports on demand. *)
Inductive model_class : Type :=
| LinearModel | KNN | SVM | DecisionTree | RandomForest
| XGBoost | CatBoost | LightGBM
| MLP | ModelTree | TabNet | VIME | TabTransformer
| NODE | DeepGBM | RLN | DNFNet | STG.

(** The double-quote character of the message. *)
Definition dquote : string := String (ascii_of_nat 34) EmptyString.

Definition str2model (model : string) : result model_class :=
  if model =? "LinearModel" then Ok LinearModel
  else if model =? "KNN" then Ok KNN
  else if model =? "SVM" then Ok SVM
  else if model =? "DecisionTree" then Ok DecisionTree
  else if model =? "RandomForest" then Ok RandomForest
  else if model =? "XGBoost" then Ok XGBoost
  else if model =? "CatBoost" then Ok CatBoost
  else if model =? "LightGBM" then Ok LightGBM
  else if model =? "MLP" then Ok MLP
  else if model =? "ModelTree" then Ok ModelTree
  else if model =? "TabNet" then Ok TabNet
  else if model =? "VIME" then Ok VIME
  else if model =? "TabTransformer" then Ok TabTransformer
  else if model =? "NODE" then Ok NODE
  else if model =? "DeepGBM" then Ok DeepGBM
  else if model =? "RLN" then Ok RLN
  else if model =? "DNFNet" then Ok DNFNet
  else if model =? "STG" then Ok STG
  else Raise (NotImplementedError
                ("Model " ++ dquote ++ model ++ dquote ++ " not yet implemented")).

(** The identifier under which each class is registered. *)
Definition identifier (c : model_class) : string :=
  match c with
  | LinearModel => "LinearModel" | KNN => "KNN" | SVM => "SVM"
  | DecisionTree => "DecisionTree" | RandomForest => "RandomForest"
  | XGBoost => "XGBoost" | CatBoost => "CatBoost" | LightGBM => "LightGBM"
  | MLP => "MLP" | ModelTree => "ModelTree" | TabNet => "TabNet"
  | VIME => "VIME" | TabTransformer => "TabTransformer" | NODE => "NODE"
  | DeepGBM => "DeepGBM" | RLN => "RLN" | DNFNet => "DNFNet" | STG => "STG"
  end.

Definition all_classes : list model_class :=
  [LinearModel; KNN; SVM; DecisionTree; RandomForest; XGBoost; CatBoost;
   LightGBM; MLP; ModelTree; TabNet; VIME; TabTransformer; NODE; DeepGBM;
   RLN; DNFNet; STG].

Definition identifiers : list string := map identifier all_classes.

Lemma all_classes_complete : forall c, In c all_classes.
Proof. destruct c; simpl; tauto. Qed.

Lemma str2model_identifier : forall c, str2model (identifier c) = Ok c.
Proof. destruct c; reflexivity. Qed.

Lemma str2model_unknown :
  forall m, ~ In m identifiers ->
    str2model m = Raise (NotImplementedError
      ("Model " ++ dquote ++ m ++ dquote ++ " not yet implemented")).
Proof.
  intros m H. unfold str2model.
  repeat match goal with
  | |- context [String.eqb m ?s] =>
      destruct (String.eqb_spec m s) as [->|_];
      [ exfalso; apply H; unfold identifiers; simpl; tauto | ]
  end.
  reflexivity.
Qed.

(** C6: every enumerated identifier resolves to its own class, and every
    other string [m] raises NotImplementedError with the message
    [Model "m" not yet implemented]. *)
Theorem str2model_total_spec :
  identifiers =
    ["LinearModel"; "KNN"; "SVM"; "DecisionTree"; "RandomForest"; "XGBoost";
     "CatBoost"; "LightGBM"; "MLP"; "ModelTree"; "TabNet"; "VIME";
     "TabTransformer"; "NODE"; "DeepGBM"; "RLN"; "DNFNet"; "STG"]
  /\ (forall m, In m identifiers ->
        exists c, identifier c = m /\ str2model m = Ok c)
  /\ (forall m, ~ In m identifiers ->
        str2model m = Raise (NotImplementedError
          ("Model " ++ dquote ++ m ++ dquote ++ " not yet implemented"))).
Proof.
  split; [reflexivity|]. split.
  - intros m Hin. unfold identifiers in Hin. apply in_map_iff in Hin.
    destruct Hin as [c [<- _]]. exists c. split; [reflexivity|].
    apply str2model_identifier.
  - apply str2model_unknown.
Qed.

Lemma str2model_total_spec_witness :
  (exists c, identifier c = "KNN" /\ str2model "KNN" = Ok c)
  /\ str2model "nonexistent-model" =
       Raise (NotImplementedError
         ("Model " ++ dquote ++ "nonexistent-model" ++ dquote ++ " not yet implemented")).
Proof.
  destruct str2model_total_spec as [_ [Hk Hu]]. split.
  - apply Hk. vm_compute. tauto.
  - apply Hu. vm_compute. intuition discriminate.
Defined.

(** *** The registry as a lookup table *)

Lemma identifier_injective (c c' : model_class) :
  identifier c = identifier c' -> c = c'.
Proof.
  intros H. pose proof (str2model_identifier c) as H1.
  rewrite H, str2model_identifier in H1. congruence.
Qed.

(** X1: [str2model] returns a class exactly on the name that class is
    registered under (names are matched as they are, and no two names
    share a class), and on any other string the only exception it raises
    is NotImplementedError. *)
Theorem str2model_inverts_identifier :
  (forall m c, str2model m = Ok c <-> m = identifier c)
  /\ (forall c c', identifier c = identifier c' -> c = c')
  /\ NoDup identifiers
  /\ (forall m e, str2model m = Raise e ->
        e = NotImplementedError
              ("Model " ++ dquote ++ m ++ dquote ++ " not yet implemented")
        /\ ~ In m identifiers).
Proof.
  split; [|split; [|split]].
  - intros m c. split.
    + intros H. destruct (in_dec string_dec m identifiers) as [Hin|Hout].
      * unfold identifiers in Hin. apply in_map_iff in Hin.
        destruct Hin as [c' [<- _]]. rewrite str2model_identifier in H. congruence.
      * rewrite str2model_unknown in H by assumption. discriminate.
    + intros ->. apply str2model_identifier.
  - apply identifier_injective.
  - unfold identifiers, all_classes. simpl.
    repeat (constructor; [simpl; intuition discriminate|]). constructor.
  - intros m e H. destruct (in_dec string_dec m identifiers) as [Hin|Hout].
    + unfold identifiers in Hin. apply in_map_iff in Hin.
      destruct Hin as [c' [<- _]]. rewrite str2model_identifier in H. discriminate.
    + rewrite str2model_unknown in H by assumption. split; [congruence|assumption].
Qed.

End Registry.

(** ** IEEE comparisons on the floats the runtime hands back

    Loss values and prediction cells are IEEE-754 numbers; they are modelled
    by [spec_float], whose comparison is unordered on NaN. *)

Module Float.

Definition float : Type := spec_float.

Definition inf : float := S754_infinity false.
Definition nan : float := S754_nan.
Definition zero : float := S754_zero false.

Definition is_nan (x : float) : bool :=
  match x with S754_nan => true | _ => false end.

Definition ltb (x y : float) : bool := SFltb x y.
Definition leb (x y : float) : bool := SFleb x y.

(** binary32 arithmetic ([prec = 24], [emax = 128]), the element type of
    the tensors built with [.float()]. *)
Definition add (x y : float) : float := SFadd 24 128 x y.
Definition div (x y : float) : float := SFdiv 24 128 x y.
Definition mul (x y : float) : float := SFmul 24 128 x y.
Definition sub (x y : float) : float := SFsub 24 128 x y.
Definition of_nat (n : nat) : float :=
  binary_normalize 24 128 (Z.of_nat n) 0 false.
Definition one : float := of_nat 1.

Ltac order_cases :=
  repeat match goal with
  | H : context [Pos.compare_cont Eq ?a ?b] |- _ =>
      change (Pos.compare_cont Eq a b) with (Pos.compare a b) in H
  | |- context [Pos.compare_cont Eq ?a ?b] =>
      change (Pos.compare_cont Eq a b) with (Pos.compare a b)
  end;
  repeat match goal with
  | H : context [Z.compare ?a ?b] |- _ =>
      destruct (Z.compare_spec a b); subst
  | |- context [Z.compare ?a ?b] =>
      destruct (Z.compare_spec a b); subst
  | H : context [Pos.compare ?a ?b] |- _ =>
      destruct (Pos.compare_spec a b); subst
  | |- context [Pos.compare ?a ?b] =>
      destruct (Pos.compare_spec a b); subst
  end; cbn [CompOpp] in *; try congruence; try lia.

Lemma ltb_irrefl x : ltb x x = false.
Proof.
  unfold ltb, SFltb. destruct x as [s|s| |s m e]; simpl; try reflexivity;
    destruct s; try reflexivity; order_cases.
Qed.

Lemma ltb_trans x y z : ltb x y = true -> ltb y z = true -> ltb x z = true.
Proof.
  unfold ltb, SFltb.
  destruct x as [s1|s1| |s1 m1 e1], y as [s2|s2| |s2 m2 e2],
           z as [s3|s3| |s3 m3 e3]; simpl;
    try destruct s1; try destruct s2; try destruct s3; simpl;
    try congruence; intros; order_cases.
Qed.

Lemma ltb_nan_l x : ltb nan x = false.
Proof. reflexivity. Qed.

Lemma ltb_nan_r x : ltb x nan = false.
Proof. destruct x; reflexivity. Qed.

Lemma ltb_inf_r x : ltb x inf = true <-> x <> nan /\ x <> inf.
Proof.
  unfold ltb, SFltb, inf, nan.
  destruct x as [s|s| |s m e]; simpl; try destruct s; simpl;
    split; try tauto; try congruence;
    try (intros _; split; congruence);
    try (intros [H1 H2]; congruence).
Qed.

Lemma leb_total x y :
  is_nan x = false -> is_nan y = false -> leb x y = false -> ltb y x = true.
Proof.
  unfold leb, ltb, SFleb, SFltb.
  destruct x as [s1|s1| |s1 m1 e1], y as [s2|s2| |s2 m2 e2]; simpl;
    try destruct s1; try destruct s2; simpl; try congruence;
    intros; order_cases.
Qed.

Lemma leb_trans x y z :
  leb x y = true -> leb y z = true -> leb x z = true.
Proof.
  unfold leb, SFleb.
  destruct x as [s1|s1| |s1 m1 e1], y as [s2|s2| |s2 m2 e2],
           z as [s3|s3| |s3 m3 e3]; simpl;
    try destruct s1; try destruct s2; try destruct s3; simpl;
    try congruence; intros; order_cases.
Qed.

Lemma ltb_leb x y : ltb x y = true -> leb x y = true.
Proof.
  unfold ltb, leb, SFltb, SFleb. destruct (SFcompare x y) as [[]|]; congruence.
Qed.

Lemma leb_nan_free x y : leb x y = true -> is_nan x = false /\ is_nan y = false.
Proof. destruct x, y; simpl; try discriminate; auto. Qed.

Lemma leb_ltb_trans x y z :
  leb x y = true -> ltb y z = true -> ltb x z = true.
Proof.
  unfold leb, ltb, SFleb, SFltb.
  destruct x as [s1|s1| |s1 m1 e1], y as [s2|s2| |s2 m2 e2],
           z as [s3|s3| |s3 m3 e3]; simpl;
    try destruct s1; try destruct s2; try destruct s3; simpl;
    try congruence; intros; order_cases.
Qed.

Lemma leb_refl x : is_nan x = false -> leb x x = true.
Proof.
  unfold leb, SFleb. destruct x as [s|s| |s m e]; simpl; try congruence;
    destruct s; intros; try reflexivity; order_cases.
Qed.

Lemma ltb_leb_trans x y z :
  ltb x y = true -> leb y z = true -> ltb x z = true.
Proof.
  unfold leb, ltb, SFleb, SFltb.
  destruct x as [s1|s1| |s1 m1 e1], y as [s2|s2| |s2 m2 e2],
           z as [s3|s3| |s3 m3 e3]; simpl;
    try destruct s1; try destruct s2; try destruct s3; simpl;
    try congruence; intros; order_cases.
Qed.

End Float.

(** ** The numpy arrays the driver and the attribution helper index

    An array is its shape and its row-major buffer. *)

Module Numpy.
Import Float.

Record ndarray (A : Type) : Type := mk_ndarray {
  shape : list nat;
  data : list A
}.

Definition size_of (s : list nat) : nat := fold_right Nat.mul 1 s.

Definition well_formed {A} (a : ndarray A) : bool :=
  length (data a) =? size_of (shape a).

Definition ndim {A} (a : ndarray A) : nat := length (shape a).

(** A Python index [j] into an axis of size [c]; negative indices count
    from the end. *)
Definition norm_index (j : Z) (c : nat) : option nat :=
  let j' := if (j <? 0)%Z then (j + Z.of_nat c)%Z else j in
  if ((0 <=? j') && (j' <? Z.of_nat c))%Z then Some (Z.to_nat j') else None.

Definition block {A} (l : list A) (start len : nat) : list A :=
  firstn len (skipn start l).

(** [a[:, j]] *)
Definition index_axis1 {A} (a : ndarray A) (j : Z) : result (ndarray A) :=
  match shape a with
  | n :: c :: rest =>
      match norm_index j c with
      | Some k =>
          let s := size_of rest in
          Ok {| shape := n :: rest;
                data := flat_map (fun i => block (data a) ((i * c + k) * s) s)
                                 (seq 0 n) |}
      | None => Raise IndexError
      end
  | _ => Raise IndexError
  end.

(** [a[:, 1:]] *)
Definition slice_axis1_from1 {A} (a : ndarray A) : result (ndarray A) :=
  match shape a with
  | n :: c :: rest =>
      let s := size_of rest in
      Ok {| shape := n :: (c - 1) :: rest;
            data := flat_map (fun i => block (data a) ((i * c + 1) * s) ((c - 1) * s))
                             (seq 0 n) |}
  | _ => Raise IndexError
  end.

(** The scan of numpy's float argmax: the first NaN wins, otherwise the
    first entry that no later entry exceeds. [mp] is the running maximum,
    [best] its position and [i] the position of the head of [l]. *)
Fixpoint argmax_scan (mp : float) (best i : nat) (l : list float) : nat :=
  match l with
  | [] => best
  | x :: tl =>
      if negb (leb x mp)
      then (if is_nan x then i else argmax_scan x i (S i) tl)
      else argmax_scan mp best (S i) tl
  end.

Definition argmax_list (l : list float) : nat :=
  match l with
  | [] => 0
  | x :: tl => if is_nan x then 0 else argmax_scan x 0 1 tl
  end.

(** [np.argmax(a, axis=1)] *)
Definition argmax_axis1 (a : ndarray float) : result (ndarray nat) :=
  match shape a with
  | n :: c :: rest =>
      if c =? 0 then Raise ValueError
      else
        let s := size_of rest in
        Ok {| shape := n :: rest;
              data := flat_map (fun i =>
                        map (fun k =>
                               argmax_list
                                 (map (fun j => nth ((i * c + j) * s + k) (data a) nan)
                                      (seq 0 c)))
                            (seq 0 s))
                        (seq 0 n) |}
  | _ => Raise AxisError
  end.

(** Cell [(i, j)] of a two-dimensional array with [c] columns. *)
Definition cell {A} (d : A) (c : nat) (a : ndarray A) (i j : nat) : A :=
  nth (i * c + j) (data a) d.

(** *** Facts on the row-major layout *)

Lemma block_single {A} (d : A) (l : list A) k :
  k < length l -> block l k 1 = [nth k l d].
Proof.
  unfold block. revert k. induction l as [|x l IH]; intros k Hk; simpl in *.
  - lia.
  - destruct k; simpl.
    + destruct l; reflexivity.
    + apply IH. lia.
Qed.

Lemma nth_block {A} (d : A) (l : list A) start len j :
  j < len -> nth j (block l start len) d = nth (start + j) l d.
Proof.
  unfold block. intros Hj.
  destruct (Nat.lt_ge_cases (start + j) (length l)) as [Hin|Hout].
  - rewrite nth_firstn. 
    replace (j <? len) with true by (symmetry; apply Nat.ltb_lt; lia).
    revert l Hin. induction start; intros l Hin; simpl.
    + reflexivity.
    + destruct l; simpl in *; [lia|]. apply IHstart. lia.
  - rewrite (nth_overflow l) by lia. apply nth_overflow.
    rewrite length_firstn, length_skipn. lia.
Qed.

Lemma length_block {A} (l : list A) start len :
  start + len <= length l -> length (block l start len) = len.
Proof.
  unfold block. intros H. rewrite length_firstn, length_skipn. lia.
Qed.

Lemma flat_map_seq_S {A} (f : nat -> list A) n :
  flat_map f (seq 0 (S n)) = flat_map f (seq 0 n) ++ f n.
Proof.
  rewrite seq_S, flat_map_app. simpl. rewrite app_nil_r. reflexivity.
Qed.

Lemma length_flat_map_uniform {A} (f : nat -> list A) m n :
  (forall i, i < n -> length (f i) = m) ->
  length (flat_map f (seq 0 n)) = n * m.
Proof.
  induction n as [|n IH]; intros H; [reflexivity|].
  rewrite flat_map_seq_S, length_app, IH, H by auto. lia.
Qed.

Lemma nth_flat_map_uniform {A} (d : A) (f : nat -> list A) m n i j :
  (forall i, i < n -> length (f i) = m) ->
  i < n -> j < m ->
  nth (i * m + j) (flat_map f (seq 0 n)) d = nth j (f i) d.
Proof.
  induction n as [|n IH]; intros H Hi Hj; [lia|].
  rewrite flat_map_seq_S.
  assert (Hlen : length (flat_map f (seq 0 n)) = n * m)
    by (apply length_flat_map_uniform; auto).
  destruct (Nat.eq_dec i n) as [->|Hne].
  - rewrite app_nth2 by lia. f_equal. lia.
  - rewrite app_nth1 by nia. apply IH; auto; lia.
Qed.

Lemma flat_map_singleton {A B} (f : A -> B) l :
  flat_map (fun x => [f x]) l = map f l.
Proof. induction l; simpl; congruence. Qed.

(** *** What the argmax scan returns on rows without NaN *)

Definition nan_free (l : list float) : Prop :=
  Forall (fun x => is_nan x = false) l.

Lemma argmax_scan_spec :
  forall l pre mp best,
    best < length pre ->
    nth best pre nan = mp ->
    is_nan mp = false ->
    (forall j, j < length pre -> leb (nth j pre nan) mp = true) ->
    (forall j, j < best -> ltb (nth j pre nan) mp = true) ->
    nan_free l ->
    let k := argmax_scan mp best (length pre) l in
    k < length (pre ++ l)
    /\ (forall j, j < length (pre ++ l) ->
          leb (nth j (pre ++ l) nan) (nth k (pre ++ l) nan) = true)
    /\ (forall j, j < k ->
          ltb (nth j (pre ++ l) nan) (nth k (pre ++ l) nan) = true).
Proof.
  induction l as [|x l IH]; intros pre mp best Hb Hmp Hnan Hle Hlt Hfree; simpl.
  - rewrite app_nil_r. subst mp. repeat split; auto.
  - inversion Hfree as [|? ? Hx Hfree']; subst.
    replace (pre ++ x :: l) with ((pre ++ [x]) ++ l)
      by (rewrite <- app_assoc; reflexivity).
    replace (S (length pre)) with (length (pre ++ [x]))
      by (rewrite length_app; simpl; lia).
    destruct (leb x (nth best pre nan)) eqn:Hcmp; simpl.
    + apply IH; auto.
      * rewrite length_app; simpl; lia.
      * rewrite app_nth1 by lia. reflexivity.
      * intros j Hj. rewrite length_app in Hj; simpl in Hj.
        destruct (Nat.eq_dec j (length pre)) as [->|Hne].
        -- rewrite app_nth2, Nat.sub_diag by lia. exact Hcmp.
        -- rewrite app_nth1 by lia. apply Hle. lia.
      * intros j Hj. rewrite app_nth1 by lia. auto.
    + rewrite Hx.
      assert (Hgt : ltb (nth best pre nan) x = true)
        by (apply leb_total; auto).
      apply IH; auto.
      * rewrite length_app; simpl; lia.
      * rewrite app_nth2, Nat.sub_diag by lia. reflexivity.
      * intros j Hj. rewrite length_app in Hj; simpl in Hj.
        destruct (Nat.eq_dec j (length pre)) as [->|Hne].
        -- rewrite app_nth2, Nat.sub_diag by lia. simpl. apply leb_refl; auto.
        -- rewrite app_nth1 by lia.
           apply ltb_leb. apply leb_ltb_trans with (nth best pre nan); auto.
           apply Hle. lia.
      * intros j Hj. rewrite app_nth1 by lia.
        apply leb_ltb_trans with (nth best pre nan); auto.
Qed.

(** On a non-empty row without NaN, [argmax_list] is the position of the
    first maximal entry. *)
Lemma argmax_list_spec (l : list float) :
  l <> [] -> nan_free l ->
  let k := argmax_list l in
  k < length l
  /\ (forall j, j < length l -> leb (nth j l nan) (nth k l nan) = true)
  /\ (forall j, j < k -> ltb (nth j l nan) (nth k l nan) = true).
Proof.
  destruct l as [|x l]; [congruence|]. intros _ Hfree.
  inversion Hfree as [|? ? Hx Hfree']; subst.
  unfold argmax_list. rewrite Hx.
  apply (@argmax_scan_spec l [x] x 0); simpl; auto.
  - intros j Hj. assert (j = 0) by lia. subst. apply leb_refl; auto.
  - intros j Hj. lia.
Qed.

(** With a NaN in the row, the position of the first NaN is returned. *)
Lemma argmax_scan_nan :
  forall l mp best i pre,
    nan_free pre -> is_nan mp = false ->
    argmax_scan mp best i (pre ++ nan :: l) = i + length pre.
Proof.
  intros l mp best i pre. revert mp best i.
  induction pre as [|x pre IH]; intros mp best i Hfree Hmp; simpl.
  - replace (leb nan mp) with false by (destruct mp; reflexivity). simpl. lia.
  - inversion Hfree as [|? ? Hx Hfree']; subst. rewrite Hx.
    destruct (leb x mp); simpl; rewrite IH by auto; lia.
Qed.

(** *** The argmax scan on any row *)

Lemma argmax_scan_bound :
  forall l mp best i, best < i -> argmax_scan mp best i l < i + length l.
Proof.
  induction l as [|x l IH]; intros mp best i Hb; simpl.
  - lia.
  - destruct (negb (leb x mp)).
    + destruct (is_nan x); [lia|]. specialize (IH x i (S i)). lia.
    + specialize (IH mp best (S i)). lia.
Qed.

Lemma argmax_list_bound (l : list float) : l <> [] -> argmax_list l < length l.
Proof.
  destruct l as [|x l]; [congruence|]. intros _. simpl.
  destruct (is_nan x); [lia|].
  pose proof (@argmax_scan_bound l x 0 1). lia.
Qed.

Lemma argmax_list_first_nan (pre post : list float) :
  nan_free pre -> argmax_list (pre ++ nan :: post) = length pre.
Proof.
  destruct pre as [|x pre]; intros Hfree; [reflexivity|].
  inversion Hfree as [|? ? Hx Hfree']; subst. simpl. rewrite Hx.
  rewrite argmax_scan_nan by assumption. reflexivity.
Qed.

End Numpy.

(** ** evaluate.py *)

Module Evaluate.
Import Float Numpy.

(** The scorer of [utils/scorer.py], seen through the two methods the
    driver calls. *)
Class Scorer : Type := {
  scorer_state : Type;
  metrics : Type;
  scorer_eval : scorer_state -> ndarray float -> ndarray nat -> ndarray float -> scorer_state;
  get_results : scorer_state -> metrics
}.

Section Main.
Context {S : Scorer}.

(** The body of [for pred in predictions]. *)
Fixpoint main_loop (predictions : list (ndarray float)) (scorer : scorer_state)
  : result scorer_state :=
  match predictions with
  | [] => Ok scorer
  | pred :: rest =>
      truth <- index_axis1 pred 0 ;;
      out <- slice_axis1_from1 pred ;;
      pred_label <- argmax_axis1 out ;;
      main_loop rest (scorer_eval scorer truth pred_label out)
  end.

(** [main], given what [get_predictions_from_file] and [get_scorer]
    returned. *)
Definition main (predictions : list (ndarray float)) (scorer : scorer_state)
  : result metrics :=
  scorer' <- main_loop predictions scorer ;;
  Ok (get_results scorer').
End Main.

(** A scorer that only records the calls it receives. *)
Inductive scorer_call : Type :=
| CallEval (truth : ndarray float) (pred_label : ndarray nat) (out : ndarray float)
| CallGetResults.

Definition recording_scorer : Scorer := {|
  scorer_state := list scorer_call;
  metrics := list scorer_call;
  scorer_eval := fun s t l o => s ++ [CallEval t l o];
  get_results := fun s => s ++ [CallGetResults]
|}.

(** *** Prediction records, as the data model describes them *)

Definition nrows {A} (p : ndarray A) : nat := nth 0 (shape p) 0.
Definition ncols {A} (p : ndarray A) : nat := nth 1 (shape p) 0.

(** Two-dimensional, a truth column and at least one output column. *)
Definition is_prediction_record (p : ndarray float) : bool :=
  match shape p with
  | [_; c] => (2 <=? c) && well_formed p
  | _ => false
  end.

(** Cell [(i, j)] of a record. *)
Definition at_ (p : ndarray float) (i j : nat) : float :=
  cell nan (ncols p) p i j.

(** Column 0. *)
Definition truth_of (p : ndarray float) : ndarray float :=
  {| shape := [nrows p];
     data := map (fun i => at_ p i 0) (seq 0 (nrows p)) |}.

(** Columns 1 and up of row [i]. *)
Definition out_row (p : ndarray float) (i : nat) : list float :=
  map (fun j => at_ p i (S j)) (seq 0 (ncols p - 1)).

Definition out_of (p : ndarray float) : ndarray float :=
  {| shape := [nrows p; ncols p - 1];
     data := flat_map (out_row p) (seq 0 (nrows p)) |}.

(** The argmax of each row over columns 1 and up. *)
Definition label_of (p : ndarray float) : ndarray nat :=
  {| shape := [nrows p];
     data := map (fun i => argmax_list (out_row p i)) (seq 0 (nrows p)) |}.

(** *** The three numpy expressions on a prediction record *)

Lemma flat_map_ext_in {A B} (f g : A -> list B) l :
  (forall x, In x l -> f x = g x) -> flat_map f l = flat_map g l.
Proof.
  induction l as [|x l IH]; intros H; simpl; [reflexivity|].
  rewrite H, IH; auto with datatypes.
Qed.

Lemma nth_map_seq {A} (d : A) (f : nat -> A) n j :
  j < n -> nth j (map f (seq 0 n)) d = f j.
Proof.
  intros Hj. rewrite (nth_indep _ d (f 0)) by (rewrite length_map, length_seq; lia).
  rewrite (map_nth f (seq 0 n) 0 j), seq_nth by lia. reflexivity.
Qed.

Lemma block_as_map {A} (d : A) (l : list A) start len :
  start + len <= length l ->
  block l start len = map (fun j => nth (start + j) l d) (seq 0 len).
Proof.
  intros H. apply (nth_ext _ _ d d).
  - rewrite length_block, length_map, length_seq by lia. reflexivity.
  - intros j Hj. rewrite length_block in Hj by lia.
    rewrite nth_block, nth_map_seq by lia. reflexivity.
Qed.

Lemma record_dims (p : ndarray float) :
  is_prediction_record p = true ->
  shape p = [nrows p; ncols p] /\ 2 <= ncols p
  /\ length (data p) = nrows p * ncols p.
Proof.
  unfold is_prediction_record, nrows, ncols, well_formed.
  destruct (shape p) as [|n [|c [|? ?]]]; try discriminate.
  intros H. apply andb_prop in H. destruct H as [Hc Hwf].
  apply Nat.leb_le in Hc. apply Nat.eqb_eq in Hwf. simpl in *.
  repeat split; auto. lia.
Qed.

Lemma index_axis1_truth (p : ndarray float) :
  is_prediction_record p = true -> index_axis1 p 0 = Ok (truth_of p).
Proof.
  intros H. destruct (record_dims p H) as [Hs [Hc Hlen]].
  unfold index_axis1, truth_of. rewrite Hs.
  unfold norm_index. simpl.
  replace (0 <? Z.of_nat (ncols p))%Z with true by (symmetry; apply Z.ltb_lt; lia).
  simpl. do 2 f_equal.
  rewrite <- flat_map_singleton. apply flat_map_ext_in.
  intros i Hi. apply in_seq in Hi. unfold at_, cell.
  rewrite (block_single nan) by nia. f_equal. f_equal. lia.
Qed.

Lemma slice_axis1_out (p : ndarray float) :
  is_prediction_record p = true -> slice_axis1_from1 p = Ok (out_of p).
Proof.
  intros H. destruct (record_dims p H) as [Hs [Hc Hlen]].
  unfold slice_axis1_from1, out_of. rewrite Hs. simpl. do 2 f_equal.
  apply flat_map_ext_in. intros i Hi. apply in_seq in Hi.
  unfold out_row, at_, cell.
  rewrite (block_as_map nan) by nia.
  rewrite (Nat.mul_1_r (ncols p - 1)). apply map_ext. intros j. f_equal. lia.
Qed.

Lemma length_out_row (p : ndarray float) i : length (out_row p i) = ncols p - 1.
Proof. unfold out_row. rewrite length_map, length_seq. reflexivity. Qed.

Lemma argmax_axis1_label (p : ndarray float) :
  is_prediction_record p = true -> argmax_axis1 (out_of p) = Ok (label_of p).
Proof.
  intros H. destruct (record_dims p H) as [Hs [Hc Hlen]].
  unfold argmax_axis1, label_of. simpl.
  replace (ncols p - 1 =? 0) with false by (symmetry; apply Nat.eqb_neq; lia).
  do 2 f_equal. rewrite <- flat_map_singleton. apply flat_map_ext_in.
  intros i Hi. apply in_seq in Hi. simpl. do 2 f_equal.
  apply (nth_ext _ _ nan nan).
  - rewrite length_map, length_seq, length_out_row. reflexivity.
  - intros j Hj. rewrite length_map, length_seq in Hj.
    rewrite nth_map_seq by lia.
    replace ((i * (ncols p - 1) + j) * 1 + 0) with (i * (ncols p - 1) + j) by lia.
    apply nth_flat_map_uniform; try lia.
    intros; apply length_out_row.
Qed.

Section MainFacts.
Context {S : Scorer}.

Lemma main_loop_records :
  forall predictions scorer,
    forallb is_prediction_record predictions = true ->
    main_loop predictions scorer =
      Ok (fold_left (fun s p => scorer_eval s (truth_of p) (label_of p) (out_of p))
                    predictions scorer).
Proof.
  induction predictions as [|p ps IH]; intros scorer H; simpl in *; [reflexivity|].
  apply andb_prop in H. destruct H as [Hp Hps].
  rewrite index_axis1_truth, slice_axis1_out by assumption. simpl.
  rewrite argmax_axis1_label by assumption. simpl. apply IH; assumption.
Qed.

End MainFacts.

Lemma fold_left_recording :
  forall (ps : list (ndarray float)) (f : ndarray float -> scorer_call) (s : list scorer_call),
    fold_left (fun s p => s ++ [f p]) ps s = s ++ map f ps.
Proof.
  induction ps as [|p ps IH]; intros f s; simpl.
  - rewrite app_nil_r. reflexivity.
  - rewrite IH, <- app_assoc. reflexivity.
Qed.

(** C5: for prediction records, [main] passes column 0 as truth, the
    remaining columns as raw output and their row-wise argmax as label to
    exactly one [eval] call per record, in order, and then calls
    [get_results] once; the label of a row without NaN is the position of
    the first maximal entry among columns 1 and up. *)
Theorem main_evaluates_each_record :
  forall predictions : list (ndarray float),
    forallb is_prediction_record predictions = true ->
    (forall (S : Scorer) (scorer : scorer_state),
        main predictions scorer =
          Ok (get_results
                (fold_left (fun s p => scorer_eval s (truth_of p) (label_of p) (out_of p))
                           predictions scorer)))
    /\ main (S := recording_scorer) predictions [] =
         Ok (map (fun p => CallEval (truth_of p) (label_of p) (out_of p)) predictions
             ++ [CallGetResults])
    /\ (forall p i, In p predictions -> i < nrows p ->
          nth i (data (truth_of p)) nan = at_ p i 0
          /\ (forall j, j < ncols p - 1 ->
                cell nan (ncols p - 1) (out_of p) i j = at_ p i (S j))
          /\ nth i (data (label_of p)) 0 = argmax_list (out_row p i)
          /\ (nan_free (out_row p i) ->
              let k := nth i (data (label_of p)) 0 in
              k < ncols p - 1
              /\ (forall j, j < ncols p - 1 ->
                    leb (at_ p i (S j)) (at_ p i (S k)) = true)
              /\ (forall j, j < k -> ltb (at_ p i (S j)) (at_ p i (S k)) = true))).
Proof.
  intros predictions H. split; [|split].
  - intros S scorer. unfold main. rewrite main_loop_records by assumption.
    reflexivity.
  - unfold main. rewrite main_loop_records by assumption. simpl.
    rewrite fold_left_recording with
      (f := fun p => CallEval (truth_of p) (label_of p) (out_of p)).
    reflexivity.
  - intros p i Hin Hi.
    assert (Hp : is_prediction_record p = true)
      by (rewrite forallb_forall in H; auto).
    destruct (record_dims p Hp) as [Hs [Hc Hlen]].
    split; [|split; [|split]].
    + unfold truth_of. simpl.
      apply (nth_map_seq nan (fun i => at_ p i 0)). assumption.
    + intros j Hj. unfold cell, out_of. simpl.
      rewrite (@nth_flat_map_uniform _ nan (out_row p) (ncols p - 1)); auto.
      * unfold out_row.
        apply (nth_map_seq nan (fun j => at_ p i (S j))). assumption.
      * intros; apply length_out_row.
    + unfold label_of. simpl.
      apply (nth_map_seq 0 (fun i => argmax_list (out_row p i))). assumption.
    + intros Hfree k.
      assert (Hk : k = argmax_list (out_row p i))
        by (unfold k, label_of; simpl;
            apply (nth_map_seq 0 (fun i => argmax_list (out_row p i))); assumption).
      assert (Hne : out_row p i <> [])
        by (intro E; apply (f_equal (@length _)) in E;
            rewrite length_out_row in E; simpl in E; lia).
      destruct (argmax_list_spec Hne Hfree) as [A [B C]].
      rewrite length_out_row in A, B. rewrite <- Hk in A, B, C.
      assert (Hcell : forall j, j < ncols p - 1 ->
                nth j (out_row p i) nan = at_ p i (S j))
        by (intros j Hj; unfold out_row;
            apply (nth_map_seq nan (fun j => at_ p i (S j))); assumption).
      split; [exact A|]. split.
      * intros j Hj. rewrite <- !Hcell by lia. apply B. assumption.
      * intros j Hj. rewrite <- !Hcell by lia. apply C. assumption.
Qed.

Definition f32 (m : positive) : float := S754_finite false m 0.

(** One fold of two samples and two classes: truth 0 and 1, the first row
    favouring class 1, the second class 0. *)
Definition example_record : ndarray float :=
  {| shape := [2; 3];
     data := [zero; f32 1; f32 3;
              f32 1; f32 5; f32 2] |}.

Lemma main_evaluates_each_record_witness :
  main (S := recording_scorer) [example_record] [] =
    Ok [CallEval {| shape := [2]; data := [zero; f32 1] |}
                 {| shape := [2]; data := [1; 0] |}
                 {| shape := [2; 2]; data := [f32 1; f32 3; f32 5; f32 2] |};
        CallGetResults].
Proof.
  exact (proj1 (proj2 (main_evaluates_each_record [example_record] eq_refl))).
Defined.

(** *** The arrays handed to the scorer *)

Lemma well_formed_truth (p : ndarray float) : well_formed (truth_of p) = true.
Proof.
  unfold well_formed, truth_of. simpl. rewrite length_map, length_seq.
  apply Nat.eqb_eq. lia.
Qed.

Lemma well_formed_label (p : ndarray float) : well_formed (label_of p) = true.
Proof.
  unfold well_formed, label_of. simpl. rewrite length_map, length_seq.
  apply Nat.eqb_eq. lia.
Qed.

Lemma well_formed_out (p : ndarray float) : well_formed (out_of p) = true.
Proof.
  unfold well_formed, out_of. simpl.
  rewrite (@length_flat_map_uniform _ (out_row p) (ncols p - 1))
    by (intros; apply length_out_row).
  apply Nat.eqb_eq. lia.
Qed.

(** X2: on a prediction record the three numpy expressions of the loop
    body succeed; the truth vector, the label vector and the raw output
    are well-formed arrays with the record's number of rows, and every
    label, with or without NaN in its row, is a column index of the raw
    output. *)
Theorem eval_arguments_are_consistent :
  forall p : ndarray float,
    is_prediction_record p = true ->
    exists truth out pred_label,
      index_axis1 p 0 = Ok truth
      /\ slice_axis1_from1 p = Ok out
      /\ argmax_axis1 out = Ok pred_label
      /\ shape truth = [nrows p]
      /\ shape out = [nrows p; ncols p - 1]
      /\ shape pred_label = [nrows p]
      /\ well_formed truth = true
      /\ well_formed out = true
      /\ well_formed pred_label = true
      /\ Forall (fun k => k < ncols p - 1) (data pred_label).
Proof.
  intros p Hp. destruct (record_dims p Hp) as [Hs [Hc Hlen]].
  exists (truth_of p), (out_of p), (label_of p).
  split; [apply index_axis1_truth; assumption|].
  split; [apply slice_axis1_out; assumption|].
  split; [apply argmax_axis1_label; assumption|].
  split; [reflexivity|]. split; [reflexivity|]. split; [reflexivity|].
  split; [apply well_formed_truth|]. split; [apply well_formed_out|].
  split; [apply well_formed_label|].
  unfold label_of. simpl. apply Forall_forall. intros k Hk.
  apply in_map_iff in Hk. destruct Hk as [i [<- _]].
  rewrite <- (length_out_row p i). apply argmax_list_bound.
  intro E. apply (f_equal (@length _)) in E. rewrite length_out_row in E.
  simpl in E. lia.
Qed.

Lemma eval_arguments_are_consistent_witness :
  exists truth out pred_label,
    index_axis1 example_record 0 = Ok truth
    /\ slice_axis1_from1 example_record = Ok out
    /\ argmax_axis1 out = Ok pred_label
    /\ shape truth = [2] /\ shape out = [2; 2] /\ shape pred_label = [2]
    /\ well_formed truth = true /\ well_formed out = true
    /\ well_formed pred_label = true
    /\ Forall (fun k => k < 2) (data pred_label).
Proof. exact (eval_arguments_are_consistent example_record eq_refl). Defined.

(** X3: when the output columns of a row hold a NaN, the label of the row
    is the position of the first NaN among them, whatever the other
    entries are. *)
Theorem label_of_nan_row :
  forall (p : ndarray float) (i : nat) (pre post : list float),
    is_prediction_record p = true ->
    i < nrows p ->
    out_row p i = pre ++ nan :: post ->
    nan_free pre ->
    exists pred_label,
      (out <- slice_axis1_from1 p ;; argmax_axis1 out) = Ok pred_label
      /\ nth i (data pred_label) 0 = length pre.
Proof.
  intros p i pre post Hp Hi Hrow Hfree. exists (label_of p). split.
  - rewrite slice_axis1_out by assumption. simpl.
    apply argmax_axis1_label. assumption.
  - unfold label_of. simpl.
    rewrite (nth_map_seq 0 (fun i => argmax_list (out_row p i))) by assumption.
    rewrite Hrow. apply argmax_list_first_nan. assumption.
Qed.

(** Two samples; the second row has a NaN in its second output column. *)
Definition nan_record : ndarray float :=
  {| shape := [2; 4];
     data := [zero; f32 1; f32 3; f32 2;
              f32 1; f32 5; nan; f32 9] |}.

Lemma label_of_nan_row_witness :
  exists pred_label,
    (out <- slice_axis1_from1 nan_record ;; argmax_axis1 out) = Ok pred_label
    /\ nth 1 (data pred_label) 0 = 1.
Proof.
  apply (@label_of_nan_row nan_record 1 [f32 5] [f32 9]).
  - reflexivity.
  - unfold nrows. simpl. lia.
  - reflexivity.
  - repeat constructor.
Defined.

(** *** Runs of the driver *)

Section MainRuns.
Context {S : Scorer}.

Lemma main_loop_app (ps qs : list (ndarray float)) :
  forall scorer,
    main_loop (ps ++ qs) scorer
    = (scorer' <- main_loop ps scorer ;; main_loop qs scorer').
Proof.
  induction ps as [|p ps IH]; intros scorer; simpl; [reflexivity|].
  destruct (index_axis1 p 0) as [truth|e]; simpl; [|reflexivity].
  destruct (slice_axis1_from1 p) as [out|e]; simpl; [|reflexivity].
  destruct (argmax_axis1 out) as [lab|e]; simpl; [|reflexivity].
  apply IH.
Qed.

Lemma main_loop_bad_record (p : ndarray float) (rest : list (ndarray float))
  (scorer : scorer_state) :
  (length (shape p) < 2 -> main_loop (p :: rest) scorer = Raise IndexError)
  /\ (forall n, shape p = [n; 0] -> main_loop (p :: rest) scorer = Raise IndexError)
  /\ (forall n, shape p = [n; 1] -> main_loop (p :: rest) scorer = Raise ValueError).
Proof.
  split; [|split].
  - intros H. simpl. unfold index_axis1.
    destruct (shape p) as [|n [|c r]]; simpl in *; try reflexivity. lia.
  - intros n H. simpl. unfold index_axis1. rewrite H. reflexivity.
  - intros n H. simpl. unfold index_axis1, slice_axis1_from1. rewrite H. reflexivity.
Qed.

End MainRuns.

(** X4: [main] stops at the first array that is not a prediction record:
    after any number of proper records, an array with fewer than two
    dimensions or with no column raises IndexError and an array with the
    truth column only raises ValueError, whatever arrays follow; no result
    is returned. *)
Theorem main_raises_on_first_bad_record :
  forall (S : Scorer) (ps rest : list (ndarray float)) (bad : ndarray float)
         (scorer : scorer_state),
    forallb is_prediction_record ps = true ->
    (length (shape bad) < 2 -> main (ps ++ bad :: rest) scorer = Raise IndexError)
    /\ (forall n, shape bad = [n; 0] ->
          main (ps ++ bad :: rest) scorer = Raise IndexError)
    /\ (forall n, shape bad = [n; 1] ->
          main (ps ++ bad :: rest) scorer = Raise ValueError).
Proof.
  intros S ps rest bad scorer Hps. unfold main.
  rewrite main_loop_app, main_loop_records by assumption. cbn [bind].
  destruct (main_loop_bad_record bad rest
              (fold_left (fun s p => scorer_eval s (truth_of p) (label_of p) (out_of p))
                         ps scorer)) as [H1 [H2 H3]].
  split; [|split].
  - intros H. rewrite H1 by assumption. reflexivity.
  - intros n H. rewrite (H2 n H). reflexivity.
  - intros n H. rewrite (H3 n H). reflexivity.
Qed.

Lemma main_raises_on_first_bad_record_witness :
  main (S := recording_scorer)
    ([example_record] ++ {| shape := [2; 1]; data := [zero; f32 1] |} :: [example_record]) []
  = Raise ValueError.
Proof.
  exact (proj2 (proj2 (main_raises_on_first_bad_record recording_scorer
           [example_record] [example_record]
           {| shape := [2; 1]; data := [zero; f32 1] |} [] eq_refl)) 2 eq_refl).
Defined.

(** X5: scoring the folds [ps] and then the folds [qs] with the scorer the
    first run left is scoring [ps ++ qs] in one run; with no fold at all
    [main] asks the untouched scorer for its results. *)
Theorem main_splits_over_folds :
  forall (S : Scorer) (ps qs : list (ndarray float)) (scorer : scorer_state),
    main (ps ++ qs) scorer =
      (scorer' <- main_loop ps scorer ;; main qs scorer')
    /\ main [] scorer = Ok (get_results scorer).
Proof.
  intros S ps qs scorer. split; [|reflexivity].
  unfold main. rewrite main_loop_app.
  destruct (main_loop ps scorer); reflexivity.
Qed.

End Evaluate.

(** ** utils/baseline_attributions.py *)

Module Attributions.
Import Float Numpy Evaluate.

(** What [get_probabilistic_predictions] needs of a [BaseModel]: a
    [predict] method, which may raise and may change the model. *)
Class BaseModel (X : Type) : Type := {
  model : Type;
  predict : model -> X -> result (ndarray float) * model
}.

Section GetProbabilisticPredictions.
Context {X : Type} {M : BaseModel X}.

Definition get_probabilistic_predictions (m : model) (x : X)
  : result (ndarray float) * model :=
  let (r, m') := predict m x in
  (ypred <- r ;;
   if length (shape ypred) =? 2 then index_axis1 ypred (-1) else Ok ypred,
   m').

(** The last column of a two-dimensional array, as a vector. *)
Definition last_column (a : ndarray float) : ndarray float :=
  {| shape := [nrows a];
     data := map (fun i => cell nan (ncols a) a i (ncols a - 1)) (seq 0 (nrows a)) |}.

Lemma norm_index_last c : 1 <= c -> norm_index (-1) c = Some (c - 1).
Proof.
  intros Hc. unfold norm_index. change (-1 <? 0)%Z with true. cbv iota.
  destruct (Z.leb_spec 0 (-1 + Z.of_nat c)); [|lia].
  destruct (Z.ltb_spec (-1 + Z.of_nat c) (Z.of_nat c)); [|lia].
  cbv [andb]. f_equal. lia.
Qed.

Lemma index_axis1_last (a : ndarray float) :
  length (shape a) = 2 -> well_formed a = true -> 1 <= ncols a ->
  index_axis1 a (-1) = Ok (last_column a).
Proof.
  unfold well_formed, index_axis1, last_column, nrows, ncols.
  destruct (shape a) as [|n [|c [|? ?]]] eqn:Hs; try discriminate.
  intros _ Hwf Hc. apply Nat.eqb_eq in Hwf.
  cbn [nth size_of fold_right] in *.
  rewrite norm_index_last by assumption. do 2 f_equal.
  rewrite <- flat_map_singleton. apply flat_map_ext_in.
  intros i Hi. apply in_seq in Hi. unfold cell.
  rewrite (block_single nan) by nia. f_equal. f_equal. lia.
Qed.

Lemma index_axis1_no_column (a : ndarray float) n :
  shape a = [n; 0] -> index_axis1 a (-1) = Raise IndexError.
Proof. unfold index_axis1. intros ->. reflexivity. Qed.

(** C8: [get_probabilistic_predictions] calls [predict] once; a
    two-dimensional prediction is replaced by its last column, a vector
    with one entry per row (column 1 of a two-column prediction); any other
    prediction is returned unchanged. *)
Theorem get_probabilistic_predictions_spec :
  forall (m m' : model) (x : X) (ypred : ndarray float),
    predict m x = (Ok ypred, m') ->
    well_formed ypred = true ->
    snd (get_probabilistic_predictions m x) = m'
    /\ (ndim ypred = 2 -> 1 <= ncols ypred ->
        fst (get_probabilistic_predictions m x) = Ok (last_column ypred)
        /\ shape (last_column ypred) = [nrows ypred]
        /\ length (data (last_column ypred)) = nrows ypred
        /\ (ncols ypred = 2 ->
            data (last_column ypred) =
              map (fun i => cell nan 2 ypred i 1) (seq 0 (nrows ypred))))
    /\ (ndim ypred <> 2 ->
        fst (get_probabilistic_predictions m x) = Ok ypred).
Proof.
  intros m m' x ypred Hp Hwf. unfold get_probabilistic_predictions, ndim.
  rewrite Hp. simpl. split; [reflexivity|]. split.
  - intros Hd Hc. rewrite Hd. simpl. split; [apply index_axis1_last; auto|].
    split; [reflexivity|]. split.
    + unfold last_column. simpl. rewrite length_map, length_seq. reflexivity.
    + intros H2. unfold last_column. simpl. rewrite H2. reflexivity.
  - intros Hd. apply Nat.eqb_neq in Hd. rewrite Hd. reflexivity.
Qed.

End GetProbabilisticPredictions.

(** A model whose [predict] returns the array it is given. *)
Definition echo_model : BaseModel (ndarray float) :=
  {| model := unit; predict := fun m x => (Ok x, m) |}.

Lemma get_probabilistic_predictions_spec_witness :
  fst (get_probabilistic_predictions (M := echo_model) tt
         {| shape := [2; 2]; data := [f32 1; f32 3; f32 5; f32 2] |})
    = Ok {| shape := [2]; data := [f32 3; f32 2] |}
  /\ fst (get_probabilistic_predictions (M := echo_model) tt
            {| shape := [2]; data := [f32 3; f32 2] |})
       = Ok {| shape := [2]; data := [f32 3; f32 2] |}.
Proof.
  split.
  - exact (proj1 (proj1 (proj2
      (get_probabilistic_predictions_spec (M := echo_model) tt
         {| shape := [2; 2]; data := [f32 1; f32 3; f32 5; f32 2] |}
         eq_refl eq_refl)) eq_refl (le_S _ _ (le_n 1)))).
  - apply (proj2 (proj2
      (get_probabilistic_predictions_spec (M := echo_model) tt
         {| shape := [2]; data := [f32 3; f32 2] |} eq_refl eq_refl))).
    discriminate.
Defined.

(** *** Failures and shapes of the attribution helper *)

Section ProbabilisticPredictionFacts.
Context {X : Type} {M : BaseModel X}.

Lemma well_formed_last_column (a : ndarray float) :
  well_formed (last_column a) = true.
Proof.
  unfold well_formed, last_column. simpl. rewrite length_map, length_seq.
  apply Nat.eqb_eq. lia.
Qed.

(** X6: an exception raised by [model.predict] leaves
    [get_probabilistic_predictions] with the same exception and with the
    model as [predict] left it; a two-dimensional prediction without any
    column makes the column selection raise IndexError. *)
Theorem get_probabilistic_predictions_failures :
  forall (m m' : model) (x : X),
    (forall e, predict m x = (Raise e, m') ->
       get_probabilistic_predictions m x = (Raise e, m'))
    /\ (forall ypred n, predict m x = (Ok ypred, m') -> shape ypred = [n; 0] ->
          get_probabilistic_predictions m x = (Raise IndexError, m')).
Proof.
  intros m m' x. unfold get_probabilistic_predictions. split.
  - intros e H. rewrite H. reflexivity.
  - intros ypred n H Hs. rewrite H. simpl. rewrite Hs. simpl.
    unfold index_axis1. rewrite Hs. reflexivity.
Qed.

(** X7: for a well-formed prediction with one dimension, or with two
    dimensions and at least one column, the result is a well-formed
    one-dimensional array with one entry per row of the prediction. *)
Theorem get_probabilistic_predictions_vector :
  forall (m m' : model) (x : X) (ypred : ndarray float),
    predict m x = (Ok ypred, m') ->
    well_formed ypred = true ->
    ndim ypred = 1 \/ (ndim ypred = 2 /\ 1 <= ncols ypred) ->
    exists v,
      get_probabilistic_predictions m x = (Ok v, m')
      /\ shape v = [nrows ypred]
      /\ length (data v) = nrows ypred
      /\ well_formed v = true.
Proof.
  intros m m' x ypred Hp Hwf Hd. unfold get_probabilistic_predictions.
  rewrite Hp. simpl. unfold ndim in Hd. destruct Hd as [H1|[H2 Hc]].
  - rewrite H1. simpl. exists ypred. split; [reflexivity|].
    unfold nrows. unfold well_formed in Hwf. apply Nat.eqb_eq in Hwf.
    destruct (shape ypred) as [|n [|? ?]] eqn:Hs; try discriminate.
    simpl in *. repeat split.
    + lia.
    + unfold well_formed. rewrite Hs. simpl. apply Nat.eqb_eq. lia.
  - rewrite H2. simpl. rewrite index_axis1_last by assumption.
    exists (last_column ypred). split; [reflexivity|]. split; [reflexivity|].
    split; [|apply well_formed_last_column].
    unfold last_column. simpl. rewrite length_map, length_seq. reflexivity.
Qed.

End ProbabilisticPredictionFacts.

(** A model whose [predict] always raises and counts its calls. *)
Definition failing_model : BaseModel unit :=
  {| model := nat; predict := fun m _ => (Raise RuntimeError, S m) |}.

Lemma get_probabilistic_predictions_failures_witness :
  get_probabilistic_predictions (M := failing_model) 0 tt = (Raise RuntimeError, 1)
  /\ get_probabilistic_predictions (M := echo_model) tt
       {| shape := [3; 0]; data := [] |} = (Raise IndexError, tt).
Proof.
  split.
  - exact (proj1 (get_probabilistic_predictions_failures (M := failing_model) 0 1 tt)
             RuntimeError eq_refl).
  - exact (proj2 (get_probabilistic_predictions_failures (M := echo_model) tt tt
                    {| shape := [3; 0]; data := [] |})
             {| shape := [3; 0]; data := [] |} 3 eq_refl eq_refl).
Defined.

Lemma get_probabilistic_predictions_vector_witness :
  exists v,
    get_probabilistic_predictions (M := echo_model) tt
      {| shape := [2; 1]; data := [f32 3; f32 2] |} = (Ok v, tt)
    /\ shape v = [2] /\ length (data v) = 2 /\ well_formed v = true.
Proof.
  apply (get_probabilistic_predictions_vector (M := echo_model) tt
           {| shape := [2; 1]; data := [f32 3; f32 2] |} eq_refl eq_refl).
  right. split; [reflexivity|]. unfold ncols. simpl. lia.
Defined.

End Attributions.

(** ** models/mlp.py *)

Module MLP.
Import Float.

(** The fields of the run configuration and of the hyperparameters that
    the model reads. *)
Record Args : Type := {
  num_features : nat;
  num_classes : nat;
  objective : string;
  use_gpu : bool;
  epochs : Z;
  early_stopping_rounds : Z
}.

Record Params : Type := {
  hidden_dim : nat;
  n_layers : Z;
  learning_rate : float;
  batch_size : Z
}.

(** An [nn.Linear]: its declared sizes and its parameters. *)
Record Linear (W : Type) : Type := {
  in_features : nat;
  out_features : nat;
  wb : W
}.

(** The sub-modules registered by [__init__]; this is also the content of
    [state_dict()]. *)
Record Net (W : Type) : Type := {
  input_layer : Linear W;
  layers : list (Linear W);
  output_layer : Linear W
}.

(** The shape of the weight of a layer, [out_features] by [in_features];
    its bias has [out_features] entries. *)
Definition weight_shape {W : Type} (l : Linear W) : nat * nat :=
  (out_features l, in_features l).

(** The shapes of the entries of a [state_dict()], by key: those of
    [input_layer], of [layers.0], [layers.1], ... and of [output_layer]. *)
Definition state_shapes {W : Type} (n : Net W)
  : (nat * nat) * list (nat * nat) * (nat * nat) :=
  (weight_shape (input_layer n), map weight_shape (layers n),
   weight_shape (output_layer n)).

Definition shape_eqb (a b : nat * nat) : bool :=
  (fst a =? fst b) && (snd a =? snd b).

Fixpoint shapes_eqb (a b : list (nat * nat)) : bool :=
  match a, b with
  | [], [] => true
  | x :: a', y :: b' => shape_eqb x y && shapes_eqb a' b'
  | _, _ => false
  end.

(** The keys and the shapes of two state dicts agree. *)
Definition same_state_shapes {W : Type} (n m : Net W) : bool :=
  shape_eqb (weight_shape (input_layer n)) (weight_shape (input_layer m))
  && shapes_eqb (map weight_shape (layers n)) (map weight_shape (layers m))
  && shape_eqb (weight_shape (output_layer n)) (weight_shape (output_layer m)).

(** *** The tensor operations of the forward pass

    [nn.Linear], [F.relu], [F.softmax(dim=1)] and [torch.sigmoid] act on
    each row of a two-dimensional batch independently, so the runtime is
    described by what it does to one row. *)
Class TensorOps : Type := {
  row : Type;
  weights : Type;
  linear : Linear weights -> row -> row;
  relu_row : row -> row;
  softmax_row : row -> row;
  sigmoid_row : row -> row;
  float_row : row -> row
}.

Section Forward.
Context {T : TensorOps}.

Definition tensor : Type := list row.

Definition apply_linear (l : Linear weights) (x : tensor) : tensor := map (linear l) x.
Definition F_relu (x : tensor) : tensor := map relu_row x.
Definition F_softmax_dim1 (x : tensor) : tensor := map softmax_row x.
Definition torch_sigmoid (x : tensor) : tensor := map sigmoid_row x.
Definition to_float (x : tensor) : tensor := map float_row x.

Definition forward (args : Args) (net : Net weights) (x : tensor) : tensor :=
  let x := F_relu (apply_linear (input_layer net) x) in
  let x := fold_left (fun x layer => F_relu (apply_linear layer x)) (layers net) x in
  let x := apply_linear (output_layer net) x in
  if String.eqb (objective args) "classification" then F_softmax_dim1 x else x.

(** The value of [x] after line 46, before the softmax test. *)
Definition raw_output (net : Net weights) (x : tensor) : tensor :=
  apply_linear (output_layer net)
    (fold_left (fun x layer => F_relu (apply_linear layer x)) (layers net)
       (F_relu (apply_linear (input_layer net) x))).

(** All affine layers, in the order the forward pass applies them. *)
Definition affine_layers (net : Net weights) : list (Linear weights) :=
  input_layer net :: layers net ++ [output_layer net].

End Forward.

(** *** The rest of the training runtime

    Parameter initialisation, the sampler behind [shuffle=True], the loss
    modules and the optimizer belong to torch. A loss call returns a float
    or raises (a loss module rejects an output and a target whose shapes
    do not go together); an optimizer step changes the values of the
    parameters and leaves their shapes as they are. *)

Inductive loss_module : Type := MSELoss | CrossEntropyLoss | BCEWithLogitsLoss.

(** The first argument of a loss call: the forward output, as it is or
    after [squeeze()]. *)
Inductive loss_input (R : Type) : Type :=
| AsIs (out : list R)
| Squeezed (out : list R).

Class Torch (T : TensorOps) : Type := {
  rng : Type;
  target : Type;
  opt_state : Type;
  init_weights : nat -> nat -> rng -> weights * rng;
  randperm : nat -> rng -> list nat * rng;
  randperm_perm : forall n g, Permutation (fst (randperm n g)) (seq 0 n);
  float_target : target -> target;
  apply_loss : loss_module -> loss_input row -> list target -> result float;
  AdamW : Net weights -> float -> opt_state;
  optimizer_step :
    opt_state -> (Net weights -> result float) -> Net weights -> Net weights * opt_state;
  optimizer_step_shapes :
    forall o f n, state_shapes (fst (optimizer_step o f n)) = state_shapes n
}.

(** *** Batches *)

Fixpoint chunks_fuel {A} (fuel n : nat) (l : list A) : list (list A) :=
  match fuel with
  | 0 => []
  | S fuel' =>
      match l with
      | [] => []
      | _ => firstn n l :: chunks_fuel fuel' n (skipn n l)
      end
  end.

(** Consecutive batches of [n] entries; the last one may be shorter. *)
Definition chunks {A} (n : nat) (l : list A) : list (list A) :=
  chunks_fuel (length l) n l.

Definition gather {A} (ds : list A) (idx : list nat) : list A :=
  flat_map (fun i => match nth_error ds i with Some a => [a] | None => [] end) idx.

Record DataLoader (A : Type) : Type := {
  dataset : list A;
  loader_batch_size : nat
}.

(** [DataLoader(dataset, batch_size, shuffle=True)]: the random sampler
    rejects an empty data set and the batch sampler a batch size that is
    not positive, each with ValueError. *)
Definition new_loader {A} (ds : list A) (bs : Z) : result (DataLoader A) :=
  match ds with
  | [] => Raise ValueError
  | _ :: _ =>
      if (bs <=? 0)%Z then Raise ValueError
      else Ok {| dataset := ds; loader_batch_size := Z.to_nat bs |}
  end.

(** [TensorDataset(X, y)] *)
Definition TensorDataset {A B} (X : list A) (y : list B) : result (list (A * B)) :=
  if length X =? length y then Ok (combine X y) else Raise AssertionError.

(** *** The model object and its methods *)

Section Model.
Context {T : TensorOps} {R : Torch T}.

(** [utils.io_utils.get_output_path(args, directory, filename, extension,
    file_type)], which is not part of the modelled files. *)
Variable get_output_path : Args -> string -> string -> string -> string -> string.

(** One line printed by [fit]: epoch, step, training loss, validation loss. *)
Record log_line : Type := {
  log_epoch : nat;
  log_step : nat;
  log_loss : float;
  log_val_loss : float
}.

(** What the methods share with the rest of the process: the files written
    by [torch.save], torch's random generator and the standard output. *)
Record World : Type := {
  files : list (string * Net weights);
  gen : rng;
  stdout : list log_line
}.

Definition set_files (fs : list (string * Net weights)) (w : World) : World :=
  {| files := fs; gen := gen w; stdout := stdout w |}.
Definition set_gen (g : rng) (w : World) : World :=
  {| files := files w; gen := g; stdout := stdout w |}.
Definition print (l : log_line) (w : World) : World :=
  {| files := files w; gen := gen w; stdout := stdout w ++ [l] |}.

Fixpoint read_file (path : string) (fs : list (string * Net weights))
  : option (Net weights) :=
  match fs with
  | [] => None
  | (p, sd) :: rest => if String.eqb p path then Some sd else read_file path rest
  end.

Definition write_file (path : string) (sd : Net weights)
  (fs : list (string * Net weights)) : list (string * Net weights) :=
  (path, sd) :: fs.

Record MLP : Type := {
  params : Params;
  args : Args;
  net : Net weights;
  predictions : option tensor
}.

Definition set_net (n : Net weights) (self : MLP) : MLP :=
  {| params := params self; args := args self; net := n;
     predictions := predictions self |}.
Definition set_predictions (p : tensor) (self : MLP) : MLP :=
  {| params := params self; args := args self; net := net self;
     predictions := Some p |}.

(** The list comprehension of line 29. *)
Fixpoint init_hidden (k hidden : nat) (g : rng) : list (Linear weights) * rng :=
  match k with
  | 0 => ([], g)
  | S k' =>
      let (w, g1) := init_weights hidden hidden g in
      let (rest, g2) := init_hidden k' hidden g1 in
      ({| in_features := hidden; out_features := hidden; wb := w |} :: rest, g2)
  end.

Definition init (p : Params) (a : Args) (g : rng) : MLP * rng :=
  let input_dim := num_features a in
  let hidden := hidden_dim p in
  let output_dim := num_classes a in
  let (w_in, g1) := init_weights input_dim hidden g in
  let (hid, g2) := init_hidden (Z.to_nat (n_layers p - 1)) hidden g1 in
  let (w_out, g3) := init_weights hidden output_dim g2 in
  ({| params := p; args := a;
      net := {| input_layer := {| in_features := input_dim; out_features := hidden; wb := w_in |};
                layers := hid;
                output_layer := {| in_features := hidden; out_features := output_dim; wb := w_out |} |};
      predictions := None |}, g3).

Definition save_model (self : MLP) (filename_extension directory : string) (w : World)
  : World :=
  let filename := get_output_path (args self) directory "m" filename_extension "pt" in
  set_files (write_file filename (net self) (files w)) w.

(** [self.load_state_dict(state_dict)], strict as it is by default: the
    keys and the shapes of the file must be those of the model's own
    parameters, which then take the values of the file. *)
Definition load_state_dict (self : MLP) (state_dict : Net weights) : result MLP :=
  if same_state_shapes (net self) state_dict
  then Ok (set_net state_dict self)
  else Raise RuntimeError.

Definition load_model (self : MLP) (filename_extension directory : string) (w : World)
  : result MLP :=
  let filename := get_output_path (args self) directory "m" filename_extension "pt" in
  match read_file filename (files w) with
  | Some state_dict => load_state_dict self state_dict
  | None => Raise (FileNotFoundError filename)
  end.

(** One pass over a shuffling loader: a fresh permutation of the indices,
    cut into batches. *)
Definition loader_iter {A} (dl : DataLoader A) (g : rng) : list (list A) * rng :=
  let (perm, g') := randperm (length (dataset dl)) g in
  (map (gather (dataset dl)) (chunks (loader_batch_size dl) perm), g').

(** **** fit *)

(** Lines 66 to 75. *)
Definition select_loss (a : Args) (y y_val : list target)
  : loss_module * list target * list target :=
  if String.eqb (objective a) "regression"
  then (MSELoss, map float_target y, map float_target y_val)
  else if String.eqb (objective a) "classification"
  then (CrossEntropyLoss, y, y_val)
  else (BCEWithLogitsLoss, map float_target y, map float_target y_val).

(** Lines 92 and 93 (and 107 and 108). *)
Definition squeeze_output (a : Args) (out : tensor) : loss_input row :=
  if String.eqb (objective a) "regression" || String.eqb (objective a) "binary"
  then Squeezed out else AsIs out.

(** [loss_func(out, batch_y)] for the forward output of [n] on a batch. *)
Definition batch_loss (a : Args) (loss_func : loss_module)
  (batch : list (row * target)) (n : Net weights) : result float :=
  apply_loss loss_func (squeeze_output a (forward a n (map fst batch))) (map snd batch).

(** Lines 104 to 111: the loop over the validation batches; a loss call
    that raises ends it. *)
Fixpoint val_pass (a : Args) (loss_func : loss_module) (n : Net weights)
  (batches : list (list (row * target))) (val_loss : float) (val_dim : nat)
  : result (float * nat) :=
  match batches with
  | [] => Ok (val_loss, val_dim)
  | b :: rest =>
      l <- batch_loss a loss_func b n ;;
      val_pass a loss_func n rest (add val_loss l) (S val_dim)
  end.

(** The variables the loop of [fit] works on. *)
Record fit_state : Type := {
  self_net : Net weights;
  optimizer : opt_state;
  min_val_loss : float;
  min_val_loss_idx : Z;
  world : World
}.

(** How a piece of the loop ends: it falls through, executes [return], or
    raises. *)
Inductive control : Type :=
| Next
| Return
| Raised (e : exn).

Definition current_idx_of (epoch i : nat) : Z :=
  ((Z.of_nat i + 1) * (Z.of_nat epoch + 1))%Z.

(** Lines 90 to 128: the body of the inner loop. The loss call of line 95
    comes before the optimizer step and those of line 110 after it; the
    division of line 112 is a float by an int while no validation batch was
    seen, which raises on 0 (the loaders [fit] builds always yield a batch,
    see [new_loader]). *)
Definition fit_body (self : MLP) (loss_func : loss_module)
  (val_loader : DataLoader (row * target))
  (epoch i : nat) (batch : list (row * target)) (st : fit_state)
  : control * fit_state :=
  let a := args self in
  match batch_loss a loss_func batch (self_net st) with
  | Raise e => (Raised e, st)
  | Ok loss =>
  let (net', opt') :=
    optimizer_step (optimizer st) (batch_loss a loss_func batch) (self_net st) in
  let (val_batches, g') := loader_iter val_loader (gen (world st)) in
  let st1 := {| self_net := net'; optimizer := opt';
                min_val_loss := min_val_loss st;
                min_val_loss_idx := min_val_loss_idx st;
                world := set_gen g' (world st) |} in
  match val_pass a loss_func net' val_batches zero 0 with
  | Raise e => (Raised e, st1)
  | Ok (val_loss, val_dim) =>
  if val_dim =? 0 then (Raised ZeroDivisionError, st1)
  else
    let val_loss := div val_loss (of_nat val_dim) in
    let current_idx := current_idx_of epoch i in
    let w2 := print {| log_epoch := epoch; log_step := i;
                       log_loss := loss; log_val_loss := val_loss |} (world st1) in
    let st2 :=
      if ltb val_loss (min_val_loss st)
      then {| self_net := net'; optimizer := opt';
              min_val_loss := val_loss;
              min_val_loss_idx := current_idx;
              world := save_model (set_net net' self) "best" "tmp" w2 |}
      else {| self_net := net'; optimizer := opt';
              min_val_loss := min_val_loss st;
              min_val_loss_idx := min_val_loss_idx st;
              world := w2 |} in
    if (min_val_loss_idx st2 + early_stopping_rounds a <? current_idx)%Z
    then (Return, st2)
    else (Next, st2)
  end
  end.

(** Line 88: the batches of one epoch, numbered from [i]. *)
Fixpoint fit_batches (self : MLP) (loss_func : loss_module)
  (val_loader : DataLoader (row * target))
  (epoch i : nat) (batches : list (list (row * target))) (st : fit_state)
  : control * fit_state :=
  match batches with
  | [] => (Next, st)
  | batch :: rest =>
      match fit_body self loss_func val_loader epoch i batch st with
      | (Next, st') => fit_batches self loss_func val_loader epoch (S i) rest st'
      | stopped => stopped
      end
  end.

(** Line 87: [n] epochs, numbered from [epoch]. *)
Fixpoint fit_epochs (self : MLP) (loss_func : loss_module)
  (train_loader val_loader : DataLoader (row * target))
  (epoch n : nat) (st : fit_state) : control * fit_state :=
  match n with
  | 0 => (Next, st)
  | S n' =>
      let (batches, g') := loader_iter train_loader (gen (world st)) in
      let st0 := {| self_net := self_net st; optimizer := optimizer st;
                    min_val_loss := min_val_loss st;
                    min_val_loss_idx := min_val_loss_idx st;
                    world := set_gen g' (world st) |} in
      match fit_batches self loss_func val_loader epoch 0 batches st0 with
      | (Next, st') => fit_epochs self loss_func train_loader val_loader (S epoch) n' st'
      | stopped => stopped
      end
  end.

(** The state at line 86. *)
Definition fit_start (self : MLP) (w : World) : fit_state :=
  {| self_net := net self;
     optimizer := AdamW (net self) (learning_rate (params self));
     min_val_loss := inf;
     min_val_loss_idx := 0;
     world := w |}.

(** What [fit] leaves behind: how it ended, the model and the world. *)
Record fit_result : Type := {
  fit_control : control;
  fit_final : fit_state
}.

(** [fit] with validation data given. Moving tensors to the device does
    not change their values and is left out; the set-up raises when the
    sizes of inputs and targets differ, when a data set is empty or when
    the batch size is not positive. *)
Definition fit (self : MLP) (X : tensor) (y : list target)
  (X_val : tensor) (y_val : list target) (w : World) : fit_result :=
  let st := fit_start self w in
  let X := to_float X in
  let X_val := to_float X_val in
  let '(loss_func, y, y_val) := select_loss (args self) y y_val in
  match TensorDataset X y with
  | Raise e => {| fit_control := Raised e; fit_final := st |}
  | Ok train_dataset =>
  match new_loader train_dataset (batch_size (params self)) with
  | Raise e => {| fit_control := Raised e; fit_final := st |}
  | Ok train_loader =>
  match TensorDataset X_val y_val with
  | Raise e => {| fit_control := Raised e; fit_final := st |}
  | Ok val_dataset =>
  match new_loader val_dataset (batch_size (params self)) with
  | Raise e => {| fit_control := Raised e; fit_final := st |}
  | Ok val_loader =>
      let (c, st') :=
        fit_epochs self loss_func train_loader val_loader 0
                   (Z.to_nat (epochs (args self))) st in
      {| fit_control := c; fit_final := st' |}
  end end end end.

(** The model object after [fit]. *)
Definition fit_self (self : MLP) (r : fit_result) : MLP :=
  set_net (self_net (fit_final r)) self.

(** **** predict *)

(** Lines 146 to 149 on one batch. *)
Definition predict_batch (self : MLP) (batch_X : tensor) : tensor :=
  let preds := forward (args self) (net self) batch_X in
  if String.eqb (objective (args self)) "binary" then torch_sigmoid preds else preds.

(** [predict] returns what the call returns or raises, the model object
    and the world after the call. The loader of line 140 raises on an
    empty input, after the checkpoint was loaded and before anything is
    drawn; [np.concatenate] raises on an empty list of batches, which a
    loader never yields. *)
Definition predict (self : MLP) (X : tensor) (w : World)
  : result tensor * MLP * World :=
  match load_model self "best" "tmp" w with
  | Raise e => (Raise e, self, w)
  | Ok self1 =>
      let X := to_float X in
      match new_loader X (batch_size (params self1)) with
      | Raise e => (Raise e, self1, w)
      | Ok test_loader =>
          let (batches, g') := loader_iter test_loader (gen w) in
          let w' := set_gen g' w in
          let preds := map (predict_batch self1) batches in
          match preds with
          | [] => (Raise ValueError, set_predictions [] self1, w')
          | _ =>
              let out := concat preds in
              (Ok out, set_predictions out self1, w')
          end
      end
  end.

End Model.

(** *** The forward pass, row by row *)

Section ForwardFacts.
Context {T : TensorOps}.

(** What the forward pass does to one row before the softmax test. *)
Definition raw_row (n : Net weights) (r : row) : row :=
  linear (output_layer n)
    (fold_left (fun r layer => relu_row (linear layer r)) (layers n)
       (relu_row (linear (input_layer n) r))).

Definition forward_row (a : Args) (n : Net weights) (r : row) : row :=
  if String.eqb (objective a) "classification"
  then softmax_row (raw_row n r) else raw_row n r.

Lemma fold_left_relu_rows (ls : list (Linear weights)) (x : tensor) :
  fold_left (fun x layer => F_relu (apply_linear layer x)) ls x
  = map (fun r => fold_left (fun r layer => relu_row (linear layer r)) ls r) x.
Proof.
  revert x. induction ls as [|l ls IH]; intros x; simpl.
  - rewrite map_id. reflexivity.
  - rewrite IH. unfold F_relu, apply_linear. rewrite !map_map. reflexivity.
Qed.

Lemma raw_output_rows (n : Net weights) (x : tensor) :
  raw_output n x = map (raw_row n) x.
Proof.
  unfold raw_output, raw_row. rewrite fold_left_relu_rows.
  unfold F_relu, apply_linear. rewrite !map_map. reflexivity.
Qed.

Lemma forward_raw_output (a : Args) (n : Net weights) (x : tensor) :
  forward a n x =
    if String.eqb (objective a) "classification"
    then F_softmax_dim1 (raw_output n x) else raw_output n x.
Proof. reflexivity. Qed.

Lemma forward_rows (a : Args) (n : Net weights) (x : tensor) :
  forward a n x = map (forward_row a n) x.
Proof.
  rewrite forward_raw_output, raw_output_rows. unfold forward_row, F_softmax_dim1.
  destruct (String.eqb (objective a) "classification").
  - rewrite map_map. reflexivity.
  - reflexivity.
Qed.

Lemma length_forward (a : Args) (n : Net weights) (x : tensor) :
  length (forward a n x) = length x.
Proof. rewrite forward_rows. apply length_map. Qed.

(** The ReLU is applied after each layer but the last of [affine_layers]. *)
Lemma raw_row_affine_layers (n : Net weights) (r : row) :
  raw_row n r =
    linear (last (affine_layers n) (output_layer n))
      (fold_left (fun r layer => relu_row (linear layer r))
         (removelast (affine_layers n)) r).
Proof.
  unfold raw_row, affine_layers.
  replace (input_layer n :: layers n ++ [output_layer n])
    with ((input_layer n :: layers n) ++ [output_layer n]) by reflexivity.
  rewrite last_last, removelast_last. reflexivity.
Qed.

End ForwardFacts.

(** *** The operations a row goes through

    A runtime that computes nothing and records, for each row, the
    operations applied to it. *)

Inductive op : Type :=
| OpLinear (n_in n_out : nat)
| OpReLU
| OpSoftmax
| OpSigmoid
| OpFloat.

Definition op_eq_dec (a b : op) : {a = b} + {a <> b}.
Proof. decide equality; apply Nat.eq_dec. Defined.

Definition trace_ops : TensorOps := {|
  row := list op;
  weights := unit;
  linear := fun l r => r ++ [OpLinear (in_features l) (out_features l)];
  relu_row := fun r => r ++ [OpReLU];
  softmax_row := fun r => r ++ [OpSoftmax];
  sigmoid_row := fun r => r ++ [OpSigmoid];
  float_row := fun r => r ++ [OpFloat]
|}.

Definition layer_ops (W : Type) (l : Linear W) : list op :=
  [OpLinear (in_features l) (out_features l); OpReLU].

Lemma trace_hidden (ls : list (Linear unit)) (r : list op) :
  fold_left (fun r layer => @relu_row trace_ops (@linear trace_ops layer r)) ls r
  = r ++ flat_map (@layer_ops unit) ls.
Proof.
  revert r. induction ls as [|l ls IH]; intros r; simpl.
  - rewrite app_nil_r. reflexivity.
  - rewrite IH. simpl. rewrite <- !app_assoc. reflexivity.
Qed.

Lemma trace_forward_row (a : Args) (n : Net unit) :
  forward_row (T := trace_ops) a n [] =
    flat_map (@layer_ops unit) (input_layer n :: layers n)
    ++ [OpLinear (in_features (output_layer n)) (out_features (output_layer n))]
    ++ (if String.eqb (objective a) "classification" then [OpSoftmax] else []).
Proof.
  unfold forward_row, raw_row. rewrite trace_hidden. simpl.
  destruct (String.eqb (objective a) "classification"); simpl;
    rewrite <- ?app_assoc; simpl; rewrite ?app_nil_r; reflexivity.
Qed.

Lemma count_relu_layers (ls : list (Linear unit)) :
  count_occ op_eq_dec (flat_map (@layer_ops unit) ls) OpReLU = length ls.
Proof. induction ls as [|l ls IH]; simpl; [reflexivity|]. rewrite IH. reflexivity. Qed.

Definition is_linear (o : op) : bool :=
  match o with OpLinear _ _ => true | _ => false end.

Lemma count_linear_layers (ls : list (Linear unit)) :
  length (filter is_linear (flat_map (@layer_ops unit) ls)) = length ls.
Proof. induction ls as [|l ls IH]; simpl; [reflexivity|]. rewrite IH. reflexivity. Qed.

Lemma trace_counts (a : Args) (n : Net unit) :
  count_occ op_eq_dec (forward_row (T := trace_ops) a n []) OpReLU = S (length (layers n))
  /\ length (filter is_linear (forward_row (T := trace_ops) a n [])) = S (S (length (layers n))).
Proof.
  rewrite trace_forward_row. split.
  - rewrite count_occ_app, count_relu_layers. simpl.
    destruct (String.eqb (objective a) "classification"); simpl; lia.
  - rewrite filter_app, length_app, count_linear_layers. simpl.
    destruct (String.eqb (objective a) "classification"); simpl; lia.
Qed.

(** *** Real numbers in place of binary32

    The tensor operations with exact real arithmetic: a layer is the list
    of its output units, each a weight vector and a bias. The tensors of
    the code hold binary32 numbers (next section); the reals serve to
    compare the cross-entropy of raw scores with that of normalised
    scores. *)




(** *** The forward pass in binary32

    The tensors [fit] and [predict] build with [.float()] hold binary32
    numbers. A layer is the list of its output units, each a row of
    weights and a bias. On NaN, the infinities and the zeros the
    exponential is what IEEE 754 fixes; on the other numbers it is the
    approximation [fexp] of the runtime. The softmax subtracts the maximum
    of the row, exponentiates, and scales by the reciprocal of the sum. The
    order in which the runtime adds the terms of a sum is its own; a NaN
    among the terms gives NaN in any order, and nothing below depends on
    more. *)

Definition exp32 (fexp : float -> float) (x : float) : float :=
  match x with
  | S754_nan => nan
  | S754_infinity false => inf
  | S754_infinity true => zero
  | S754_zero _ => one
  | S754_finite _ _ _ => fexp x
  end.

Definition sum32 (l : list float) : float := fold_left add l zero.

Definition dot32 (w x : list float) : float :=
  sum32 (map (fun p => mul (fst p) (snd p)) (combine w x)).

(** The maximum that keeps a NaN. *)
Definition max32 (a b : float) : float :=
  if is_nan a then a else if is_nan b then b else if ltb a b then b else a.

Definition relu32 (x : float) : float := max32 x zero.

Definition softmax32 (fexp : float -> float) (r : list float) : list float :=
  let m := fold_left max32 r (S754_infinity true) in
  let e := map (fun x => exp32 fexp (sub x m)) r in
  let s := div one (sum32 e) in
  map (fun v => mul v s) e.

Definition sigmoid32 (fexp : float -> float) (x : float) : float :=
  div one (add one (exp32 fexp (SFopp x))).

Definition f32_ops (fexp : float -> float) : TensorOps := {|
  row := list float;
  weights := list (list float * float);
  linear := fun l r => map (fun u => add (dot32 (fst u) r) (snd u)) (wb l);
  relu_row := map relu32;
  softmax_row := softmax32 fexp;
  sigmoid_row := map (sigmoid32 fexp);
  float_row := fun r => r
|}.

(** The binary32 number nearest to 1e-6. *)
Definition tolerance : float := S754_finite false 8796093 (-43).

(** The row sums to 1 within the tolerance. *)
Definition row_sums_to_one (r : list float) : bool :=
  leb (SFabs (sub (sum32 r) one)) tolerance.









Definition example_args (obj : string) : Args :=
  {| num_features := 1; num_classes := 2; objective := obj; use_gpu := false;
     epochs := 2; early_stopping_rounds := 1 |}.

(** One input feature, one hidden unit with weight 2, two classes with
    weight 1 each; all biases 0. *)
Definition example_f32_net : Net (list (list float * float)) :=
  {| input_layer := {| in_features := 1; out_features := 1;
                       wb := [([of_nat 2], zero)] |};
     layers := [];
     output_layer := {| in_features := 1; out_features := 2;
                        wb := [([one], zero); ([one], zero)] |} |}.

(** The binary32 number [2^127], a finite number whose double overflows. *)
Definition huge : float := S754_finite false 8388608 104.

(** C7 as stated fails: a NaN in the input row reaches the raw scores, and
    so does the infinity that doubling [2^127] overflows to; in both cases
    the classification output is a row of NaN, whatever the runtime's
    exponential is on finite numbers, and it does not sum to 1 within
    1e-6. *)
Lemma forward_row_of_nan :
  (forall fexp : float -> float,
      forward (T := f32_ops fexp) (example_args "classification") example_f32_net [[nan]]
      = [[nan; nan]])
  /\ (forall fexp : float -> float,
        raw_output (T := f32_ops fexp) example_f32_net [[huge]] = [[inf; inf]]
        /\ forward (T := f32_ops fexp) (example_args "classification") example_f32_net
             [[huge]]
           = [[nan; nan]])
  /\ is_nan huge = false
  /\ ltb huge inf = true
  /\ row_sums_to_one [nan; nan] = false.
Proof.
  split; [|split; [|split; [|split]]]; try reflexivity.
  intros fexp. split; reflexivity.
Qed.



(** *** The layers built by the constructor *)

Section InitFacts.
Context {T : TensorOps} {R : Torch T}.

Definition sizes (l : Linear weights) : nat * nat := (in_features l, out_features l).

Lemma init_hidden_spec (k hidden : nat) (g : rng) :
  length (fst (init_hidden k hidden g)) = k
  /\ Forall (fun l => sizes l = (hidden, hidden)) (fst (init_hidden k hidden g)).
Proof.
  revert g. induction k as [|k IH]; intros g; simpl.
  - split; [reflexivity|constructor].
  - destruct (init_weights hidden hidden g) as [w g1].
    specialize (IH g1). destruct (init_hidden k hidden g1) as [rest g2].
    simpl in *. destruct IH as [IH1 IH2]. split; [congruence|].
    constructor; [reflexivity|assumption].
Qed.

Lemma init_net (p : Params) (a : Args) (g : rng) :
  let self := fst (init p a g) in
  args self = a /\ params self = p
  /\ sizes (input_layer (net self)) = (num_features a, hidden_dim p)
  /\ length (layers (net self)) = Z.to_nat (n_layers p - 1)
  /\ Forall (fun l => sizes l = (hidden_dim p, hidden_dim p)) (layers (net self))
  /\ sizes (output_layer (net self)) = (hidden_dim p, num_classes a).
Proof.
  unfold init.
  destruct (init_weights (num_features a) (hidden_dim p) g) as [w_in g1].
  pose proof (init_hidden_spec (Z.to_nat (n_layers p - 1)) (hidden_dim p) g1) as H.
  destruct (init_hidden (Z.to_nat (n_layers p - 1)) (hidden_dim p) g1) as [hid g2].
  destruct (init_weights (hidden_dim p) (num_classes a) g2) as [w_out g3].
  simpl in *. destruct H as [H1 H2]. repeat split; assumption.
Qed.

Lemma firstn_snoc {A} (l : list A) (x : A) : firstn (length l) (l ++ [x]) = l.
Proof.
  rewrite firstn_app, Nat.sub_diag, firstn_all. simpl. apply app_nil_r.
Qed.

Lemma nth_snoc {A} (l : list A) (x d : A) : nth (length l) (l ++ [x]) d = x.
Proof. rewrite app_nth2, Nat.sub_diag by lia. reflexivity. Qed.

End InitFacts.

(** C10: with [n_layers = k >= 1] the constructor builds [k + 1] affine
    layers: the input layer (features to hidden width), [k - 1] hidden
    layers of equal width, and the output layer (hidden width to output
    count); the forward pass puts a ReLU after the first [k] of them and
    none after the last. *)
Theorem init_builds_n_layers_plus_one :
  forall (T : TensorOps) (R : Torch T) (p : Params) (a : Args) (g : rng),
    (1 <= n_layers p)%Z ->
    let n := net (fst (init p a g)) in
    let k := Z.to_nat (n_layers p) in
    length (affine_layers n) = k + 1
    /\ sizes (input_layer n) = (num_features a, hidden_dim p)
    /\ length (layers n) = k - 1
    /\ Forall (fun l => sizes l = (hidden_dim p, hidden_dim p)) (layers n)
    /\ sizes (output_layer n) = (hidden_dim p, num_classes a)
    /\ firstn k (affine_layers n) = input_layer n :: layers n
    /\ nth k (affine_layers n) (input_layer n) = output_layer n
    /\ (forall x : tensor,
          forward (args (fst (init p a g))) n x =
            map (fun r =>
                   let o := linear (nth k (affine_layers n) (input_layer n))
                              (fold_left (fun r layer => relu_row (linear layer r))
                                 (firstn k (affine_layers n)) r) in
                   if String.eqb (objective a) "classification"
                   then softmax_row o else o) x)
    /\ (forall (a' : Args) (m : Net unit),
          length (layers m) = length (layers n) ->
          count_occ op_eq_dec (forward_row (T := trace_ops) a' m []) OpReLU = k
          /\ length (filter is_linear (forward_row (T := trace_ops) a' m [])) = k + 1).
Proof.
  intros T R p a g Hk n k.
  destruct (init_net p a g) as [Ha [Hp [Hin [Hlen [Hhid Hout]]]]].
  fold n in Hin, Hlen, Hhid, Hout.
  assert (Hlen' : length (layers n) = k - 1) by (unfold k; lia).
  assert (Hk' : k = length (input_layer n :: layers n)) by (simpl; unfold k in *; lia).
  assert (Hfirst : firstn k (affine_layers n) = input_layer n :: layers n).
  { unfold affine_layers.
    change (input_layer n :: layers n ++ [output_layer n])
      with ((input_layer n :: layers n) ++ [output_layer n]).
    rewrite Hk'. apply firstn_snoc. }
  assert (Hnth : nth k (affine_layers n) (input_layer n) = output_layer n).
  { unfold affine_layers.
    change (input_layer n :: layers n ++ [output_layer n])
      with ((input_layer n :: layers n) ++ [output_layer n]).
    rewrite Hk'. apply nth_snoc. }
  split; [|split; [|split; [|split; [|split; [|split; [|split; [|split]]]]]]];
    try assumption.
  - unfold affine_layers. simpl. rewrite length_app. simpl. lia.
  - intros x. rewrite Ha, forward_rows, Hfirst, Hnth. reflexivity.
  - intros a' m Hm. destruct (trace_counts a' m) as [H1 H2].
    rewrite H1, H2, Hm. lia.
Qed.

(** *** Batching facts *)

Section BatchFacts.
Context {A : Type}.

Lemma concat_chunks_fuel (n : nat) :
  1 <= n -> forall fuel (l : list A),
    length l <= fuel -> concat (chunks_fuel fuel n l) = l.
Proof.
  intros Hn. induction fuel as [|fuel IH]; intros l Hl.
  - destruct l; simpl in *; [reflexivity|lia].
  - destruct l as [|x l]; [reflexivity|].
    cbn [chunks_fuel concat]. rewrite IH.
    + apply firstn_skipn.
    + rewrite length_skipn. change (length (x :: l)) with (S (length l)) in *. lia.
Qed.

Lemma concat_chunks (n : nat) (l : list A) : 1 <= n -> concat (chunks n l) = l.
Proof. intros Hn. apply concat_chunks_fuel; auto. Qed.

Lemma chunks_nonempty (n : nat) (l : list A) : l <> [] -> chunks n l <> [].
Proof. destruct l; [congruence|]. intros _. unfold chunks. simpl. discriminate. Qed.

Lemma chunks_nil (n : nat) : chunks n (@nil A) = [].
Proof. reflexivity. Qed.

Lemma gather_app (ds : list A) (a b : list nat) :
  gather ds (a ++ b) = gather ds a ++ gather ds b.
Proof. apply flat_map_app. Qed.

Lemma concat_map_gather (ds : list A) (cs : list (list nat)) :
  concat (map (gather ds) cs) = gather ds (concat cs).
Proof.
  induction cs as [|c cs IH]; simpl; [reflexivity|].
  rewrite gather_app, IH. reflexivity.
Qed.

Lemma gather_in_range (d : A) (ds : list A) (idx : list nat) :
  Forall (fun i => i < length ds) idx ->
  gather ds idx = map (fun i => nth i ds d) idx.
Proof.
  induction 1 as [|i idx Hi _ IH]; simpl; [reflexivity|].
  rewrite IH. destruct (nth_error ds i) eqn:E.
  - rewrite (nth_error_nth _ _ d E). reflexivity.
  - apply nth_error_None in E. lia.
Qed.

Lemma gather_seq (ds : list A) : gather ds (seq 0 (length ds)) = ds.
Proof.
  induction ds as [|x ds IH] using rev_ind; [reflexivity|].
  rewrite length_app. simpl. rewrite Nat.add_1_r, seq_S, gather_app. simpl.
  rewrite nth_error_app2, Nat.sub_diag by lia. simpl. f_equal.
  transitivity (gather ds (seq 0 (length ds))); [|exact IH].
  unfold gather. apply Evaluate.flat_map_ext_in.
  intros i Hi. apply in_seq in Hi. rewrite nth_error_app1 by lia. reflexivity.
Qed.


Lemma gather_perm (ds : list A) (perm : list nat) :
  Permutation perm (seq 0 (length ds)) ->
  Permutation (gather ds perm) ds /\ length (gather ds perm) = length ds.
Proof.
  intros H.
  assert (P : Permutation (gather ds perm) ds).
  { apply Permutation_trans with (gather ds (seq 0 (length ds))).
    - unfold gather. apply Permutation_flat_map. exact H.
    - rewrite gather_seq. apply Permutation_refl. }
  split; [exact P|]. apply Permutation_length. exact P.
Qed.

End BatchFacts.

Lemma length_chunks_fuel {A B} (n : nat) :
  forall fuel (l : list A) (l' : list B),
    length l = length l' ->
    length (chunks_fuel fuel n l) = length (chunks_fuel fuel n l').
Proof.
  induction fuel as [|fuel IH]; intros l l' H; [reflexivity|].
  destruct l as [|x l], l' as [|x' l']; try discriminate; [reflexivity|].
  cbn [chunks_fuel length]. f_equal. apply IH.
  rewrite !length_skipn. change (length (x :: l)) with (S (length l)) in *.
  change (length (x' :: l')) with (S (length l')) in *. lia.
Qed.

Lemma length_chunks {A B} (n : nat) (l : list A) (l' : list B) :
  length l = length l' -> length (chunks n l) = length (chunks n l').
Proof. intros H. unfold chunks. rewrite <- H. apply length_chunks_fuel. exact H. Qed.


(** *** predict *)

Section PredictFacts.
Context {T : TensorOps} {R : Torch T}.
Variable get_output_path : Args -> string -> string -> string -> string -> string.

(** The file [fit] saves to and [predict] loads from. *)
Definition checkpoint_path (self : MLP) : string :=
  get_output_path (args self) "tmp" "m" "best" "pt".

Lemma shape_eqb_spec (a b : nat * nat) : shape_eqb a b = true <-> a = b.
Proof.
  destruct a as [a1 a2], b as [b1 b2]. unfold shape_eqb. simpl.
  rewrite andb_true_iff, !Nat.eqb_eq. split; [intros []|intros [=]]; subst; auto.
Qed.

Lemma shapes_eqb_spec (a b : list (nat * nat)) : shapes_eqb a b = true <-> a = b.
Proof.
  revert b. induction a as [|x a IH]; intros [|y b]; simpl;
    try (split; [discriminate|discriminate]); [split; reflexivity|].
  rewrite andb_true_iff, shape_eqb_spec, IH. split; [intros []|intros [=]]; subst; auto.
Qed.

Lemma same_state_shapes_spec (n m : Net weights) :
  same_state_shapes n m = true <-> state_shapes n = state_shapes m.
Proof.
  unfold same_state_shapes, state_shapes.
  rewrite !andb_true_iff, !shape_eqb_spec, shapes_eqb_spec.
  split.
  - intros [[H1 H2] H3]. rewrite H1, H2, H3. reflexivity.
  - intros H. injection H as H1 H2 H3 H4 H5.
    repeat split; [unfold weight_shape; congruence|assumption
                  |unfold weight_shape; congruence].
Qed.

Lemma load_state_dict_same (self : MLP) (sd : Net weights) :
  state_shapes sd = state_shapes (net self) ->
  load_state_dict self sd = Ok (set_net sd self).
Proof.
  intros H. unfold load_state_dict.
  rewrite (proj2 (same_state_shapes_spec (net self) sd)) by (symmetry; exact H).
  reflexivity.
Qed.

Lemma load_state_dict_other (self : MLP) (sd : Net weights) :
  state_shapes sd <> state_shapes (net self) ->
  load_state_dict self sd = Raise RuntimeError.
Proof.
  intros H. unfold load_state_dict.
  destruct (same_state_shapes (net self) sd) eqn:E; [|reflexivity].
  apply same_state_shapes_spec in E. congruence.
Qed.

Lemma load_state_dict_net (self self1 : MLP) (sd : Net weights) :
  load_state_dict self sd = Ok self1 ->
  self1 = set_net sd self /\ state_shapes sd = state_shapes (net self).
Proof.
  unfold load_state_dict. destruct (same_state_shapes (net self) sd) eqn:E; [|discriminate].
  intros [= <-]. apply same_state_shapes_spec in E. auto.
Qed.

(** Lines 146 to 149 on one row. *)
Definition predict_row (self : MLP) (r : row) : row :=
  let p := forward_row (args self) (net self) r in
  if String.eqb (objective (args self)) "binary" then sigmoid_row p else p.



(** What a loader is when its construction succeeds. *)
Lemma new_loader_ok {A} (ds : list A) (bs : Z) (dl : DataLoader A) :
  new_loader ds bs = Ok dl ->
  ds <> [] /\ (1 <= bs)%Z /\ dl = {| dataset := ds; loader_batch_size := Z.to_nat bs |}.
Proof.
  unfold new_loader. destruct ds as [|x ds]; [discriminate|].
  destruct (Z.leb_spec bs 0) as [Hle|Hbs]; [discriminate|].
  intros [= <-]. repeat split; [discriminate|lia].
Qed.

Lemma new_loader_returns {A} (ds : list A) (bs : Z) :
  ds <> [] -> (1 <= bs)%Z ->
  new_loader ds bs = Ok {| dataset := ds; loader_batch_size := Z.to_nat bs |}.
Proof.
  intros Hds Hbs. unfold new_loader. destruct ds as [|x ds]; [congruence|].
  destruct (Z.leb_spec bs 0) as [Hle|_]; [lia|reflexivity].
Qed.

Lemma new_loader_raises {A} (ds : list A) (bs : Z) (e : exn) :
  new_loader ds bs = Raise e -> e = ValueError /\ (ds = [] \/ (bs <= 0)%Z).
Proof.
  unfold new_loader. destruct ds as [|x ds]; [intros [= <-]; auto|].
  destruct (Z.leb_spec bs 0) as [Hle|Hbs]; [intros [= <-]; auto|discriminate].
Qed.



End PredictFacts.

(** *** A small runtime to run the methods on

    Rows are lists of numbers; a layer appends its parameter (a counter of
    the optimizer steps it has seen) to the row, the activations leave the
    row as it is; the sampler reverses the indices; the loss of a batch is
    read off a table at the counter of the output layer. *)

Definition counter_ops : TensorOps := {|
  row := list nat;
  weights := nat;
  linear := fun l r => r ++ [wb l];
  relu_row := fun r => r;
  softmax_row := fun r => r;
  sigmoid_row := fun r => r;
  float_row := fun r => r
|}.

Definition bump (n : Net nat) : Net nat :=
  {| input_layer := input_layer n;
     layers := layers n;
     output_layer := {| in_features := in_features (output_layer n);
                        out_features := out_features (output_layer n);
                        wb := S (wb (output_layer n)) |} |}.

Definition table_loss (table : nat -> result float) (x : loss_input (list nat))
  : result float :=
  match x with
  | AsIs (r :: _) | Squeezed (r :: _) => table (last r 0)
  | _ => Ok nan
  end.

Lemma bump_shapes (o : nat) (f : Net nat -> result float) (n : Net nat) :
  state_shapes (fst (bump n, S o)) = state_shapes n.
Proof. reflexivity. Qed.

Lemma rev_seq_perm (n g : nat) :
  Permutation (fst (rev (seq 0 n), S g)) (seq 0 n).
Proof. simpl. apply Permutation_sym, Permutation_rev. Qed.

(** The runtime whose loss calls return or raise what the table says. *)
Definition partial_torch (table : nat -> result float) : Torch counter_ops :=
  @Build_Torch counter_ops
    nat nat nat
    (fun _ _ g => (0, S g))
    (fun n g => (rev (seq 0 n), S g))
    rev_seq_perm
    (fun t => t)
    (fun _ x _ => table_loss table x)
    (fun _ _ => 0)
    (fun opt _ n => (bump n, S opt))
    bump_shapes.

(** The runtime whose loss calls all return. *)
Definition table_torch (table : nat -> float) : Torch counter_ops :=
  partial_torch (fun t => Ok (table t)).

Definition example_output_path (a : Args) (directory filename extension file_type : string)
  : string :=
  (directory ++ "/" ++ filename ++ extension ++ "." ++ file_type)%string.

Definition example_params (k bs : Z) : Params :=
  {| hidden_dim := 1; n_layers := k; learning_rate := zero; batch_size := bs |}.

Lemma init_builds_n_layers_plus_one_witness :
  length (affine_layers
            (net (fst (init (R := table_torch (fun _ => zero))
                         (example_params 3 2) (example_args "binary") 0)))) = 4.
Proof.
  apply (proj1 (init_builds_n_layers_plus_one (table_torch (fun _ => zero))
                  (example_params 3 2) (example_args "binary") 0
                  ltac:(simpl; lia))).
Defined.


Definition example_net (c : nat) : Net nat :=
  {| input_layer := {| in_features := 1; out_features := 1; wb := 0 |};
     layers := [];
     output_layer := {| in_features := 1; out_features := 2; wb := c |} |}.

Definition example_self (table : nat -> float) (obj : string) (bs : Z)
  : @MLP counter_ops :=
  @Build_MLP counter_ops (example_params 1 bs) (example_args obj) (example_net 0) None.

Definition example_world (table : nat -> float) (fs : list (string * Net nat))
  : @World counter_ops (table_torch table) :=
  @Build_World counter_ops (table_torch table) fs 0 [].


(** *** fit: one iteration *)

Section FitFacts.
Context {T : TensorOps} {R : Torch T}.
Variable get_output_path : Args -> string -> string -> string -> string -> string.

(** The unweighted mean of a list of losses, in binary32. *)
Definition mean (l : list float) : float :=
  div (fold_left add l zero) (of_nat (length l)).

(** The step index of a printed line. *)
Definition step_index (ln : log_line) : Z :=
  ((Z.of_nat (log_step ln) + 1) * (Z.of_nat (log_epoch ln) + 1))%Z.

(** The best validation loss and its step index after one more line. *)
Definition improve (best : float * Z) (ln : log_line) : float * Z :=
  if ltb (log_val_loss ln) (fst best) then (log_val_loss ln, step_index ln) else best.

(** The best validation loss seen in a log and the step index of the line
    that set it; [inf] and 0 before any improvement. *)
Definition best_so_far (L : list log_line) : float * Z :=
  fold_left improve L (inf, 0%Z).

Lemma best_so_far_snoc (L : list log_line) (ln : log_line) :
  best_so_far (L ++ [ln]) = improve (best_so_far L) ln.
Proof. unfold best_so_far. rewrite fold_left_app. reflexivity. Qed.

(** The losses of a list of batches under the parameters [n], in order;
    the first loss call that raises ends the pass. *)
Fixpoint losses (a : Args) (lf : loss_module) (n : Net weights)
  (batches : list (list (row * target))) : result (list float) :=
  match batches with
  | [] => Ok []
  | b :: rest =>
      l <- batch_loss a lf b n ;;
      ls <- losses a lf n rest ;;
      Ok (l :: ls)
  end.

Lemma val_pass_spec (a : Args) (lf : loss_module) (n : Net weights) :
  forall batches acc k,
    val_pass a lf n batches acc k =
      (ls <- losses a lf n batches ;; Ok (fold_left add ls acc, k + length ls)).
Proof.
  induction batches as [|b bs IH]; intros acc k; simpl.
  - f_equal. f_equal. lia.
  - destruct (batch_loss a lf b n) as [l|e]; simpl; [|reflexivity].
    rewrite IH. destruct (losses a lf n bs) as [ls|e]; simpl; [|reflexivity].
    f_equal. f_equal. lia.
Qed.

Lemma losses_each (a : Args) (lf : loss_module) (n : Net weights) :
  forall batches ls,
    losses a lf n batches = Ok ls ->
    Forall2 (fun b l => batch_loss a lf b n = Ok l) batches ls.
Proof.
  induction batches as [|b bs IH]; intros ls H; simpl in H.
  - injection H as <-. constructor.
  - destruct (batch_loss a lf b n) as [l|e] eqn:Hl; simpl in H; [|discriminate].
    destruct (losses a lf n bs) as [ls'|e] eqn:Hls; simpl in H; [|discriminate].
    injection H as <-. constructor; [exact Hl|]. apply IH. reflexivity.
Qed.

Lemma losses_of_each (a : Args) (lf : loss_module) (n : Net weights) :
  forall batches ls,
    Forall2 (fun b l => batch_loss a lf b n = Ok l) batches ls ->
    losses a lf n batches = Ok ls.
Proof.
  induction 1 as [|b l bs ls Hl _ IH]; simpl; [reflexivity|].
  rewrite Hl, IH. reflexivity.
Qed.

Lemma losses_length (a : Args) (lf : loss_module) (n : Net weights)
  (batches : list (list (row * target))) (ls : list float) :
  losses a lf n batches = Ok ls -> length ls = length batches.
Proof.
  intros H. apply losses_each in H. symmetry. eapply Forall2_length. exact H.
Qed.

Variable self : MLP.
Variable loss_func : loss_module.
Variable val_loader : DataLoader (row * target).

(** The parameters after the optimizer step of an iteration. *)
Definition stepped (batch : list (row * target)) (st : fit_state) : Net weights :=
  fst (optimizer_step (optimizer st) (batch_loss (args self) loss_func batch) (self_net st)).

(** The validation batches an iteration draws. *)
Definition val_batches_of (st : fit_state) : list (list (row * target)) :=
  fst (loader_iter val_loader (gen (world st))).

(** The loop variables once the optimizer has stepped and the validation
    batches are drawn. *)
Definition after_step (batch : list (row * target)) (st : fit_state) : fit_state :=
  {| self_net := stepped batch st;
     optimizer := snd (optimizer_step (optimizer st)
                         (batch_loss (args self) loss_func batch) (self_net st));
     min_val_loss := min_val_loss st;
     min_val_loss_idx := min_val_loss_idx st;
     world := set_gen (snd (loader_iter val_loader (gen (world st)))) (world st) |}.

(** The line an iteration prints, from the loss of its training batch and
    the losses of the validation batches. *)
Definition line_of (epoch i : nat) (loss : float) (ls : list float) : log_line :=
  {| log_epoch := epoch; log_step := i; log_loss := loss; log_val_loss := mean ls |}.

(** The world after an iteration that printed [ln]. *)
Definition world_after (ln : log_line) (batch : list (row * target)) (st : fit_state)
  : World :=
  let w := print ln (world (after_step batch st)) in
  if ltb (log_val_loss ln) (min_val_loss st)
  then save_model get_output_path (set_net (stepped batch st) self) "best" "tmp" w
  else w.

Definition state_after (ln : log_line) (batch : list (row * target)) (st : fit_state)
  : fit_state :=
  {| self_net := stepped batch st;
     optimizer := snd (optimizer_step (optimizer st)
                         (batch_loss (args self) loss_func batch) (self_net st));
     min_val_loss := fst (improve (min_val_loss st, min_val_loss_idx st) ln);
     min_val_loss_idx := snd (improve (min_val_loss st, min_val_loss_idx st) ln);
     world := world_after ln batch st |}.

(** The four ways through the body: the loss call on the training batch
    raises; a loss call on a validation batch raises; there is no
    validation batch; the iteration prints its line. *)
Lemma fit_body_cases (epoch i : nat) (batch : list (row * target)) (st : fit_state) :
  fit_body get_output_path self loss_func val_loader epoch i batch st =
    match batch_loss (args self) loss_func batch (self_net st) with
    | Raise e => (Raised e, st)
    | Ok loss =>
        match losses (args self) loss_func (stepped batch st) (val_batches_of st) with
        | Raise e => (Raised e, after_step batch st)
        | Ok [] => (Raised ZeroDivisionError, after_step batch st)
        | Ok ((_ :: _) as ls) =>
            let ln := line_of epoch i loss ls in
            (if (min_val_loss_idx (state_after ln batch st)
                 + early_stopping_rounds (args self) <? current_idx_of epoch i)%Z
             then Return else Next,
             state_after ln batch st)
        end
    end.
Proof.
  unfold fit_body, state_after, world_after, after_step, line_of, val_batches_of,
    stepped, improve, mean.
  destruct (batch_loss (args self) loss_func batch (self_net st)) as [loss|e];
    [|reflexivity].
  destruct (optimizer_step (optimizer st) (batch_loss (args self) loss_func batch)
              (self_net st)) as [n' o'].
  destruct (loader_iter val_loader (gen (world st))) as [vb g']. cbn [fst snd].
  rewrite val_pass_spec.
  destruct (losses (args self) loss_func n' vb) as [ls|e]; [|reflexivity].
  cbn [bind Nat.add].
  destruct ls as [|l ls]; [reflexivity|].
  cbn [length Nat.eqb log_val_loss fst snd].
  unfold step_index, current_idx_of. cbn [log_epoch log_step].
  destruct (ltb _ (min_val_loss st)); cbn [min_val_loss_idx fst snd];
    match goal with |- context [Z.ltb ?a ?b] => destruct (Z.ltb a b) end;
    reflexivity.
Qed.

(** What an iteration that raised and one that printed leave behind. *)
Lemma fit_body_outcome (epoch i : nat) (batch : list (row * target))
  (st st' : fit_state) (c : control) :
  fit_body get_output_path self loss_func val_loader epoch i batch st = (c, st') ->
  (exists e, c = Raised e
     /\ ((batch_loss (args self) loss_func batch (self_net st) = Raise e /\ st' = st)
         \/ (exists loss, batch_loss (args self) loss_func batch (self_net st) = Ok loss
               /\ st' = after_step batch st
               /\ (losses (args self) loss_func (stepped batch st) (val_batches_of st)
                     = Raise e
                   \/ (val_batches_of st = [] /\ e = ZeroDivisionError)))))
  \/ (exists loss ls,
        batch_loss (args self) loss_func batch (self_net st) = Ok loss
        /\ losses (args self) loss_func (stepped batch st) (val_batches_of st) = Ok ls
        /\ ls <> []
        /\ st' = state_after (line_of epoch i loss ls) batch st
        /\ c = if (min_val_loss_idx st' + early_stopping_rounds (args self)
                   <? current_idx_of epoch i)%Z
               then Return else Next).
Proof.
  rewrite fit_body_cases.
  destruct (batch_loss (args self) loss_func batch (self_net st)) as [loss|e] eqn:Hl.
  - destruct (losses (args self) loss_func (stepped batch st) (val_batches_of st))
      as [[|l ls]|e] eqn:Hls.
    + intros [= <- <-]. left. exists ZeroDivisionError. split; [reflexivity|].
      right. exists loss. split; [reflexivity|]. split; [reflexivity|]. right.
      split; [|reflexivity].
      apply losses_length in Hls. destruct (val_batches_of st); [reflexivity|discriminate].
    + cbv zeta. intros [= <- <-]. right. exists loss, (l :: ls).
      split; [reflexivity|]. split; [reflexivity|]. split; [discriminate|].
      split; reflexivity.
    + intros [= <- <-]. left. exists e. split; [reflexivity|].
      right. exists loss. split; [reflexivity|]. split; [reflexivity|]. left. reflexivity.
  - intros [= <- <-]. left. exists e. split; [reflexivity|]. left. split; reflexivity.
Qed.

(** An iteration that raises prints nothing, writes no file and leaves the
    recorded best as it was. *)
Definition same_books (st st' : fit_state) : Prop :=
  stdout (world st') = stdout (world st)
  /\ files (world st') = files (world st)
  /\ min_val_loss st' = min_val_loss st
  /\ min_val_loss_idx st' = min_val_loss_idx st.

Lemma fit_body_raised (epoch i : nat) (batch : list (row * target))
  (st st' : fit_state) (e : exn) :
  fit_body get_output_path self loss_func val_loader epoch i batch st = (Raised e, st') ->
  same_books st st'
  /\ (self_net st' = self_net st \/ self_net st' = stepped batch st).
Proof.
  intros H. apply fit_body_outcome in H.
  destruct H as [[e' [_ [[_ ->]|[loss [_ [-> _]]]]]]|[loss [ls [_ [_ [_ [_ Hc]]]]]]].
  - repeat split. left. reflexivity.
  - repeat split. right. reflexivity.
  - destruct (_ <? _)%Z; discriminate.
Qed.

(** An iteration that does not raise printed its line. *)
Lemma fit_body_printed (epoch i : nat) (batch : list (row * target))
  (st st' : fit_state) (c : control) :
  fit_body get_output_path self loss_func val_loader epoch i batch st = (c, st') ->
  (forall e, c <> Raised e) ->
  exists loss ls,
    batch_loss (args self) loss_func batch (self_net st) = Ok loss
    /\ losses (args self) loss_func (stepped batch st) (val_batches_of st) = Ok ls
    /\ ls <> []
    /\ st' = state_after (line_of epoch i loss ls) batch st
    /\ c = if (min_val_loss_idx st' + early_stopping_rounds (args self)
               <? current_idx_of epoch i)%Z
           then Return else Next.
Proof.
  intros H Hc. apply fit_body_outcome in H.
  destruct H as [[e [-> _]]|H]; [destruct (Hc e eq_refl)|exact H].
Qed.

End FitFacts.

(** *** fit: the lines printed by a run *)

Section FitRuns.
Context {T : TensorOps} {R : Torch T}.
Variable get_output_path : Args -> string -> string -> string -> string -> string.
Variable self : MLP.
Variable loss_func : loss_module.
Variable train_loader val_loader : DataLoader (row * target).

(** The standard output before the call. *)
Variable log0 : list log_line.

(** [L] are the lines printed so far by this call, and the two bookkeeping
    variables are what these lines determine. *)
Definition tracked (st : fit_state) (L : list log_line) : Prop :=
  stdout (world st) = log0 ++ L
  /\ (min_val_loss st, min_val_loss_idx st) = best_so_far L.

(** The test of line 125 at the [k]-th printed line: the step index of the
    line exceeds the step index of the best loss so far plus the patience. *)
Definition stops_at (patience : Z) (L : list log_line) (k : nat) : bool :=
  match nth_error L k with
  | Some ln => (snd (best_so_far (firstn (S k) L)) + patience <? step_index ln)%Z
  | None => false
  end.

Definition quiet (patience : Z) (L : list log_line) (n : nat) : Prop :=
  forall k, k < n -> stops_at patience L k = false.

Definition key (ln : log_line) : nat * nat := (log_epoch ln, log_step ln).

(** What the way a run ended says about its lines. *)
Definition settled (patience : Z) (c : control) (L : list log_line) : Prop :=
  match c with
  | Return =>
      L <> [] /\ quiet patience L (length L - 1)
      /\ stops_at patience L (length L - 1) = true
  | _ => quiet patience L (length L)
  end.

Lemma stops_at_app (patience : Z) (L M : list log_line) (k : nat) :
  k < length L -> stops_at patience (L ++ M) k = stops_at patience L k.
Proof.
  intros Hk. unfold stops_at. rewrite nth_error_app1 by assumption.
  rewrite firstn_app. replace (S k - length L) with 0 by lia.
  rewrite firstn_O, app_nil_r. reflexivity.
Qed.

Lemma stops_at_last (patience : Z) (L : list log_line) (ln : log_line) :
  stops_at patience (L ++ [ln]) (length L)
  = (snd (best_so_far (L ++ [ln])) + patience <? step_index ln)%Z.
Proof.
  unfold stops_at. rewrite nth_error_app2, Nat.sub_diag by lia. cbn [nth_error].
  rewrite firstn_all2 by (rewrite length_app; simpl; lia). reflexivity.
Qed.

Lemma quiet_app (patience : Z) (L M : list log_line) (n : nat) :
  n <= length L -> quiet patience L n -> quiet patience (L ++ M) n.
Proof.
  intros Hn H k Hk. rewrite stops_at_app by lia. apply H. assumption.
Qed.

Lemma quiet_snoc (patience : Z) (L : list log_line) (ln : log_line) :
  quiet patience L (length L) ->
  stops_at patience (L ++ [ln]) (length L) = false ->
  quiet patience (L ++ [ln]) (length (L ++ [ln])).
Proof.
  intros H Hl k Hk. rewrite length_app in Hk. simpl in Hk.
  destruct (Nat.eq_dec k (length L)) as [->|Hne]; [assumption|].
  rewrite stops_at_app by lia. apply H. lia.
Qed.

Lemma stdout_world_after (ln : log_line) (batch : list (row * target)) (st : fit_state) :
  stdout (world_after get_output_path self loss_func val_loader ln batch st)
  = stdout (world st) ++ [ln].
Proof.
  unfold world_after. destruct (ltb _ _); reflexivity.
Qed.

Lemma state_after_tracked (ln : log_line) (batch : list (row * target))
  (st : fit_state) (L : list log_line) :
  tracked st L ->
  tracked (state_after get_output_path self loss_func val_loader ln batch st) (L ++ [ln]).
Proof.
  intros [Hout Hbest]. split.
  - cbn [state_after world]. rewrite stdout_world_after, Hout, app_assoc. reflexivity.
  - rewrite best_so_far_snoc, <- Hbest. cbn [state_after min_val_loss min_val_loss_idx].
    symmetry. apply surjective_pairing.
Qed.

Lemma same_books_tracked (st st' : fit_state) (L : list log_line) :
  same_books st st' -> tracked st L -> tracked st' L.
Proof.
  intros [Ho [_ [Hm Hi]]] [Hout Hbest]. split; [rewrite Ho; exact Hout|].
  rewrite Hm, Hi. exact Hbest.
Qed.

Lemma fit_body_trace (epoch i : nat) (batch : list (row * target))
  (st st' : fit_state) (L : list log_line) (c : control) :
  tracked st L ->
  fit_body get_output_path self loss_func val_loader epoch i batch st = (c, st') ->
  ((exists e, c = Raised e) /\ tracked st' L)
  \/ (exists ln, key ln = (epoch, i) /\ tracked st' (L ++ [ln])
        /\ c = if stops_at (early_stopping_rounds (args self)) (L ++ [ln]) (length L) then Return else Next).
Proof.
  intros Htr Hbody.
  pose proof Hbody as Hcase. apply fit_body_outcome in Hcase.
  destruct Hcase as [[e [-> _]]|[loss [ls [_ [_ [_ [-> Hc]]]]]]].
  - left. split; [exists e; reflexivity|].
    apply fit_body_raised in Hbody. destruct Hbody as [Hsame _].
    eapply same_books_tracked; eassumption.
  - right. exists (line_of epoch i loss ls).
    pose proof (state_after_tracked (line_of epoch i loss ls) batch Htr) as Htr'.
    split; [reflexivity|]. split; [exact Htr'|].
    rewrite stops_at_last. destruct Htr' as [_ Hb]. rewrite <- Hb. exact Hc.
Qed.

Lemma fit_batches_trace :
  forall (batches : list (list (row * target))) (epoch i : nat)
         (st st' : fit_state) (L : list log_line) (c : control),
    tracked st L -> quiet (early_stopping_rounds (args self)) L (length L) ->
    fit_batches get_output_path self loss_func val_loader epoch i batches st = (c, st') ->
    exists new,
      tracked st' (L ++ new) /\ settled (early_stopping_rounds (args self)) c (L ++ new)
      /\ exists m, m <= length batches
           /\ map key new = map (fun j => (epoch, i + j)) (seq 0 m)
           /\ (c = Next -> m = length batches).
Proof.
  induction batches as [|b bs IH]; intros epoch i st st' L c Htr Hq Hrun.
  - simpl in Hrun. injection Hrun as <- <-. exists []. rewrite app_nil_r.
    split; [assumption|]. split; [assumption|]. exists 0. simpl. auto.
  - simpl in Hrun.
    destruct (fit_body get_output_path self loss_func val_loader epoch i b st)
      as [c1 st1] eqn:Hbody.
    destruct (fit_body_trace _ _ _ Htr Hbody) as [[[e Hc] Htr1]|[ln [Hkey [Htr1 Hc]]]].
    + subst c1. injection Hrun as <- <-. exists []. rewrite app_nil_r.
      split; [assumption|]. split; [assumption|]. exists 0. simpl.
      repeat split; [lia|discriminate].
    + destruct (stops_at (early_stopping_rounds (args self)) (L ++ [ln]) (length L)) eqn:Hstop; subst c1.
      * injection Hrun as <- <-. exists [ln]. split; [assumption|]. split.
        -- simpl. rewrite length_app. simpl.
           replace (length L + 1 - 1) with (length L) by lia.
           split; [destruct L; discriminate|]. split; [|assumption].
           apply quiet_app; auto.
        -- exists 1. simpl. rewrite Hkey, Nat.add_0_r.
           repeat split; [lia|discriminate].
      * pose proof (quiet_snoc ln Hq Hstop) as Hq1.
        destruct (IH epoch (S i) st1 st' (L ++ [ln]) c Htr1 Hq1 Hrun)
          as [new [Htr' [Hset [m [Hm [Hkeys Hnext]]]]]].
        exists (ln :: new). rewrite <- app_assoc in Htr', Hset. simpl in Htr', Hset.
        split; [assumption|]. split; [assumption|].
        exists (S m). split; [simpl; lia|]. split.
        -- simpl. rewrite Hkey, Nat.add_0_r, Hkeys, <- seq_shift, map_map.
           f_equal. apply map_ext. intros j. f_equal. lia.
        -- intros Hn. simpl. f_equal. auto.
Qed.

(** The number of batches a loader yields in one pass. *)
Definition num_batches (bs n : nat) : nat :=
  length (chunks bs (seq 0 n)).

(** The (epoch, step) pairs of [n] full epochs of [nb] batches, from
    epoch [e] on. *)
Definition schedule (e n nb : nat) : list (nat * nat) :=
  flat_map (fun e' => map (fun j => (e', j)) (seq 0 nb)) (seq e n).

Lemma length_loader_iter {A} (dl : DataLoader A) (g : rng) :
  length (fst (loader_iter dl g)) = num_batches (loader_batch_size dl) (length (dataset dl)).
Proof.
  unfold loader_iter, num_batches.
  pose proof (randperm_perm (length (dataset dl)) g) as Hperm.
  destruct (randperm (length (dataset dl)) g) as [pm g']. simpl in *.
  rewrite length_map. apply length_chunks. apply Permutation_length. exact Hperm.
Qed.

Lemma fit_epochs_trace :
  forall (n epoch : nat) (st st' : fit_state) (L : list log_line) (c : control),
    tracked st L -> quiet (early_stopping_rounds (args self)) L (length L) ->
    fit_epochs get_output_path self loss_func train_loader val_loader epoch n st = (c, st') ->
    exists new,
      tracked st' (L ++ new)
      /\ settled (early_stopping_rounds (args self)) c (L ++ new)
      /\ exists rest,
           schedule epoch n (num_batches (loader_batch_size train_loader)
                                         (length (dataset train_loader)))
             = map key new ++ rest
           /\ (c = Next -> rest = []).
Proof.
  induction n as [|n IH]; intros epoch st st' L c Htr Hq Hrun.
  - simpl in Hrun. injection Hrun as <- <-. exists []. rewrite app_nil_r.
    split; [assumption|]. split; [assumption|]. exists []. split; reflexivity.
  - simpl in Hrun.
    pose proof (length_loader_iter train_loader (gen (world st))) as Hnb.
    destruct (loader_iter train_loader (gen (world st))) as [batches g']. simpl in Hnb.
    match type of Hrun with
    | context [fit_batches _ _ _ _ _ _ _ ?s] => set (st0 := s) in *
    end.
    assert (Htr0 : tracked st0 L) by (destruct Htr; split; assumption).
    destruct (fit_batches get_output_path self loss_func val_loader epoch 0 batches st0)
      as [c1 st1] eqn:Hb.
    destruct (fit_batches_trace _ _ _ Htr0 Hq Hb)
      as [new1 [Htr1 [Hset1 [m [Hm [Hkeys Hnext]]]]]].
    rewrite Hnb in Hm, Hnext.
    set (nb := num_batches (loader_batch_size train_loader)
                           (length (dataset train_loader))) in *.
    assert (Hsched : schedule epoch (S n) nb
                     = map key new1 ++ map (fun j => (epoch, j)) (seq m (nb - m))
                       ++ schedule (S epoch) n nb).
    { unfold schedule. cbn [seq flat_map]. rewrite app_assoc. f_equal.
      rewrite Hkeys, <- map_app.
      replace (seq m (nb - m)) with (seq (0 + m) (nb - m)) by reflexivity.
      rewrite <- seq_app. replace (m + (nb - m)) with nb by lia. reflexivity. }
    destruct c1.
    + specialize (Hnext eq_refl). subst m.
      destruct (IH (S epoch) st1 st' (L ++ new1) c Htr1 Hset1 Hrun)
        as [new2 [Htr2 [Hset2 [rest [Hs2 Hn2]]]]].
      exists (new1 ++ new2). rewrite app_assoc.
      split; [assumption|]. split; [assumption|].
      exists rest. split; [|assumption].
      rewrite Hsched, Nat.sub_diag, Hs2, map_app. simpl. rewrite app_assoc. reflexivity.
    + injection Hrun as <- <-. exists new1.
      split; [assumption|]. split; [assumption|].
      eexists. split; [exact Hsched|discriminate].
    + injection Hrun as <- <-. exists new1.
      split; [assumption|]. split; [assumption|].
      eexists. split; [exact Hsched|discriminate].
Qed.

End FitRuns.

(** *** fit: the whole call *)

Section FitCall.
Context {T : TensorOps} {R : Torch T}.
Variable get_output_path : Args -> string -> string -> string -> string -> string.

(** Either the set-up raises before anything is changed, or the call is the
    loop over the epochs on loaders holding all rows of the two data sets. *)
Lemma fit_cases (self : MLP) (X : tensor) (y : list target)
  (X_val : tensor) (y_val : list target) (w : World) :
  let r := fit get_output_path self X y X_val y_val w in
  (exists e, fit_control r = Raised e /\ fit_final r = fit_start self w
             /\ (e = AssertionError \/ e = ValueError))
  \/ (exists train_loader val_loader,
        length (dataset train_loader) = length X
        /\ length (dataset val_loader) = length X_val
        /\ loader_batch_size train_loader = Z.to_nat (batch_size (params self))
        /\ loader_batch_size val_loader = Z.to_nat (batch_size (params self))
        /\ (1 <= batch_size (params self))%Z
        /\ dataset train_loader =
             combine (to_float X) (snd (fst (select_loss (args self) y y_val)))
        /\ dataset val_loader =
             combine (to_float X_val) (snd (select_loss (args self) y y_val))
        /\ (X <> [] /\ X_val <> [])
        /\ fit_epochs get_output_path self
             (fst (fst (select_loss (args self) y y_val)))
             train_loader val_loader 0 (Z.to_nat (epochs (args self)))
             (fit_start self w)
           = (fit_control r, fit_final r)).
Proof.
  unfold fit.
  destruct (select_loss (args self) y y_val) as [[lf y'] y_val'] eqn:Hsel.
  assert (Hy : length y' = length y /\ length y_val' = length y_val).
  { unfold select_loss in Hsel.
    destruct (String.eqb (objective (args self)) "regression");
      [|destruct (String.eqb (objective (args self)) "classification")];
      injection Hsel as <- <- <-; rewrite ?length_map; auto. }
  destruct Hy as [Hy Hyv].
  unfold TensorDataset.
  destruct (Nat.eqb_spec (length (to_float X)) (length y')) as [E1|_];
    [|left; exists AssertionError; repeat split; auto].
  destruct (new_loader (combine (to_float X) y') (batch_size (params self)))
    as [tl|e] eqn:Htl;
    [|left; apply new_loader_raises in Htl; destruct Htl as [-> _];
      exists ValueError; repeat split; auto].
  destruct (Nat.eqb_spec (length (to_float X_val)) (length y_val')) as [E2|_];
    [|left; exists AssertionError; repeat split; auto].
  destruct (new_loader (combine (to_float X_val) y_val') (batch_size (params self)))
    as [vl|e] eqn:Hvl;
    [|left; apply new_loader_raises in Hvl; destruct Hvl as [-> _];
      exists ValueError; repeat split; auto].
  apply new_loader_ok in Htl, Hvl.
  destruct Htl as [Hne1 [Hbs ->]]. destruct Hvl as [Hne2 [_ ->]].
  right. cbn [fst snd].
  match goal with
  | |- context [fit_epochs _ _ _ ?tl ?vl _ _ _] => exists tl, vl
  end.
  cbn [dataset loader_batch_size].
  unfold to_float in *. rewrite length_map in E1, E2.
  rewrite !length_combine, !length_map, <- E1, <- E2, !Nat.min_id.
  repeat split; try lia; try reflexivity.
  - intros ->. apply Hne1. reflexivity.
  - intros ->. apply Hne2. reflexivity.
  - destruct (fit_epochs _ _ _ _ _ _ _ _). reflexivity.
Qed.

(** The lines a call prints, what they say about the bookkeeping, about
    the way the call ended and about the schedule. *)
Lemma fit_trace (self : MLP) (X : tensor) (y : list target)
  (X_val : tensor) (y_val : list target) (w : World) :
  let r := fit get_output_path self X y X_val y_val w in
  exists L,
    stdout (world (fit_final r)) = stdout w ++ L
    /\ (min_val_loss (fit_final r), min_val_loss_idx (fit_final r)) = best_so_far L
    /\ settled (early_stopping_rounds (args self)) (fit_control r) L
    /\ exists rest,
         schedule 0 (Z.to_nat (epochs (args self)))
           (num_batches (Z.to_nat (batch_size (params self))) (length X))
         = map key L ++ rest
         /\ (fit_control r = Next -> rest = []).
Proof.
  intros r.
  assert (Hstart : tracked (stdout w) (fit_start self w) []).
  { split; [cbn; rewrite app_nil_r; reflexivity|reflexivity]. }
  assert (Hq0 : quiet (early_stopping_rounds (args self)) [] (length (@nil log_line)))
    by (intros k Hk; simpl in Hk; lia).
  destruct (fit_cases self X y X_val y_val w)
    as [[e [Hc [Hf _]]]|[tl [vl [Hl1 [Hl2 [Hb1 [Hb2 [Hbs [_ [_ [_ Hrun]]]]]]]]]]];
    fold r in Hc || fold r in Hrun.
  - fold r in Hf. exists []. rewrite Hf, Hc.
    split; [apply Hstart|]. split; [apply Hstart|]. split; [exact Hq0|].
    eexists. split; [reflexivity|discriminate].
  - destruct (fit_epochs_trace get_output_path self _ tl vl (log0 := stdout w) _ _
                Hstart Hq0 Hrun)
      as [L [[Hout Hbest] [Hset [rest [Hsched Hnext]]]]].
    simpl in Hout, Hbest, Hset. exists L.
    rewrite Hb1, Hl1 in Hsched.
    split; [exact Hout|]. split; [exact Hbest|]. split; [exact Hset|].
    exists rest. split; assumption.
Qed.

End FitCall.

(** C1: the step index of an iteration is [(i + 1) * (epoch + 1)], which
    can decrease from one epoch to the next; the lines printed by [fit]
    follow the schedule of epochs and batches, no line but the last one
    passes the test [best index + patience < step index], and [fit]
    executes its [return] exactly when the last printed line passes it;
    a call that neither returns early nor raises prints the whole
    schedule. *)
Theorem fit_stops_on_patience :
  forall (T : TensorOps) (R : Torch T)
         (get_output_path : Args -> string -> string -> string -> string -> string)
         (self : MLP) (X : tensor) (y : list target)
         (X_val : tensor) (y_val : list target) (w : World),
    let r := fit get_output_path self X y X_val y_val w in
    let patience := early_stopping_rounds (args self) in
    (forall epoch i, current_idx_of epoch i = ((Z.of_nat i + 1) * (Z.of_nat epoch + 1))%Z)
    /\ (current_idx_of 1 0 < current_idx_of 0 2)%Z
    /\ exists L,
         stdout (world (fit_final r)) = stdout w ++ L
         /\ (min_val_loss (fit_final r), min_val_loss_idx (fit_final r)) = best_so_far L
         /\ (forall k ln, nth_error L k = Some ln ->
               stops_at patience L k =
                 (snd (best_so_far (firstn (S k) L)) + patience
                  <? current_idx_of (log_epoch ln) (log_step ln))%Z)
         /\ (forall k, k + 1 < length L -> stops_at patience L k = false)
         /\ (fit_control r = Return <->
             L <> [] /\ stops_at patience L (length L - 1) = true)
         /\ (exists rest,
               schedule 0 (Z.to_nat (epochs (args self)))
                 (num_batches (Z.to_nat (batch_size (params self))) (length X))
               = map key L ++ rest
               /\ (fit_control r = Next -> rest = [])).
Proof.
  intros T R gop self X y X_val y_val w r patience.
  split; [reflexivity|]. split; [reflexivity|].
  assert (Hstart : tracked (stdout w) (fit_start self w) []).
  { split; [cbn; rewrite app_nil_r; reflexivity|reflexivity]. }
  assert (Hq0 : quiet patience [] (length (@nil log_line))) by (intros k Hk; simpl in Hk; lia).
  assert (Hform : forall (L : list log_line) k ln, nth_error L k = Some ln ->
            stops_at patience L k =
              (snd (best_so_far (firstn (S k) L)) + patience
               <? current_idx_of (log_epoch ln) (log_step ln))%Z).
  { intros L k ln Hk. unfold stops_at. rewrite Hk. reflexivity. }
  destruct (fit_cases gop self X y X_val y_val w)
    as [[e [Hc [Hf _]]]|[tl [vl [Hl1 [Hl2 [Hb1 [Hb2 [Hbs [_ [_ [_ Hrun]]]]]]]]]]];
    fold r in Hc || fold r in Hrun.
  - fold r in Hf. exists []. rewrite Hf, Hc.
    split; [apply Hstart|]. split; [apply Hstart|]. split; [apply Hform|].
    split; [intros k Hk; simpl in Hk; lia|]. split.
    + split; [discriminate|]. intros [H _]. congruence.
    + eexists. split; [reflexivity|discriminate].
  - destruct (fit_epochs_trace gop self _ tl vl (log0 := stdout w) _ _ Hstart Hq0 Hrun)
      as [L [[Hout Hbest] [Hset [rest [Hsched Hnext]]]]].
    simpl in Hout, Hbest, Hset. exists L.
    split; [exact Hout|]. split; [exact Hbest|]. split; [apply Hform|].
    rewrite Hb1, Hl1 in Hsched.
    fold patience in Hset.
    split; [|split].
    + intros k Hk. destruct (fit_control r); simpl in Hset.
      * apply Hset. lia.
      * destruct Hset as [_ [Hq _]]. apply Hq. lia.
      * apply Hset. lia.
    + split.
      * intros Hc. rewrite Hc in Hset. destruct Hset as [Hne [_ Hs]]. auto.
      * intros [Hne Hs]. destruct (fit_control r); simpl in Hset; [|reflexivity|].
        -- rewrite Hset in Hs; [discriminate|]. destruct L; [congruence|simpl; lia].
        -- rewrite Hset in Hs; [discriminate|]. destruct L; [congruence|simpl; lia].
    + exists rest. split; assumption.
Qed.

(** Validation loss 5 after the first optimizer step, 7 after the second
    and 9 from then on. *)
Definition example_table (t : nat) : float :=
  of_nat (match t with 1 => 5 | 2 => 7 | _ => 9 end).

Definition example_fit (table : nat -> float) (obj : string) (bs : Z)
  (X : list (list nat)) (y : list nat) (X_val : list (list nat)) (y_val : list nat)
  : @fit_result counter_ops (table_torch table) :=
  @fit counter_ops (table_torch table) example_output_path
    (example_self table obj bs) X y X_val y_val (example_world table []).

(** Three batches per epoch, two epochs, patience 1: the best loss is at
    step index 1, and the third batch of the first epoch, at step index 3,
    makes [fit] return. *)
Lemma fit_stops_on_patience_witness :
  fit_control (example_fit example_table "regression" 1
                 [[10]; [20]; [30]] [1; 2; 3] [[40]] [4]) = Return.
Proof.
  destruct (fit_stops_on_patience (R := table_torch example_table) example_output_path
              (example_self example_table "regression" 1)
              [[10]; [20]; [30]] [1; 2; 3] [[40]] [4]
              (example_world example_table []))
    as [_ [_ [L [Hout [_ [_ [_ [Hret _]]]]]]]].
  apply Hret. change (stdout (example_world example_table []) ++ L) with L in Hout.
  rewrite <- Hout. vm_compute. split; [discriminate|reflexivity].
Defined.

(** *** fit: what holds throughout the loop *)

Section FitInvariants.
Context {T : TensorOps} {R : Torch T}.
Variable get_output_path : Args -> string -> string -> string -> string -> string.

(** The recorded pair is the strict running minimum of the printed
    validation losses and the step index of the line that set it. *)
Lemma best_so_far_min (L : list log_line) :
  is_nan (fst (best_so_far L)) = false
  /\ (forall ln, In ln L -> ltb (log_val_loss ln) (fst (best_so_far L)) = false)
  /\ (best_so_far L = (inf, 0%Z)
      \/ exists ln, In ln L /\ best_so_far L = (log_val_loss ln, step_index ln)).
Proof.
  induction L as [|ln L IH] using rev_ind.
  - split; [reflexivity|]. split; [intros ln []|left; reflexivity].
  - destruct IH as [Hnan [Hmin Hwho]]. rewrite best_so_far_snoc. unfold improve.
    destruct (ltb (log_val_loss ln) (fst (best_so_far L))) eqn:Hlt; cbn [fst].
    + split; [|split].
      * destruct (log_val_loss ln); try reflexivity. discriminate.
      * intros ln' Hin. apply in_app_or in Hin. destruct Hin as [Hin|[<-|[]]].
        -- destruct (ltb (log_val_loss ln') (log_val_loss ln)) eqn:E; [|reflexivity].
           rewrite <- (Hmin ln' Hin). symmetry.
           apply ltb_trans with (log_val_loss ln); assumption.
        -- apply ltb_irrefl.
      * right. exists ln. split; [apply in_or_app; right; left|]; reflexivity.
    + split; [assumption|]. split.
      * intros ln' Hin. apply in_app_or in Hin. destruct Hin as [Hin|[<-|[]]]; auto.
      * destruct Hwho as [H0|[ln' [Hin H']]]; [left; assumption|].
        right. exists ln'. split; [apply in_or_app; left|]; assumption.
Qed.

Lemma best_so_far_le (L : list log_line) (ln : log_line) :
  In ln L -> is_nan (log_val_loss ln) = false ->
  leb (fst (best_so_far L)) (log_val_loss ln) = true.
Proof.
  intros Hin Hnan. destruct (best_so_far_min L) as [Hm [Hmin _]].
  destruct (leb (fst (best_so_far L)) (log_val_loss ln)) eqn:E; [reflexivity|].
  rewrite <- (Hmin ln Hin). apply leb_total; assumption.
Qed.

Variable self : MLP.
Variable loss_func : loss_module.
Variable val_loader : DataLoader (row * target).

(** The state with a new generator state: what drawing the batches of an
    epoch does. *)
Definition redraw (g : rng) (st : fit_state) : fit_state :=
  {| self_net := self_net st; optimizer := optimizer st;
     min_val_loss := min_val_loss st;
     min_val_loss_idx := min_val_loss_idx st;
     world := set_gen g (world st) |}.

(** The states the loop can be in, from [s0] on: after any number of
    draws and iterations. *)
Inductive visits (s0 : fit_state) : fit_state -> Prop :=
| visits_start : visits s0 s0
| visits_draw st g : visits s0 st -> visits s0 (redraw g st)
| visits_body st epoch i batch c st' :
    visits s0 st ->
    fit_body get_output_path self loss_func val_loader epoch i batch st = (c, st') ->
    visits s0 st'.

Lemma fit_batches_visits (s0 : fit_state) :
  forall batches epoch i st c st',
    visits s0 st ->
    fit_batches get_output_path self loss_func val_loader epoch i batches st = (c, st') ->
    visits s0 st'.
Proof.
  induction batches as [|b bs IH]; intros epoch i st c st' Hv Hrun; simpl in Hrun.
  - injection Hrun as _ <-. assumption.
  - destruct (fit_body get_output_path self loss_func val_loader epoch i b st)
      as [c1 st1] eqn:Hb.
    pose proof (visits_body _ _ _ Hv Hb) as Hv1.
    destruct c1; [eapply IH; eassumption| |]; injection Hrun as _ <-; assumption.
Qed.

Lemma fit_epochs_visits (train_loader : DataLoader (row * target)) (s0 : fit_state) :
  forall n epoch st c st',
    visits s0 st ->
    fit_epochs get_output_path self loss_func train_loader val_loader epoch n st = (c, st') ->
    visits s0 st'.
Proof.
  induction n as [|n IH]; intros epoch st c st' Hv Hrun; simpl in Hrun.
  - injection Hrun as _ <-. assumption.
  - destruct (loader_iter train_loader (gen (world st))) as [batches g'].
    pose proof (visits_draw g' Hv) as Hv0. unfold redraw in Hv0.
    destruct (fit_batches get_output_path self loss_func val_loader epoch 0 batches _)
      as [c1 st1] eqn:Hb.
    pose proof (fit_batches_visits _ _ _ Hv0 Hb) as Hv1.
    destruct c1; [eapply IH; eassumption| |]; injection Hrun as _ <-; assumption.
Qed.

Lemma visits_tracked (log0 : list log_line) (s0 : fit_state) :
  forall st, visits s0 st ->
    forall L0, tracked log0 s0 L0 -> exists new, tracked log0 st (L0 ++ new).
Proof.
  induction 1 as [|st g Hv IH|st epoch i batch c st' Hv IH Hb]; intros L0 H0.
  - exists []. rewrite app_nil_r. assumption.
  - destruct (IH L0 H0) as [new Htr]. exists new. destruct Htr; split; assumption.
  - destruct (IH L0 H0) as [new Htr].
    destruct (fit_body_trace get_output_path self loss_func val_loader _ _ _ Htr Hb)
      as [[_ Htr']|[ln [_ [Htr' _]]]].
    + exists new. assumption.
    + exists (new ++ [ln]). rewrite app_assoc. assumption.
Qed.

(** Once the recorded minimum is below the initial [inf], the checkpoint
    file exists; it holds parameters of the shapes of the model's own, as
    are the parameters the loop works on. *)
Definition checkpoint_written (st : fit_state) : Prop :=
  state_shapes (self_net st) = state_shapes (net self)
  /\ (ltb (min_val_loss st) inf = true ->
      exists sd,
        read_file (checkpoint_path get_output_path self) (files (world st)) = Some sd
        /\ state_shapes sd = state_shapes (net self)).

Lemma read_write_file (path : string) (sd : Net weights) (fs : list (string * Net weights)) :
  read_file path (write_file path sd fs) = Some sd.
Proof. unfold write_file. simpl. rewrite String.eqb_refl. reflexivity. Qed.

Lemma files_world_after (ln : log_line) (batch : list (row * target)) (st : fit_state) :
  files (world_after get_output_path self loss_func val_loader ln batch st)
  = if ltb (log_val_loss ln) (min_val_loss st)
    then write_file (checkpoint_path get_output_path self)
           (stepped self loss_func batch st) (files (world st))
    else files (world st).
Proof.
  unfold world_after. destruct (ltb _ _); reflexivity.
Qed.

Lemma stepped_shapes (batch : list (row * target)) (st : fit_state) :
  state_shapes (stepped self loss_func batch st) = state_shapes (self_net st).
Proof. unfold stepped. apply optimizer_step_shapes. Qed.

Lemma fit_body_checkpoint (epoch i : nat) (batch : list (row * target))
  (st st' : fit_state) (c : control) :
  checkpoint_written st ->
  fit_body get_output_path self loss_func val_loader epoch i batch st = (c, st') ->
  checkpoint_written st'.
Proof.
  intros [Hsh Hck] Hbody. apply fit_body_outcome in Hbody.
  destruct Hbody as [[e [_ [[_ ->]|[loss [_ [-> _]]]]]]|[loss [ls [_ [_ [_ [-> _]]]]]]].
  - split; assumption.
  - split; [cbn [after_step self_net]; rewrite stepped_shapes; exact Hsh|exact Hck].
  - split; [cbn [state_after self_net]; rewrite stepped_shapes; exact Hsh|].
    cbn [state_after min_val_loss world]. rewrite files_world_after.
    unfold improve. cbn [fst].
    destruct (ltb (log_val_loss (line_of epoch i loss ls)) (min_val_loss st)); cbn [fst].
    + intros _. eexists. split; [apply read_write_file|].
      rewrite stepped_shapes. exact Hsh.
    + exact Hck.
Qed.

Lemma visits_checkpoint (s0 : fit_state) :
  checkpoint_written s0 -> forall st, visits s0 st -> checkpoint_written st.
Proof.
  intros H0. induction 1 as [|st g Hv IH|st epoch i batch c st' Hv IH Hb].
  - assumption.
  - exact IH.
  - eapply fit_body_checkpoint; eassumption.
Qed.

End FitInvariants.

Section FitValidation.
Context {T : TensorOps} {R : Torch T}.

(** The batches of one pass are the whole data set, in some order. *)
Lemma loader_iter_perm {A} (dl : DataLoader A) (g : rng) :
  1 <= loader_batch_size dl ->
  Permutation (concat (fst (loader_iter dl g))) (dataset dl).
Proof.
  intros Hbs. unfold loader_iter.
  pose proof (randperm_perm (length (dataset dl)) g) as Hperm.
  destruct (randperm (length (dataset dl)) g) as [pm g']. simpl in *.
  rewrite concat_map_gather, concat_chunks by assumption.
  apply gather_perm. exact Hperm.
Qed.

End FitValidation.

(** *** fit: the iterations of a call *)

Section FitIterations.
Context {T : TensorOps} {R : Torch T}.
Variable get_output_path : Args -> string -> string -> string -> string -> string.
Variable self : MLP.
Variable loss_func : loss_module.
Variable val_loader : DataLoader (row * target).

(** The world before the call. *)
Variable w : World.

Hypothesis val_batch_size : 1 <= loader_batch_size val_loader.

(** One completed iteration of the inner loop: its epoch and its step
    within the epoch, its training batch, the loop variables when the body
    starts and when it ends, and the line it printed. *)
Record iteration : Type := {
  it_epoch : nat;
  it_step : nat;
  it_batch : list (row * target);
  it_before : fit_state;
  it_line : log_line;
  it_after : fit_state
}.

Definition lines (I : list iteration) : list log_line := map it_line I.

(** What the loop variables are after the iterations [I]: the output and
    the recorded best are those of the lines printed, the parameters and
    the files those the last iteration left. *)
Definition flows (I : list iteration) (st : fit_state) : Prop :=
  stdout (world st) = stdout w ++ lines I
  /\ (min_val_loss st, min_val_loss_idx st) = best_so_far (lines I)
  /\ self_net st = last (map (fun p => self_net (it_after p)) I) (net self)
  /\ files (world st) = last (map (fun p => files (world (it_after p))) I) (files w).

(** The same without the parameters, which an iteration that raises may
    have stepped. *)
Definition left_behind (I : list iteration) (st : fit_state) : Prop :=
  stdout (world st) = stdout w ++ lines I
  /\ (min_val_loss st, min_val_loss_idx st) = best_so_far (lines I)
  /\ files (world st) = last (map (fun p => files (world (it_after p))) I) (files w).

(** What holds of an iteration that comes after the iterations [pre]. *)
Definition iteration_ok (pre : list iteration) (it : iteration) : Prop :=
  let a := args self in
  let st := it_before it in
  let st' := it_after it in
  let ln := it_line it in
  let vb := val_batches_of val_loader st in
  stdout (world st) = stdout w ++ lines pre
  /\ (min_val_loss st, min_val_loss_idx st) = best_so_far (lines pre)
  /\ self_net st = last (map (fun p => self_net (it_after p)) pre) (net self)
  /\ files (world st) = last (map (fun p => files (world (it_after p))) pre) (files w)
  /\ (exists c,
        fit_body get_output_path self loss_func val_loader
          (it_epoch it) (it_step it) (it_batch it) st = (c, st')
        /\ (c = Next \/ c = Return))
  /\ self_net st' = stepped self loss_func (it_batch it) st
  /\ Permutation (concat vb) (dataset val_loader)
  /\ (exists loss ls,
        batch_loss a loss_func (it_batch it) (self_net st) = Ok loss
        /\ Forall2 (fun b l => batch_loss a loss_func b (self_net st') = Ok l) vb ls
        /\ ls <> []
        /\ ln = {| log_epoch := it_epoch it; log_step := it_step it;
                   log_loss := loss; log_val_loss := mean ls |})
  /\ stdout (world st') = stdout (world st) ++ [ln]
  /\ (ltb (log_val_loss ln) (min_val_loss st) = true ->
      min_val_loss st' = log_val_loss ln
      /\ min_val_loss_idx st' = current_idx_of (it_epoch it) (it_step it)
      /\ files (world st')
         = write_file (checkpoint_path get_output_path self) (self_net st')
             (files (world st))
      /\ read_file (checkpoint_path get_output_path self) (files (world st'))
         = Some (self_net st'))
  /\ (ltb (log_val_loss ln) (min_val_loss st) = false ->
      min_val_loss st' = min_val_loss st
      /\ min_val_loss_idx st' = min_val_loss_idx st
      /\ files (world st') = files (world st))
  /\ (min_val_loss st', min_val_loss_idx st') = best_so_far (lines pre ++ [ln]).

Definition all_ok (I : list iteration) : Prop :=
  forall k it, nth_error I k = Some it -> iteration_ok (firstn k I) it.

Lemma all_ok_nil : all_ok [].
Proof. intros k it H. destruct k; discriminate. Qed.

Lemma all_ok_snoc (I : list iteration) (it : iteration) :
  all_ok I -> iteration_ok I it -> all_ok (I ++ [it]).
Proof.
  intros HI Hit k it' Hk.
  destruct (Nat.lt_ge_cases k (length I)) as [Hlt|Hge].
  - rewrite nth_error_app1 in Hk by assumption.
    rewrite firstn_app. replace (k - length I) with 0 by lia.
    rewrite firstn_O, app_nil_r. apply HI. exact Hk.
  - assert (Hl : k < length (I ++ [it])).
    { apply nth_error_Some. rewrite Hk. discriminate. }
    rewrite length_app in Hl. simpl in Hl.
    assert (Ek : k = length I) by lia. subst k.
    rewrite nth_error_app2, Nat.sub_diag in Hk by lia. injection Hk as <-.
    rewrite firstn_app, Nat.sub_diag, firstn_all, firstn_O, app_nil_r. exact Hit.
Qed.

Lemma flows_left_behind (I : list iteration) (st : fit_state) :
  flows I st -> left_behind I st.
Proof. intros [H1 [H2 [_ H4]]]. repeat split; assumption. Qed.

Lemma flows_start : flows [] (fit_start self w).
Proof.
  repeat split. cbn. rewrite app_nil_r. reflexivity.
Qed.

Lemma flows_redraw (I : list iteration) (st : fit_state) (g : rng) :
  flows I st -> flows I (redraw g st).
Proof. intros H. exact H. Qed.

Lemma left_behind_same_books (I : list iteration) (st st' : fit_state) :
  same_books st st' -> flows I st -> left_behind I st'.
Proof.
  intros [Ho [Hf [Hm Hi]]] [H1 [H2 [_ H4]]].
  split; [rewrite Ho; exact H1|]. split; [rewrite Hm, Hi; exact H2|].
  rewrite Hf. exact H4.
Qed.

(** An iteration that does not raise, run on the variables the iterations
    before it left. *)
Lemma body_iteration (I : list iteration) (epoch i : nat) (batch : list (row * target))
  (st st' : fit_state) (c : control) :
  flows I st ->
  fit_body get_output_path self loss_func val_loader epoch i batch st = (c, st') ->
  (forall e, c <> Raised e) ->
  exists it, iteration_ok I it /\ flows (I ++ [it]) st'.
Proof.
  intros Hfl Hbody Hc.
  destruct (fit_body_printed _ _ _ _ _ _ _ _ Hbody Hc)
    as [loss [ls [Hl [Hls [Hne [Hst' Hctl]]]]]].
  set (ln := line_of epoch i loss ls) in *.
  exists {| it_epoch := epoch; it_step := i; it_batch := batch;
            it_before := st; it_line := ln; it_after := st' |}.
  destruct Hfl as [F1 [F2 [F3 F4]]].
  assert (Hout : stdout (world st') = stdout (world st) ++ [ln]).
  { rewrite Hst'. cbn [state_after world]. apply stdout_world_after. }
  assert (Hbest : (min_val_loss st', min_val_loss_idx st') = best_so_far (lines I ++ [ln])).
  { rewrite Hst'. rewrite best_so_far_snoc, <- F2.
    cbn [state_after min_val_loss min_val_loss_idx]. symmetry. apply surjective_pairing. }
  split.
  - unfold iteration_ok. cbn [it_epoch it_step it_batch it_before it_line it_after].
    split; [exact F1|]. split; [exact F2|]. split; [exact F3|]. split; [exact F4|].
    split.
    { exists c. split; [exact Hbody|]. rewrite Hctl. destruct (_ <? _)%Z; auto. }
    split; [rewrite Hst'; reflexivity|].
    split; [apply loader_iter_perm; exact val_batch_size|].
    split.
    { exists loss, ls. split; [exact Hl|]. split.
      - rewrite Hst'. cbn [state_after self_net]. apply losses_each. exact Hls.
      - split; [exact Hne|reflexivity]. }
    split; [exact Hout|].
    split; [|split; [|exact Hbest]].
    + intros Hlt. rewrite Hst'. cbn [state_after min_val_loss min_val_loss_idx world self_net].
      rewrite files_world_after. unfold improve. cbn [fst]. rewrite Hlt. cbn [fst snd].
      repeat split. apply read_write_file.
    + intros Hlt. rewrite Hst'. cbn [state_after min_val_loss min_val_loss_idx world].
      rewrite files_world_after. unfold improve. cbn [fst]. rewrite Hlt. cbn [fst snd].
      repeat split.
  - unfold flows, lines. rewrite !map_app. cbn [map it_line it_after].
    rewrite !last_last. fold (lines I).
    split; [rewrite Hout, F1, app_assoc; reflexivity|].
    split; [exact Hbest|]. split; reflexivity.
Qed.

Lemma fit_batches_iterations :
  forall (batches : list (list (row * target))) (epoch i : nat)
         (st st' : fit_state) (I : list iteration) (c : control),
    flows I st -> all_ok I ->
    fit_batches get_output_path self loss_func val_loader epoch i batches st = (c, st') ->
    exists J,
      all_ok (I ++ J) /\ left_behind (I ++ J) st' /\ (c = Next -> flows (I ++ J) st').
Proof.
  induction batches as [|b bs IH]; intros epoch i st st' I c Hfl Hok Hrun.
  - simpl in Hrun. injection Hrun as <- <-. exists []. rewrite app_nil_r.
    split; [exact Hok|]. split; [apply flows_left_behind; exact Hfl|auto].
  - simpl in Hrun.
    destruct (fit_body get_output_path self loss_func val_loader epoch i b st)
      as [c1 st1] eqn:Hbody.
    destruct c1 as [| |e].
    + destruct (body_iteration _ _ _ Hfl Hbody) as [it [Hit Hfl1]]; [discriminate|].
      destruct (IH epoch (S i) st1 st' (I ++ [it]) c Hfl1 (all_ok_snoc Hok Hit) Hrun)
        as [J [HJ [Hlb Hnext]]].
      exists (it :: J). rewrite <- app_assoc in HJ, Hlb, Hnext.
      split; [exact HJ|]. split; [exact Hlb|exact Hnext].
    + destruct (body_iteration _ _ _ Hfl Hbody) as [it [Hit Hfl1]]; [discriminate|].
      injection Hrun as <- <-. exists [it].
      split; [apply all_ok_snoc; assumption|].
      split; [apply flows_left_behind; exact Hfl1|discriminate].
    + injection Hrun as <- <-. exists []. rewrite app_nil_r.
      split; [exact Hok|]. split; [|discriminate].
      apply fit_body_raised in Hbody. destruct Hbody as [Hsame _].
      eapply left_behind_same_books; eassumption.
Qed.

Lemma fit_epochs_iterations (train_loader : DataLoader (row * target)) :
  forall (n epoch : nat) (st st' : fit_state) (I : list iteration) (c : control),
    flows I st -> all_ok I ->
    fit_epochs get_output_path self loss_func train_loader val_loader epoch n st = (c, st') ->
    exists J,
      all_ok (I ++ J) /\ left_behind (I ++ J) st' /\ (c = Next -> flows (I ++ J) st').
Proof.
  induction n as [|n IH]; intros epoch st st' I c Hfl Hok Hrun.
  - simpl in Hrun. injection Hrun as <- <-. exists []. rewrite app_nil_r.
    split; [exact Hok|]. split; [apply flows_left_behind; exact Hfl|auto].
  - simpl in Hrun.
    destruct (loader_iter train_loader (gen (world st))) as [batches g'].
    pose proof (flows_redraw g' Hfl) as Hfl0. unfold redraw in Hfl0.
    destruct (fit_batches get_output_path self loss_func val_loader epoch 0 batches _)
      as [c1 st1] eqn:Hb.
    destruct (fit_batches_iterations _ _ _ Hfl0 Hok Hb) as [J1 [HJ1 [Hlb1 Hnext1]]].
    destruct c1 as [| |e].
    + destruct (IH (S epoch) st1 st' (I ++ J1) c (Hnext1 eq_refl) HJ1 Hrun)
        as [J2 [HJ2 [Hlb2 Hnext2]]].
      exists (J1 ++ J2). rewrite app_assoc.
      split; [exact HJ2|]. split; [exact Hlb2|exact Hnext2].
    + injection Hrun as <- <-. exists J1.
      split; [exact HJ1|]. split; [exact Hlb1|discriminate].
    + injection Hrun as <- <-. exists J1.
      split; [exact HJ1|]. split; [exact Hlb1|discriminate].
Qed.

(** The place of an iteration in the schedule is that of its line. *)
Lemma all_ok_keys (I : list iteration) :
  all_ok I -> map key (lines I) = map (fun it => (it_epoch it, it_step it)) I.
Proof.
  intros Hok. unfold lines. rewrite map_map. apply map_ext_in.
  intros it Hin. apply In_nth_error in Hin. destruct Hin as [k Hk].
  destruct (Hok k it Hk) as [_ [_ [_ [_ [_ [_ [_ [[loss [ls [_ [_ [_ Hln]]]]] _]]]]]]]].
  rewrite Hln. reflexivity.
Qed.

End FitIterations.

(** C4: [fit] runs the body of its inner loop once for each training batch
    of each epoch, in the order of the schedule, until an iteration
    returns or raises. Each iteration that completes takes one optimizer
    step on its training batch, then draws the whole validation set in
    batches and prints the binary32 mean of their losses under the stepped
    parameters; when that mean is strictly below the recorded minimum it
    records the mean and the step index and saves the stepped parameters as
    tmp/best, and otherwise leaves the record and the files alone. Before
    and after each iteration, and when the call ends, the recorded pair is
    the strict running minimum of the validation losses printed so far
    (NaN never improves) with the step index of the line that set it. The
    loop is only entered with a validation set that is not empty. *)
Theorem fit_tracks_running_minimum :
  forall (T : TensorOps) (R : Torch T)
         (get_output_path : Args -> string -> string -> string -> string -> string)
         (self : MLP) (X : tensor) (y : list target)
         (X_val : tensor) (y_val : list target) (w : World),
    let r := fit get_output_path self X y X_val y_val w in
    let a := args self in
    let lf := fst (fst (select_loss a y y_val)) in
    let vl := {| dataset := combine (to_float X_val) (snd (select_loss a y y_val));
                 loader_batch_size := Z.to_nat (batch_size (params self)) |} in
    exists I : list iteration,
      (I <> [] -> X_val <> [] /\ dataset vl <> [] /\ 1 <= loader_batch_size vl)
      /\ (exists rest,
            schedule 0 (Z.to_nat (epochs a))
              (num_batches (Z.to_nat (batch_size (params self))) (length X))
            = map (fun it => (it_epoch it, it_step it)) I ++ rest
            /\ (fit_control r = Next -> rest = []))
      /\ stdout (world (fit_final r)) = stdout w ++ map it_line I
      /\ (min_val_loss (fit_final r), min_val_loss_idx (fit_final r))
         = best_so_far (map it_line I)
      /\ files (world (fit_final r))
         = last (map (fun p => files (world (it_after p))) I) (files w)
      /\ (forall k it, nth_error I k = Some it ->
            let pre := firstn k I in
            let st := it_before it in
            let st' := it_after it in
            let ln := it_line it in
            let vb := val_batches_of vl st in
            stdout (world st) = stdout w ++ map it_line pre
            /\ (min_val_loss st, min_val_loss_idx st) = best_so_far (map it_line pre)
            /\ self_net st = last (map (fun p => self_net (it_after p)) pre) (net self)
            /\ files (world st)
               = last (map (fun p => files (world (it_after p))) pre) (files w)
            /\ (exists c,
                  fit_body get_output_path self lf vl
                    (it_epoch it) (it_step it) (it_batch it) st = (c, st')
                  /\ (c = Next \/ c = Return))
            /\ self_net st' = stepped self lf (it_batch it) st
            /\ Permutation (concat vb) (dataset vl)
            /\ (exists loss ls,
                  batch_loss a lf (it_batch it) (self_net st) = Ok loss
                  /\ Forall2 (fun b l => batch_loss a lf b (self_net st') = Ok l) vb ls
                  /\ ls <> []
                  /\ ln = {| log_epoch := it_epoch it; log_step := it_step it;
                             log_loss := loss; log_val_loss := mean ls |})
            /\ stdout (world st') = stdout (world st) ++ [ln]
            /\ (ltb (log_val_loss ln) (min_val_loss st) = true ->
                min_val_loss st' = log_val_loss ln
                /\ min_val_loss_idx st' = current_idx_of (it_epoch it) (it_step it)
                /\ files (world st')
                   = write_file (checkpoint_path get_output_path self) (self_net st')
                       (files (world st))
                /\ read_file (checkpoint_path get_output_path self) (files (world st'))
                   = Some (self_net st'))
            /\ (ltb (log_val_loss ln) (min_val_loss st) = false ->
                min_val_loss st' = min_val_loss st
                /\ min_val_loss_idx st' = min_val_loss_idx st
                /\ files (world st') = files (world st))
            /\ (min_val_loss st', min_val_loss_idx st')
               = best_so_far (map it_line pre ++ [ln]))
      /\ (forall L : list log_line,
            is_nan (fst (best_so_far L)) = false
            /\ (forall ln, In ln L -> ltb (log_val_loss ln) (fst (best_so_far L)) = false)
            /\ (forall ln, In ln L -> is_nan (log_val_loss ln) = false ->
                  leb (fst (best_so_far L)) (log_val_loss ln) = true)
            /\ (best_so_far L = (inf, 0%Z)
                \/ exists ln, In ln L /\ best_so_far L = (log_val_loss ln, step_index ln))).
Proof.
  intros T R gop self X y X_val y_val w r a lf vl.
  assert (Hmin : forall L : list log_line,
            is_nan (fst (best_so_far L)) = false
            /\ (forall ln, In ln L -> ltb (log_val_loss ln) (fst (best_so_far L)) = false)
            /\ (forall ln, In ln L -> is_nan (log_val_loss ln) = false ->
                  leb (fst (best_so_far L)) (log_val_loss ln) = true)
            /\ (best_so_far L = (inf, 0%Z)
                \/ exists ln, In ln L /\ best_so_far L = (log_val_loss ln, step_index ln))).
  { intros L. destruct (best_so_far_min L) as [H1 [H2 H3]].
    split; [exact H1|]. split; [exact H2|]. split; [|exact H3].
    intros ln Hin Hn. apply best_so_far_le; assumption. }
  destruct (fit_trace gop self X y X_val y_val w)
    as [L [Hout [_ [_ [rest [Hsched Hnext]]]]]]. fold r in Hout, Hnext.
  assert (Hmain : exists I : list iteration,
             @all_ok _ _ gop self lf vl w I
             /\ @left_behind _ _ w I (fit_final r)
             /\ (I <> [] -> X_val <> [] /\ dataset vl <> [] /\ 1 <= loader_batch_size vl)).
  { destruct (fit_cases gop self X y X_val y_val w)
      as [[e [Hc [Hf _]]]|[tl [vl' [_ [Hl2 [_ [Hb2 [Hbs [_ [Hd2 [[_ HXv] Hrun]]]]]]]]]]];
      fold r in Hc || fold r in Hrun.
    - fold r in Hf. exists []. split; [apply all_ok_nil|]. split; [|congruence].
      rewrite Hf. apply (@flows_left_behind _ _ self). apply flows_start.
    - assert (Evl : vl' = vl).
      { destruct vl'. simpl in Hd2, Hb2. subst. reflexivity. }
      subst vl'.
      assert (Hvbs : 1 <= loader_batch_size vl) by (simpl; lia).
      destruct (@fit_epochs_iterations _ _ gop self lf vl w Hvbs tl _ _ _ _ [] _
                  (@flows_start _ _ self w) (@all_ok_nil _ _ gop self lf vl w) Hrun)
        as [I [Hok [Hlb _]]].
      exists I. split; [exact Hok|]. split; [exact Hlb|].
      intros _. split; [exact HXv|]. split; [|exact Hvbs].
      intro E. rewrite E in Hl2. destruct X_val; [congruence|discriminate]. }
  destruct Hmain as [I [Hok [[Ho [Hb Hfi]] Hne]]].
  exists I. unfold lines in *.
  assert (HL : L = map it_line I).
  { rewrite Ho in Hout. apply app_inv_head in Hout. auto. }
  split; [exact Hne|]. split.
  { exists rest. split; [|exact Hnext].
    unfold a. rewrite Hsched, HL. f_equal.
    apply (@all_ok_keys _ _ gop self lf vl w I Hok). }
  split; [exact Ho|]. split; [exact Hb|]. split; [exact Hfi|].
  split; [|exact Hmin].
  intros k it Hk. exact (Hok k it Hk).
Qed.

(** The example run: the validation loss 5 of the first iteration is the
    minimum when the call ends, recorded with step index 1. *)
Lemma fit_tracks_running_minimum_witness :
  (min_val_loss (fit_final (example_fit example_table "regression" 1
                              [[10]; [20]; [30]] [1; 2; 3] [[40]] [4])),
   min_val_loss_idx (fit_final (example_fit example_table "regression" 1
                                  [[10]; [20]; [30]] [1; 2; 3] [[40]] [4])))
  = (of_nat 5, 1%Z).
Proof.
  destruct (fit_tracks_running_minimum (R := table_torch example_table)
              example_output_path (example_self example_table "regression" 1)
              [[10]; [20]; [30]] [1; 2; 3] [[40]] [4] (example_world example_table []))
    as [I [_ [_ [Hout [Hbest _]]]]].
  unfold example_fit. rewrite Hbest.
  change (stdout (example_world example_table []) ++ map it_line I)
    with (map it_line I) in Hout.
  rewrite <- Hout. vm_compute. reflexivity.
Defined.

(** *** The checkpoint that predict reloads *)

Section CheckpointFacts.
Context {T : TensorOps} {R : Torch T}.
Variable get_output_path : Args -> string -> string -> string -> string -> string.

Lemma below_inf_in_log (L : list log_line) (ln : log_line) :
  In ln L -> ltb (log_val_loss ln) inf = true ->
  ltb (fst (best_so_far L)) inf = true.
Proof.
  intros Hin Hlt. destruct (best_so_far_min L) as [Hnan [Hmin _]].
  apply ltb_inf_r. split.
  - intro E. rewrite E in Hnan. discriminate.
  - intro E. specialize (Hmin ln Hin). rewrite E in Hmin. congruence.
Qed.

Lemma predict_after_load (self self1 : MLP) (X : tensor) (w : World) (p : string) :
  load_model get_output_path self "best" "tmp" w = Ok self1 ->
  fst (fst (predict get_output_path self X w)) <> Raise (FileNotFoundError p).
Proof.
  intros Hload. unfold predict. rewrite Hload.
  destruct (new_loader (to_float X) (batch_size (params self1))) as [dl|e] eqn:Hl.
  - destruct (loader_iter dl (gen w)) as [batches g'].
    destruct (map (predict_batch self1) batches); simpl; discriminate.
  - apply new_loader_raises in Hl. destruct Hl as [-> _]. simpl. discriminate.
Qed.

End CheckpointFacts.

(** C9, amended: the best loss starts at [inf], so an iteration whose
    loss calls return and whose validation loss is strictly below [inf]
    (neither NaN nor [inf]) at the initial best improves on it and writes
    tmp/best; and when some line
    printed by [fit] has such a loss, the file exists when [fit] ends, the
    load in [predict] succeeds and [predict] does not raise
    FileNotFoundError. *)
Theorem fit_leaves_checkpoint :
  forall (T : TensorOps) (R : Torch T)
         (get_output_path : Args -> string -> string -> string -> string -> string)
         (self : MLP) (X : tensor) (y : list target)
         (X_val : tensor) (y_val : list target) (w : World),
    let r := fit get_output_path self X y X_val y_val w in
    min_val_loss (fit_start self w) = inf
    /\ (forall (lf : loss_module) (vl : DataLoader (row * target))
               (epoch i : nat) (batch : list (row * target)) (st : fit_state)
               (loss : float) (ls : list float),
          min_val_loss st = inf ->
          batch_loss (args self) lf batch (self_net st) = Ok loss ->
          Forall2 (fun b l => batch_loss (args self) lf b (stepped self lf batch st) = Ok l)
            (val_batches_of vl st) ls ->
          ls <> [] ->
          ltb (mean ls) inf = true ->
          exists c st',
            fit_body get_output_path self lf vl epoch i batch st = (c, st')
            /\ min_val_loss st' = mean ls
            /\ read_file (checkpoint_path get_output_path self) (files (world st'))
                 = Some (stepped self lf batch st))
    /\ (forall L,
          stdout (world (fit_final r)) = stdout w ++ L ->
          (exists ln, In ln L /\ ltb (log_val_loss ln) inf = true) ->
          exists sd,
            read_file (checkpoint_path get_output_path self) (files (world (fit_final r)))
              = Some sd
            /\ load_model get_output_path (fit_self self r) "best" "tmp" (world (fit_final r))
                 = Ok (set_net sd (fit_self self r))
            /\ forall X' p,
                 fst (fst (predict get_output_path (fit_self self r) X' (world (fit_final r))))
                   <> Raise (FileNotFoundError p)).
Proof.
  intros T R gop self X y X_val y_val w r. split; [reflexivity|]. split.
  - intros lf vl epoch i batch st loss ls Hinf Hl Hls Hne Hlt.
    apply losses_of_each in Hls.
    rewrite fit_body_cases, Hl, Hls. destruct ls as [|l ls]; [congruence|].
    cbv zeta. eexists. eexists. split; [reflexivity|].
    cbn [state_after min_val_loss world]. rewrite files_world_after.
    unfold improve. cbn [fst line_of log_val_loss]. rewrite Hinf, Hlt. cbn [fst].
    split; [reflexivity|apply read_write_file].
  - intros L Hout [ln [Hin Hlt]].
    assert (Hstart : tracked (stdout w) (fit_start self w) []).
    { split; [cbn; rewrite app_nil_r; reflexivity|reflexivity]. }
    assert (Hck0 : checkpoint_written gop self (fit_start self w)).
    { split; [reflexivity|]. intros H. cbn in H. discriminate. }
    assert (Hread : state_shapes (self_net (fit_final r)) = state_shapes (net self)
               /\ exists sd,
                    read_file (checkpoint_path gop self) (files (world (fit_final r)))
                      = Some sd
                    /\ state_shapes sd = state_shapes (net self)).
    { destruct (fit_cases gop self X y X_val y_val w)
        as [[e [_ [Hf _]]]|[tl [vl [_ [_ [_ [_ [_ [_ [_ [_ Hrun]]]]]]]]]]];
        fold r in Hf || fold r in Hrun.
      - rewrite Hf in Hout. cbn in Hout.
        rewrite <- (app_nil_r (stdout w)) in Hout at 1.
        apply app_inv_head in Hout. subst L. destruct Hin.
      - pose proof (fit_epochs_visits _ _ _ (visits_start gop self _ vl (fit_start self w)) Hrun)
          as Hv.
        destruct (visits_tracked Hv Hstart) as [L' [Hout' Hbest]]. simpl in Hout', Hbest.
        rewrite Hout' in Hout. apply app_inv_head in Hout. subst L'.
        destruct (visits_checkpoint Hck0 Hv) as [Hsh Hck]. split; [exact Hsh|].
        apply Hck.
        replace (min_val_loss (fit_final r)) with (fst (best_so_far L))
          by (rewrite <- Hbest; reflexivity).
        eapply below_inf_in_log; eassumption. }
    destruct Hread as [Hsh [sd [Hread Hsd]]]. exists sd. split; [exact Hread|].
    assert (Hload : load_model gop (fit_self self r) "best" "tmp" (world (fit_final r))
                    = Ok (set_net sd (fit_self self r))).
    { unfold load_model. cbn [fit_self set_net args].
      fold (checkpoint_path gop self). rewrite Hread.
      apply load_state_dict_same. unfold fit_self. cbn [set_net net].
      rewrite Hsd, Hsh. reflexivity. }
    split; [exact Hload|].
    intros X' p. eapply predict_after_load. exact Hload.
Qed.

(** A run whose every loss overflows to [inf]. *)
Definition overflow_fit : @fit_result counter_ops (table_torch (fun _ => inf)) :=
  example_fit (fun _ => inf) "regression" 1 [[10]; [20]; [30]] [1; 2; 3] [[40]] [4].

(** C9 as stated fails: the validation losses of this call are numbers, not
    NaN, yet no iteration improves on [inf], no checkpoint is written and
    [predict] raises FileNotFoundError. *)
Lemma fit_inf_loss_no_checkpoint :
  map log_val_loss (stdout (world (fit_final overflow_fit))) = [inf; inf]
  /\ map (fun ln => is_nan (log_val_loss ln)) (stdout (world (fit_final overflow_fit)))
       = [false; false]
  /\ min_val_loss (fit_final overflow_fit) = inf
  /\ read_file "tmp/mbest.pt" (files (world (fit_final overflow_fit))) = None
  /\ fst (fst (predict example_output_path
                 (fit_self (example_self (fun _ => inf) "regression" 1) overflow_fit)
                 [[10]] (world (fit_final overflow_fit))))
       = Raise (FileNotFoundError "tmp/mbest.pt").
Proof. vm_compute. repeat split. Qed.

Lemma fit_leaves_checkpoint_witness :
  exists sd,
    read_file "tmp/mbest.pt"
      (files (world (fit_final (example_fit example_table "regression" 1
                                  [[10]; [20]; [30]] [1; 2; 3] [[40]] [4])))) = Some sd.
Proof.
  destruct (proj2 (proj2 (fit_leaves_checkpoint (R := table_torch example_table)
              example_output_path (example_self example_table "regression" 1)
              [[10]; [20]; [30]] [1; 2; 3] [[40]] [4] (example_world example_table [])))
            _ eq_refl) as [sd [H _]].
  - eexists. split; [left; reflexivity|]. vm_compute. reflexivity.
  - exists sd. exact H.
Defined.

(** *** The loss of a training batch *)

Section LossFacts.
Context {T : TensorOps} {R : Torch T}.



End LossFacts.






(** *** More on the constructor *)

Section InitShapes.
Context {T : TensorOps} {R : Torch T}.

(** Each layer of the list takes rows of the width the previous one
    produces, starting from width [w]. *)
Fixpoint chained (w : nat) (ls : list (Linear weights)) : Prop :=
  match ls with
  | [] => True
  | l :: rest => in_features l = w /\ chained (out_features l) rest
  end.

(** The width of a row after the layers of the list. *)
Definition final_width (w : nat) (ls : list (Linear weights)) : nat :=
  fold_left (fun _ l => out_features l) ls w.

Lemma chained_uniform (h : nat) (ls : list (Linear weights)) :
  Forall (fun l => sizes l = (h, h)) ls ->
  chained h ls /\ final_width h ls = h.
Proof.
  induction 1 as [|l ls Hl _ IH]; simpl; [split; reflexivity|].
  unfold sizes in Hl. injection Hl as Hin Hout.
  unfold final_width in *. simpl. rewrite Hout. destruct IH. auto.
Qed.

Lemma chained_app (w : nat) (ls ms : list (Linear weights)) :
  chained w ls -> chained (final_width w ls) ms -> chained w (ls ++ ms).
Proof.
  revert w. induction ls as [|l ls IH]; intros w H1 H2; simpl in *; [assumption|].
  destruct H1 as [Hin Hc]. split; [assumption|]. apply IH; assumption.
Qed.

End InitShapes.

(** X8: whatever [n_layers] is, the layers built by the constructor fit
    together: the first takes [num_features] inputs, each layer takes what
    the previous one produces, and the last produces [num_classes]
    outputs; with [n_layers <= 1] there is no hidden layer at all, so 0
    and negative values build the same two-layer network as 1. *)
Theorem init_layers_fit_together :
  forall (T : TensorOps) (R : Torch T) (p : Params) (a : Args) (g : rng),
    let n := net (fst (init p a g)) in
    chained (num_features a) (affine_layers n)
    /\ final_width (num_features a) (affine_layers n) = num_classes a
    /\ length (affine_layers n) = 2 + Z.to_nat (n_layers p - 1)
    /\ ((n_layers p <= 1)%Z -> layers n = []).
Proof.
  intros T R p a g n.
  destruct (init_net p a g) as [_ [_ [Hin [Hlen [Hhid Hout]]]]]. fold n in Hin, Hlen, Hhid, Hout.
  destruct (chained_uniform Hhid) as [Hch Hfw].
  unfold sizes in Hin, Hout. injection Hin as Hi1 Hi2. injection Hout as Ho1 Ho2.
  split; [|split; [|split]].
  - unfold affine_layers. simpl. split; [assumption|]. rewrite Hi2.
    apply chained_app; [assumption|]. rewrite Hfw. simpl. auto.
  - unfold affine_layers, final_width. simpl. rewrite fold_left_app. simpl. assumption.
  - unfold affine_layers. simpl. rewrite length_app, Hlen. simpl. lia.
  - intros Hk. replace (Z.to_nat (n_layers p - 1)) with 0 in Hlen by lia.
    destruct (layers n); [reflexivity|discriminate].
Qed.

Lemma init_layers_fit_together_witness :
  layers (net (fst (init (R := table_torch (fun _ => zero))
                      (example_params (-3) 2) (example_args "binary") 0))) = [].
Proof.
  apply (proj2 (proj2 (proj2 (init_layers_fit_together (table_torch (fun _ => zero))
           (example_params (-3) 2) (example_args "binary") 0)))).
  simpl. lia.
Defined.

(** *** Saving and loading *)

Section SaveLoad.
Context {T : TensorOps} {R : Torch T}.
Variable get_output_path : Args -> string -> string -> string -> string -> string.

Lemma read_other_file (path path' : string) (sd : Net weights)
  (fs : list (string * Net weights)) :
  path' <> path -> read_file path (write_file path' sd fs) = read_file path fs.
Proof.
  intros H. unfold write_file. simpl.
  apply String.eqb_neq in H. rewrite H. reflexivity.
Qed.

Lemma set_net_same (self : MLP) : set_net (net self) self = self.
Proof. destruct self. reflexivity. Qed.

End SaveLoad.

(** X9: [load_model] after [save_model] under the same extension and
    directory gives back the saved parameters; of two saves under one path
    the later one is loaded, by a model whose parameters have the shapes
    of the saved ones, while a model of other shapes raises RuntimeError;
    a save under another path does not change what a load returns;
    [save_model] leaves the random generator and the output alone; loading
    a path nothing was saved under raises FileNotFoundError. *)
Theorem save_then_load :
  forall (T : TensorOps) (R : Torch T)
         (get_output_path : Args -> string -> string -> string -> string -> string)
         (self other : MLP) (ext dir ext' dir' : string) (w : World),
    load_model get_output_path self ext dir (save_model get_output_path self ext dir w)
      = Ok self
    /\ (args other = args self ->
        state_shapes (net other) = state_shapes (net self) ->
        load_model get_output_path other ext dir
          (save_model get_output_path self ext dir
             (save_model get_output_path other ext dir w))
          = Ok (set_net (net self) other))
    /\ (args other = args self ->
        state_shapes (net other) <> state_shapes (net self) ->
        load_model get_output_path other ext dir
          (save_model get_output_path self ext dir w)
          = Raise RuntimeError)
    /\ (get_output_path (args other) dir' "m"%string ext' "pt"%string
          <> get_output_path (args self) dir "m"%string ext "pt"%string ->
        load_model get_output_path self ext dir
          (save_model get_output_path other ext' dir' w)
          = load_model get_output_path self ext dir w)
    /\ gen (save_model get_output_path self ext dir w) = gen w
    /\ stdout (save_model get_output_path self ext dir w) = stdout w
    /\ (files w = [] ->
        load_model get_output_path self ext dir w
          = Raise (FileNotFoundError
                     (get_output_path (args self) dir "m"%string ext "pt"%string))).
Proof.
  intros T R gop self other ext dir ext' dir' w.
  split; [|split; [|split; [|split; [|split; [|split]]]]].
  - unfold load_model, save_model. cbn [files set_files].
    rewrite read_write_file, load_state_dict_same, set_net_same; reflexivity.
  - intros Ha Hsh. unfold load_model, save_model. cbn [files set_files]. rewrite Ha.
    rewrite read_write_file. apply load_state_dict_same. symmetry. exact Hsh.
  - intros Ha Hsh. unfold load_model, save_model. cbn [files set_files]. rewrite Ha.
    rewrite read_write_file. apply load_state_dict_other. congruence.
  - intros Hp. unfold load_model, save_model. cbn [files set_files].
    rewrite read_other_file by assumption. reflexivity.
  - reflexivity.
  - reflexivity.
  - intros Hf. unfold load_model. rewrite Hf. reflexivity.
Qed.

(** The example model with an output layer that has seen [c] steps. *)
Definition example_trained (c : nat) : @MLP counter_ops :=
  @set_net counter_ops (example_net c) (example_self (fun _ => zero) "binary" 2).

Lemma save_then_load_witness :
  load_model example_output_path (example_trained 0) "" "models"
    (save_model example_output_path (example_trained 7) "best" "tmp"
       (example_world (fun _ => zero) [("models/m.pt"%string, example_net 3)]))
  = Ok (example_trained 3).
Proof.
  rewrite (proj1 (proj2 (proj2 (proj2 (save_then_load (R := table_torch (fun _ => zero))
             example_output_path (example_trained 0) (example_trained 7)
             "" "models" "best" "tmp"
             (example_world (fun _ => zero) [("models/m.pt"%string, example_net 3)]))))));
    [reflexivity|discriminate].
Defined.

(** X11: no objective string is rejected. With an objective that is none
    of regression, classification and binary, [fit] trains with the sigmoid
    cross-entropy on float targets, applied to the raw output without the
    squeeze, and [predict] returns the raw output of the last layer, with
    neither sigmoid nor softmax. *)
Theorem unknown_objective_behaviour :
  forall (T : TensorOps) (Tr : Torch T) (self : MLP) (y y_val : list target)
         (batch : list (row * target)) (n : Net weights) (b : tensor),
    objective (args self) <> "regression"%string ->
    objective (args self) <> "classification"%string ->
    objective (args self) <> "binary"%string ->
    select_loss (args self) y y_val
      = (BCEWithLogitsLoss, map float_target y, map float_target y_val)
    /\ batch_loss (args self) BCEWithLogitsLoss batch n
       = apply_loss BCEWithLogitsLoss (AsIs (raw_output n (map fst batch))) (map snd batch)
    /\ predict_batch self b = raw_output (net self) b.
Proof.
  intros T Tr self y y_val batch n b Hr Hc Hb.
  apply String.eqb_neq in Hr, Hc, Hb.
  split; [|split].
  - unfold select_loss. rewrite Hr, Hc. reflexivity.
  - unfold batch_loss, squeeze_output. rewrite forward_raw_output, Hr, Hc, Hb. reflexivity.
  - unfold predict_batch. rewrite forward_raw_output, Hc, Hb. reflexivity.
Qed.

Lemma unknown_objective_behaviour_witness :
  select_loss (R := table_torch example_table) (example_args "Binary") [1; 2] [3]
    = (BCEWithLogitsLoss, [1; 2], [3]).
Proof.
  refine (proj1 (@unknown_objective_behaviour counter_ops (table_torch example_table)
                   (example_self example_table "Binary" 1) [1; 2] [3] []
                   (example_net 0) [] _ _ _)); discriminate.
Defined.

(** *** More on whole calls of fit *)

Section FitCalls.
Context {T : TensorOps} {R : Torch T}.
Variable get_output_path : Args -> string -> string -> string -> string -> string.

(** The final state of a call is a state of its loop. *)
Lemma fit_visits (self : MLP) (X : tensor) (y : list target)
  (X_val : tensor) (y_val : list target) (w : World) :
  exists lf vl,
    visits get_output_path self lf vl (fit_start self w)
      (fit_final (fit get_output_path self X y X_val y_val w)).
Proof.
  destruct (fit_cases get_output_path self X y X_val y_val w)
    as [[e [_ [Hf _]]]|[tl [vl [_ [_ [_ [_ [_ [_ [_ [_ Hrun]]]]]]]]]]].
  - exists MSELoss, {| dataset := []; loader_batch_size := 0 |}.
    rewrite Hf. apply visits_start.
  - eexists. exists vl. eapply fit_epochs_visits; [apply visits_start|exact Hrun].
Qed.


Lemma length_schedule (e n nb : nat) : length (schedule e n nb) = n * nb.
Proof.
  unfold schedule. revert e. induction n as [|n IH]; intros e; simpl; [reflexivity|].
  rewrite length_app, length_map, length_seq, IH. reflexivity.
Qed.

Lemma in_schedule (e n nb : nat) (k : nat * nat) :
  In k (schedule e n nb) -> e <= fst k < e + n /\ snd k < nb.
Proof.
  unfold schedule. intros H. apply in_flat_map in H.
  destruct H as [e' [He H]]. apply in_seq in He.
  apply in_map_iff in H. destruct H as [j [<- Hj]]. apply in_seq in Hj.
  simpl. lia.
Qed.

Lemma step_index_positive (ln : log_line) : (1 <= step_index ln)%Z.
Proof. unfold step_index. nia. Qed.

Lemma best_idx_nonneg (L : list log_line) : (0 <= snd (best_so_far L))%Z.
Proof.
  destruct (best_so_far_min L) as [_ [_ [H|[ln [_ H]]]]]; rewrite H; simpl.
  - lia.
  - pose proof (step_index_positive ln). lia.
Qed.

Lemma num_batches_ceil (bs n : nat) :
  1 <= bs -> num_batches bs n = (n + bs - 1) / bs.
Proof.
  intros Hbs. unfold num_batches, chunks. rewrite length_seq.
  assert (H : forall fuel (l : list nat), length l <= fuel ->
            length (chunks_fuel fuel bs l) = (length l + bs - 1) / bs).
  { induction fuel as [|fuel IH]; intros l Hl.
    - destruct l; simpl in *; [|lia]. symmetry. apply Nat.div_small. lia.
    - destruct l as [|x l].
      + simpl. symmetry. apply Nat.div_small. lia.
      + cbn [chunks_fuel length]. rewrite IH
          by (rewrite length_skipn; change (length (x :: l)) with (S (length l)) in *; lia).
        rewrite length_skipn. change (length (x :: l)) with (S (length l)).
        destruct (Nat.le_gt_cases bs (S (length l))) as [Hge|Hlt].
        * replace (S (length l) + bs - 1) with ((S (length l) - bs + bs - 1) + 1 * bs) by lia.
          rewrite Nat.div_add by lia. lia.
        * replace (S (length l) - bs) with 0 by lia.
          rewrite (Nat.div_small (0 + bs - 1)) by lia.
          apply Nat.div_unique with (r := length l); lia. }
  rewrite (H n (seq 0 n)) by (rewrite length_seq; lia).
  rewrite length_seq. reflexivity.
Qed.

End FitCalls.



(** *** What the methods leave alone *)

Section Untouched.
Context {T : TensorOps} {R : Torch T}.
Variable get_output_path : Args -> string -> string -> string -> string -> string.
Variable self : MLP.
Variable loss_func : loss_module.
Variable val_loader : DataLoader (row * target).

Lemma visits_other_files (path : string) (s0 : fit_state) :
  path <> checkpoint_path get_output_path self ->
  forall st, visits get_output_path self loss_func val_loader s0 st ->
    read_file path (files (world st)) = read_file path (files (world s0)).
Proof.
  intros Hp. induction 1 as [|st g Hv IH|st epoch i batch c st' Hv IH Hb].
  - reflexivity.
  - exact IH.
  - rewrite <- IH. apply fit_body_outcome in Hb.
    destruct Hb as [[e [_ [[_ ->]|[loss [_ [-> _]]]]]]|[loss [ls [_ [_ [_ [-> _]]]]]]].
    + reflexivity.
    + reflexivity.
    + cbn [state_after world]. rewrite files_world_after.
      destruct (ltb _ _); [|reflexivity].
      apply read_other_file. congruence.
Qed.

End Untouched.

(** X13: [fit] writes no file but tmp/best: what any other path holds
    after the call is what it held before, however the call ends; and
    [predict] writes no file and prints nothing. *)
Theorem fit_and_predict_leave_other_files :
  forall (T : TensorOps) (R : Torch T)
         (get_output_path : Args -> string -> string -> string -> string -> string)
         (self : MLP) (X : tensor) (y : list target)
         (X_val : tensor) (y_val : list target) (w : World) (path : string),
    (path <> checkpoint_path get_output_path self ->
     read_file path (files (world (fit_final (fit get_output_path self X y X_val y_val w))))
       = read_file path (files w))
    /\ files (snd (predict get_output_path self X w)) = files w
    /\ stdout (snd (predict get_output_path self X w)) = stdout w.
Proof.
  intros T R gop self X y X_val y_val w path. split; [|split].
  - intros Hp. destruct (fit_visits gop self X y X_val y_val w) as [lf [vl Hv]].
    apply (visits_other_files Hp Hv).
  - unfold predict.
    destruct (load_model gop self "best" "tmp" w) as [self1|e]; [|reflexivity].
    destruct (new_loader _ _) as [dl|e]; [|reflexivity].
    destruct (loader_iter dl (gen w)) as [bs g'].
    destruct (map (predict_batch self1) bs); reflexivity.
  - unfold predict.
    destruct (load_model gop self "best" "tmp" w) as [self1|e]; [|reflexivity].
    destruct (new_loader _ _) as [dl|e]; [|reflexivity].
    destruct (loader_iter dl (gen w)) as [bs g'].
    destruct (map (predict_batch self1) bs); reflexivity.
Qed.

Lemma fit_and_predict_leave_other_files_witness :
  read_file "models/m.pt"
    (files (world (fit_final
       (fit (R := table_torch example_table) example_output_path
          (example_self example_table "regression" 1)
          [[10]; [20]; [30]] [1; 2; 3] [[40]] [4]
          (example_world example_table [("models/m.pt"%string, example_net 3)])))))
  = Some (example_net 3).
Proof.
  rewrite (proj1 (fit_and_predict_leave_other_files (R := table_torch example_table)
             example_output_path (example_self example_table "regression" 1)
             [[10]; [20]; [30]] [1; 2; 3] [[40]] [4]
             (example_world example_table [("models/m.pt"%string, example_net 3)])
             "models/m.pt")); [reflexivity|discriminate].
Defined.

(** X14: [fit] runs at most [epochs] times the number of training batches
    iterations, that number being the training rows divided by the batch
    size, rounded up; it runs exactly that many when it neither returns
    early nor raises, and none when [epochs] is 0 or negative, in which
    case nothing at all is changed. *)
Theorem fit_iteration_bound :
  forall (T : TensorOps) (R : Torch T)
         (get_output_path : Args -> string -> string -> string -> string -> string)
         (self : MLP) (X : tensor) (y : list target)
         (X_val : tensor) (y_val : list target) (w : World),
    let r := fit get_output_path self X y X_val y_val w in
    let bs := Z.to_nat (batch_size (params self)) in
    let n := Z.to_nat (epochs (args self)) in
    (exists L,
       stdout (world (fit_final r)) = stdout w ++ L
       /\ length L <= n * num_batches bs (length X)
       /\ (fit_control r = Next -> length L = n * num_batches bs (length X)))
    /\ (1 <= bs -> num_batches bs (length X) = (length X + bs - 1) / bs)
    /\ ((epochs (args self) <= 0)%Z ->
        fit_final r = fit_start self w /\ fit_control r <> Return).
Proof.
  intros T R gop self X y X_val y_val w r bs n. split; [|split].
  - destruct (fit_trace gop self X y X_val y_val w)
      as [L [Hout [_ [_ [rest [Hs Hn]]]]]]. fold r in Hout, Hn. fold bs n in Hs.
    exists L. split; [exact Hout|].
    apply (f_equal (@length _)) in Hs.
    rewrite length_schedule, length_app, length_map in Hs. split; [lia|].
    intros Hc. rewrite (Hn Hc) in Hs. simpl in Hs. lia.
  - apply num_batches_ceil.
  - intros He.
    destruct (fit_cases gop self X y X_val y_val w)
      as [[e [Hc [Hf _]]]|[tl [vl [_ [_ [_ [_ [_ [_ [_ [_ Hrun]]]]]]]]]]];
      fold r in Hc || fold r in Hrun.
    + fold r in Hf. split; [exact Hf|]. rewrite Hc. discriminate.
    + replace (Z.to_nat (epochs (args self))) with 0 in Hrun by lia.
      simpl in Hrun. injection Hrun as Hc Hf. split; [auto|]. rewrite <- Hc. discriminate.
Qed.

Lemma fit_iteration_bound_witness :
  num_batches (Z.to_nat (batch_size (params (example_self example_table "regression" 2))))
    (length [[10]; [20]; [30]]) = 2.
Proof.
  exact (proj1 (proj2 (fit_iteration_bound (R := table_torch example_table)
           example_output_path (example_self example_table "regression" 2)
           [[10]; [20]; [30]] [1; 2; 3] [[40]] [4] (example_world example_table [])))
         (le_S _ _ (le_n 1))).
Defined.

(** X15: a patience of at least [epochs] times the number of training
    batches switches early stopping off: no step index exceeds that
    product, so [fit] never executes its [return]. *)
Theorem fit_large_patience_never_stops :
  forall (T : TensorOps) (R : Torch T)
         (get_output_path : Args -> string -> string -> string -> string -> string)
         (self : MLP) (X : tensor) (y : list target)
         (X_val : tensor) (y_val : list target) (w : World),
    (Z.of_nat (Z.to_nat (epochs (args self))
               * num_batches (Z.to_nat (batch_size (params self))) (length X))
     <= early_stopping_rounds (args self))%Z ->
    fit_control (fit get_output_path self X y X_val y_val w) <> Return.
Proof.
  intros T R gop self X y X_val y_val w Hp Hc.
  destruct (fit_trace gop self X y X_val y_val w)
    as [L [_ [_ [Hset [rest [Hs _]]]]]].
  rewrite Hc in Hset. destruct Hset as [Hne [_ Hstop]].
  unfold stops_at in Hstop.
  destruct (nth_error L (length L - 1)) as [ln|] eqn:Hln; [|discriminate].
  apply Z.ltb_lt in Hstop.
  pose proof (best_idx_nonneg (firstn (S (length L - 1)) L)) as Hb.
  assert (Hin : In (key ln) (schedule 0 (Z.to_nat (epochs (args self)))
                     (num_batches (Z.to_nat (batch_size (params self))) (length X)))).
  { rewrite Hs. apply in_or_app. left. apply in_map. eapply nth_error_In. exact Hln. }
  apply in_schedule in Hin. unfold key in Hin. simpl in Hin.
  unfold step_index in Hstop. nia.
Qed.

Lemma fit_large_patience_never_stops_witness :
  fit_control
    (fit (R := table_torch example_table) example_output_path
       (@Build_MLP counter_ops (example_params 1 1)
          {| num_features := 1; num_classes := 2; objective := "regression";
             use_gpu := false; epochs := 2; early_stopping_rounds := 6 |}
          (example_net 0) None)
       [[10]; [20]; [30]] [1; 2; 3] [[40]] [4] (example_world example_table []))
  <> Return.
Proof.
  apply fit_large_patience_never_stops. vm_compute. discriminate.
Defined.

(** X16: with a negative patience [fit] runs at most one iteration: the
    first one already passes the test of line 125, improved or not, so a
    call that prints a line prints exactly one and returns. *)
Theorem fit_negative_patience_stops_at_once :
  forall (T : TensorOps) (R : Torch T)
         (get_output_path : Args -> string -> string -> string -> string -> string)
         (self : MLP) (X : tensor) (y : list target)
         (X_val : tensor) (y_val : list target) (w : World),
    (early_stopping_rounds (args self) < 0)%Z ->
    let r := fit get_output_path self X y X_val y_val w in
    stdout (world (fit_final r)) = stdout w
    \/ (exists ln, stdout (world (fit_final r)) = stdout w ++ [ln])
       /\ fit_control r = Return.
Proof.
  intros T R gop self X y X_val y_val w Hp r.
  destruct (fit_trace gop self X y X_val y_val w)
    as [L [Hout [_ [Hset _]]]]. fold r in Hout, Hset.
  assert (Hfirst : forall ln rest,
            L = ln :: rest -> stops_at (early_stopping_rounds (args self)) L 0 = true).
  { intros ln rest ->. unfold stops_at. simpl.
    unfold best_so_far, improve. simpl.
    pose proof (step_index_positive ln).
    destruct (ltb (log_val_loss ln) inf); simpl; apply Z.ltb_lt; lia. }
  destruct L as [|ln rest].
  - left. rewrite Hout, app_nil_r. reflexivity.
  - right. specialize (Hfirst ln rest eq_refl).
    destruct (fit_control r) eqn:Hc; simpl in Hset.
    + rewrite Hset in Hfirst by lia. discriminate.
    + destruct Hset as [_ [Hq _]]. destruct rest as [|ln' rest].
      * split; [exists ln; exact Hout|reflexivity].
      * rewrite Hq in Hfirst by (simpl; lia). discriminate.
    + rewrite Hset in Hfirst by lia. discriminate.
Qed.

Lemma fit_negative_patience_stops_at_once_witness :
  length (stdout (world (fit_final
    (fit (R := table_torch example_table) example_output_path
       (@Build_MLP counter_ops (example_params 1 1)
          {| num_features := 1; num_classes := 2; objective := "regression";
             use_gpu := false; epochs := 2; early_stopping_rounds := -1 |}
          (example_net 0) None)
       [[10]; [20]; [30]] [1; 2; 3] [[40]] [4] (example_world example_table []))))) = 1.
Proof.
  destruct (fit_negative_patience_stops_at_once (R := table_torch example_table)
              example_output_path
              (@Build_MLP counter_ops (example_params 1 1)
                 {| num_features := 1; num_classes := 2; objective := "regression";
                    use_gpu := false; epochs := 2; early_stopping_rounds := -1 |}
                 (example_net 0) None)
              [[10]; [20]; [30]] [1; 2; 3] [[40]] [4] (example_world example_table [])
              ltac:(simpl; lia)) as [H|[[ln H] _]].
  - vm_compute in H. discriminate.
  - rewrite H. reflexivity.
Defined.

(** *** Which parameters the checkpoint holds *)

Section FitHistory.
Context {T : TensorOps} {R : Torch T}.
Variable get_output_path : Args -> string -> string -> string -> string -> string.
Variable self : MLP.
Variable loss_func : loss_module.
Variable val_loader : DataLoader (row * target).

(** The states of the loop together with what the iterations so far
    printed and produced: for each iteration that printed, its line and the
    parameters the optimizer step of that iteration left. *)
Inductive visits_with (s0 : fit_state)
  : fit_state -> list (log_line * Net weights) -> Prop :=
| visits_with_start : visits_with s0 s0 []
| visits_with_draw st g H : visits_with s0 st H -> visits_with s0 (redraw g st) H
| visits_with_raise st epoch i batch e st' H :
    visits_with s0 st H ->
    fit_body get_output_path self loss_func val_loader epoch i batch st = (Raised e, st') ->
    visits_with s0 st' H
| visits_with_body st epoch i batch c st' H loss ls :
    visits_with s0 st H ->
    batch_loss (args self) loss_func batch (self_net st) = Ok loss ->
    losses (args self) loss_func (stepped self loss_func batch st)
      (val_batches_of val_loader st) = Ok ls ->
    ls <> [] ->
    fit_body get_output_path self loss_func val_loader epoch i batch st = (c, st') ->
    visits_with s0 st'
      (H ++ [(line_of epoch i loss ls, stepped self loss_func batch st)]).

Lemma visits_with_step (s0 st st' : fit_state) (epoch i : nat)
  (batch : list (row * target)) (c : control) (H : list (log_line * Net weights)) :
  visits_with s0 st H ->
  fit_body get_output_path self loss_func val_loader epoch i batch st = (c, st') ->
  exists H', visits_with s0 st' H'.
Proof.
  intros Hv Hb. pose proof Hb as Hcase. apply fit_body_outcome in Hcase.
  destruct Hcase as [[e [-> _]]|[loss [ls [Hl [Hls [Hne _]]]]]].
  - exists H. eapply visits_with_raise; eassumption.
  - eexists. eapply visits_with_body; eassumption.
Qed.

Lemma fit_batches_history (s0 : fit_state) :
  forall batches epoch i st c st' H,
    visits_with s0 st H ->
    fit_batches get_output_path self loss_func val_loader epoch i batches st = (c, st') ->
    exists H', visits_with s0 st' H'.
Proof.
  induction batches as [|b bs IH]; intros epoch i st c st' H Hv Hrun; simpl in Hrun.
  - injection Hrun as _ <-. exists H. assumption.
  - destruct (fit_body get_output_path self loss_func val_loader epoch i b st)
      as [c1 st1] eqn:Hb.
    destruct (@visits_with_step s0 st st1 epoch i b c1 H Hv Hb) as [H1 Hv1].
    destruct c1; [eapply IH; eassumption| |]; injection Hrun as _ <-; exists H1; assumption.
Qed.

Lemma fit_epochs_history (train_loader : DataLoader (row * target)) (s0 : fit_state) :
  forall n epoch st c st' H,
    visits_with s0 st H ->
    fit_epochs get_output_path self loss_func train_loader val_loader epoch n st = (c, st') ->
    exists H', visits_with s0 st' H'.
Proof.
  induction n as [|n IH]; intros epoch st c st' H Hv Hrun; simpl in Hrun.
  - injection Hrun as _ <-. exists H. assumption.
  - destruct (loader_iter train_loader (gen (world st))) as [batches g'].
    pose proof (visits_with_draw g' Hv) as Hv0. unfold redraw in Hv0.
    destruct (fit_batches get_output_path self loss_func val_loader epoch 0 batches _)
      as [c1 st1] eqn:Hb.
    destruct (@fit_batches_history s0 batches epoch 0 _ c1 st1 H Hv0 Hb) as [H1 Hv1].
    destruct c1; [eapply IH; eassumption| |]; injection Hrun as _ <-; exists H1; assumption.
Qed.

(** The best loss of a history and the parameters that came with it. *)
Definition improve_net (acc : float * option (Net weights))
  (p : log_line * Net weights) : float * option (Net weights) :=
  if ltb (log_val_loss (fst p)) (fst acc) then (log_val_loss (fst p), Some (snd p)) else acc.

Definition best_net (H : list (log_line * Net weights)) : float * option (Net weights) :=
  fold_left improve_net H (inf, None).

Lemma best_net_snoc (H : list (log_line * Net weights)) (p : log_line * Net weights) :
  best_net (H ++ [p]) = improve_net (best_net H) p.
Proof. unfold best_net. rewrite fold_left_app. reflexivity. Qed.

Lemma best_net_fst (H : list (log_line * Net weights)) :
  fst (best_net H) = fst (best_so_far (map fst H)).
Proof.
  induction H as [|p H IH] using rev_ind; [reflexivity|].
  rewrite map_app. cbn [map]. rewrite best_net_snoc, best_so_far_snoc.
  unfold improve_net, improve. simpl. rewrite IH. destruct (ltb _ _); simpl; [reflexivity|assumption].
Qed.

(** Either nothing improved on [inf] yet, or the best entry is the
    earliest one with the minimal loss: the entries before it have a
    greater loss or NaN, the entries after it no smaller loss. *)
Lemma best_net_earliest (H : list (log_line * Net weights)) :
  (best_net H = (inf, None) /\ best_so_far (map fst H) = (inf, 0%Z))
  \/ (ltb (fst (best_net H)) inf = true
      /\ exists pre ln n post,
           H = pre ++ (ln, n) :: post
           /\ best_net H = (log_val_loss ln, Some n)
           /\ best_so_far (map fst H) = (log_val_loss ln, step_index ln)
           /\ (forall x, In x pre ->
                 ltb (log_val_loss ln) (log_val_loss (fst x)) = true
                 \/ is_nan (log_val_loss (fst x)) = true)
           /\ (forall x, In x post ->
                 ltb (log_val_loss (fst x)) (log_val_loss ln) = false)).
Proof.
  induction H as [|p H IH] using rev_ind; [left; split; reflexivity|].
  rewrite map_app. cbn [map]. rewrite best_net_snoc, best_so_far_snoc.
  unfold improve_net, improve.
  assert (Hfst := best_net_fst H).
  destruct (ltb (log_val_loss (fst p)) (fst (best_net H))) eqn:Hlt.
  - rewrite <- Hfst, Hlt. right. split.
    + simpl. destruct IH as [[E _]|[Hb _]].
      * rewrite E in Hlt. exact Hlt.
      * eapply ltb_trans; eassumption.
    + exists H, (fst p), (snd p), []. split; [destruct p; reflexivity|].
      split; [reflexivity|]. split; [reflexivity|]. split; [|intros x []].
      intros x Hx. destruct (is_nan (log_val_loss (fst x))) eqn:Hn; [right; reflexivity|].
      left. apply ltb_leb_trans with (fst (best_net H)); [assumption|].
      rewrite Hfst. apply best_so_far_le; [apply in_map; assumption|assumption].
  - rewrite <- Hfst, Hlt. destruct IH as [[E1 E2]|[Hb [pre [ln [n [post [E [B1 [B2 [Hpre Hpost]]]]]]]]]].
    + left. split; assumption.
    + right. split; [assumption|].
      exists pre, ln, n, (post ++ [p]). split; [rewrite E, <- app_assoc; reflexivity|].
      split; [assumption|]. split; [assumption|]. split; [assumption|].
      intros x Hx. apply in_app_or in Hx. destruct Hx as [Hx|[<-|[]]]; [auto|].
      rewrite B1 in Hlt. exact Hlt.
Qed.

(** What a history says about a state of the loop that started from
    [fit_start]. *)
Lemma visits_with_checkpoint (w : World) :
  forall st H,
    visits_with (fit_start self w) st H ->
    stdout (world st) = stdout w ++ map fst H
    /\ (min_val_loss st, min_val_loss_idx st) = best_so_far (map fst H)
    /\ read_file (checkpoint_path get_output_path self) (files (world st))
       = match snd (best_net H) with
         | Some n => Some n
         | None => read_file (checkpoint_path get_output_path self) (files w)
         end.
Proof.
  induction 1 as [|st g H Hv IH|st epoch i batch e st' H Hv IH Hb
                  |st epoch i batch c st' H loss ls Hv IH Hl Hls Hne Hb].
  - split; [cbn; rewrite app_nil_r; reflexivity|]. split; reflexivity.
  - exact IH.
  - apply fit_body_raised in Hb. destruct Hb as [[Ho [Hf [Hm Hi]]] _].
    rewrite Ho, Hf, Hm, Hi. exact IH.
  - destruct IH as [Hout [Hbest Hfile]].
    rewrite fit_body_cases, Hl, Hls in Hb. destruct ls as [|l ls]; [congruence|].
    cbv zeta in Hb. injection Hb as _ <-.
    rewrite map_app. cbn [map]. rewrite best_net_snoc, best_so_far_snoc.
    cbn [state_after world min_val_loss min_val_loss_idx].
    rewrite stdout_world_after, files_world_after, Hout, <- Hbest, <- app_assoc.
    split; [reflexivity|]. split; [symmetry; apply surjective_pairing|].
    unfold improve_net. cbn [fst snd].
    assert (Hm : fst (best_net H) = min_val_loss st).
    { rewrite best_net_fst, <- Hbest. reflexivity. }
    rewrite Hm.
    destruct (ltb _ (min_val_loss st)); cbn [snd].
    + apply read_write_file.
    + exact Hfile.
Qed.

End FitHistory.

(** X17: after [fit], if the recorded best loss is below [inf], the file
    tmp/best holds the parameters left by the optimizer step of the
    earliest iteration whose validation loss is the recorded minimum, and
    the recorded step index is that iteration's: the iterations before it
    had a greater loss or NaN, the ones after it no smaller one (a tie
    does not move the checkpoint); if nothing improved on [inf], the
    recorded pair is still [inf] and 0 and the file is as before the call. *)
Theorem fit_checkpoint_is_earliest_best :
  forall (T : TensorOps) (R : Torch T)
         (get_output_path : Args -> string -> string -> string -> string -> string)
         (self : MLP) (X : tensor) (y : list target)
         (X_val : tensor) (y_val : list target) (w : World),
    let r := fit get_output_path self X y X_val y_val w in
    let st := fit_final r in
    exists lf vl H,
      visits_with get_output_path self lf vl (fit_start self w) st H
      /\ stdout (world st) = stdout w ++ map fst H
      /\ ((min_val_loss st = inf /\ min_val_loss_idx st = 0%Z
           /\ read_file (checkpoint_path get_output_path self) (files (world st))
              = read_file (checkpoint_path get_output_path self) (files w))
          \/ (ltb (min_val_loss st) inf = true
              /\ exists pre ln n post,
                   H = pre ++ (ln, n) :: post
                   /\ min_val_loss st = log_val_loss ln
                   /\ min_val_loss_idx st = step_index ln
                   /\ read_file (checkpoint_path get_output_path self) (files (world st))
                      = Some n
                   /\ (forall x, In x pre ->
                         ltb (log_val_loss ln) (log_val_loss (fst x)) = true
                         \/ is_nan (log_val_loss (fst x)) = true)
                   /\ (forall x, In x post ->
                         ltb (log_val_loss (fst x)) (log_val_loss ln) = false))).
Proof.
  intros T R gop self X y X_val y_val w r st.
  assert (Hex : exists lf vl H, visits_with gop self lf vl (fit_start self w) st H).
  { unfold st, r.
    destruct (fit_cases gop self X y X_val y_val w)
      as [[e [_ [Hf _]]]|[tl [vl [_ [_ [_ [_ [_ [_ [_ [_ Hrun]]]]]]]]]]].
    - exists MSELoss, {| dataset := []; loader_batch_size := 0 |}, [].
      rewrite Hf. apply visits_with_start.
    - destruct (fit_epochs_history _ _ _ (visits_with_start gop self _ vl (fit_start self w))
                  Hrun) as [H Hv].
      eexists. exists vl, H. exact Hv. }
  destruct Hex as [lf [vl [H Hv]]]. exists lf, vl, H.
  destruct (visits_with_checkpoint Hv) as [Hout [Hbest Hfile]].
  split; [exact Hv|]. split; [exact Hout|].
  destruct (best_net_earliest H) as [[E1 E2]|[Hb [pre [ln [n [post [E [B1 [B2 [Hpre Hpost]]]]]]]]]].
  - left. rewrite E2 in Hbest. injection Hbest as Hm Hi.
    rewrite E1 in Hfile. auto.
  - right. rewrite B2 in Hbest. injection Hbest as Hm Hi.
    rewrite B1 in Hb, Hfile. simpl in Hb, Hfile. rewrite Hm. split; [exact Hb|].
    exists pre, ln, n, post. repeat split; assumption.
Qed.

Lemma fit_checkpoint_is_earliest_best_witness :
  min_val_loss (fit_final (example_fit example_table "regression" 1
                             [[10]; [20]; [30]] [1; 2; 3] [[40]] [4])) <> inf.
Proof.
  destruct (fit_checkpoint_is_earliest_best (R := table_torch example_table)
              example_output_path (example_self example_table "regression" 1)
              [[10]; [20]; [30]] [1; 2; 3] [[40]] [4] (example_world example_table []))
    as [lf [vl [H [_ [_ [[E _]|[Hlt _]]]]]]].
  - vm_compute in E. discriminate.
  - intro E. unfold example_fit in E. rewrite E in Hlt. discriminate.
Defined.

(** *** What the result of predict depends on *)

Section PredictDependence.
Context {T : TensorOps} {R : Torch T}.

Lemma predict_row_ext (self self' : MLP) (r : row) :
  args self' = args self -> net self' = net self ->
  predict_row self' r = predict_row self r.
Proof. intros Ha Hn. unfold predict_row. rewrite Ha, Hn. reflexivity. Qed.

End PredictDependence.



(** X19: [predict] with a batch size that is not positive, or on an empty
    input, raises ValueError, but only after the checkpoint has been
    loaded: the model comes back with the checkpoint's parameters in place
    of its own, and nothing else is changed. *)
Theorem predict_bad_batch_size_after_load :
  forall (T : TensorOps) (R : Torch T)
         (get_output_path : Args -> string -> string -> string -> string -> string)
         (self : MLP) (X : tensor) (w : World) (sd : Net weights),
    read_file (checkpoint_path get_output_path self) (files w) = Some sd ->
    state_shapes sd = state_shapes (net self) ->
    (batch_size (params self) <= 0)%Z \/ X = [] ->
    predict get_output_path self X w = (Raise ValueError, set_net sd self, w).
Proof.
  intros T R gop self X w sd Hfile Hsh Hbad. unfold predict, load_model.
  fold (checkpoint_path gop self). rewrite Hfile, (load_state_dict_same self Hsh).
  cbn [params set_net].
  destruct (new_loader (to_float X) (batch_size (params self))) as [dl|e] eqn:Hdl.
  - apply new_loader_ok in Hdl. destruct Hdl as [Hne [Hbs _]].
    destruct Hbad as [Hbad| ->]; [lia|]. destruct (Hne eq_refl).
  - apply new_loader_raises in Hdl. destruct Hdl as [-> _]. reflexivity.
Qed.

Lemma predict_bad_batch_size_after_load_witness :
  predict example_output_path (example_self (fun _ => zero) "binary" 0) [[10]]
    (example_world (fun _ => zero) [("tmp/mbest.pt"%string, example_net 7)])
  = (Raise ValueError,
     @set_net counter_ops (example_net 7) (example_self (fun _ => zero) "binary" 0),
     example_world (fun _ => zero) [("tmp/mbest.pt"%string, example_net 7)]).
Proof.
  apply (@predict_bad_batch_size_after_load counter_ops (table_torch (fun _ => zero))).
  - reflexivity.
  - reflexivity.
  - left. simpl. lia.
Defined.



(** *** Where fit raises *)

Section FitRaises.
Context {T : TensorOps} {R : Torch T}.
Variable get_output_path : Args -> string -> string -> string -> string -> string.
Variable self : MLP.
Variable loss_func : loss_module.
Variable val_loader : DataLoader (row * target).

Lemma losses_raise (a : Args) (lf : loss_module) (n : Net weights) :
  forall batches e,
    losses a lf n batches = Raise e ->
    exists vb, In vb batches /\ batch_loss a lf vb n = Raise e.
Proof.
  induction batches as [|b bs IH]; intros e H; simpl in H; [discriminate|].
  destruct (batch_loss a lf b n) as [l|e'] eqn:Hl; simpl in H.
  - destruct (losses a lf n bs) as [ls|e''] eqn:Hls; simpl in H; [discriminate|].
    injection H as <-. destruct (IH e'' eq_refl) as [vb [Hin Hvb]].
    exists vb. split; [right; exact Hin|exact Hvb].
  - injection H as <-. exists b. split; [left; reflexivity|exact Hl].
Qed.

Lemma loader_iter_nonempty {A} (dl : DataLoader A) (g : rng) :
  dataset dl <> [] -> fst (loader_iter dl g) <> [].
Proof.
  intros Hds. unfold loader_iter.
  pose proof (randperm_perm (length (dataset dl)) g) as Hperm.
  destruct (randperm (length (dataset dl)) g) as [pm g']. simpl in *.
  assert (Hpm : pm <> []).
  { intro E. subst pm. apply Permutation_length in Hperm.
    rewrite length_seq in Hperm. destruct (dataset dl); simpl in *; [congruence|discriminate]. }
  pose proof (@chunks_nonempty _ (loader_batch_size dl) pm Hpm) as Hch.
  destruct (chunks (loader_batch_size dl) pm); [congruence|discriminate].
Qed.

(** A run of the loop that raises does so in the body, on a state of the
    loop. *)
Lemma fit_batches_raised (s0 : fit_state) :
  forall batches epoch i st e st',
    visits get_output_path self loss_func val_loader s0 st ->
    fit_batches get_output_path self loss_func val_loader epoch i batches st
      = (Raised e, st') ->
    exists st1 epoch1 i1 batch,
      visits get_output_path self loss_func val_loader s0 st1
      /\ fit_body get_output_path self loss_func val_loader epoch1 i1 batch st1
         = (Raised e, st').
Proof.
  induction batches as [|b bs IH]; intros epoch i st e st' Hv Hrun; simpl in Hrun.
  - discriminate.
  - destruct (fit_body get_output_path self loss_func val_loader epoch i b st)
      as [c1 st1] eqn:Hb.
    destruct c1 as [| |e1].
    + eapply IH; [|exact Hrun]. eapply visits_body; eassumption.
    + discriminate.
    + injection Hrun as <- <-. exists st, epoch, i, b. split; assumption.
Qed.

Lemma fit_epochs_raised (train_loader : DataLoader (row * target)) (s0 : fit_state) :
  forall n epoch st e st',
    visits get_output_path self loss_func val_loader s0 st ->
    fit_epochs get_output_path self loss_func train_loader val_loader epoch n st
      = (Raised e, st') ->
    exists st1 epoch1 i1 batch,
      visits get_output_path self loss_func val_loader s0 st1
      /\ fit_body get_output_path self loss_func val_loader epoch1 i1 batch st1
         = (Raised e, st').
Proof.
  induction n as [|n IH]; intros epoch st e st' Hv Hrun; simpl in Hrun.
  - discriminate.
  - destruct (loader_iter train_loader (gen (world st))) as [batches g'].
    pose proof (visits_draw g' Hv) as Hv0. unfold redraw in Hv0.
    destruct (fit_batches get_output_path self loss_func val_loader epoch 0 batches _)
      as [c1 st1] eqn:Hb.
    destruct c1 as [| |e1].
    + eapply IH; [|exact Hrun]. eapply fit_batches_visits; eassumption.
    + discriminate.
    + injection Hrun as <- <-. eapply fit_batches_raised; eassumption.
Qed.

End FitRaises.

(** X22: [fit] raises in two places only. Either its set-up raises
    AssertionError or ValueError and nothing is changed; or a loss call
    raises in an iteration, and [fit] ends with that exception, having
    printed and saved nothing in this iteration: when the call on the
    training batch raises (line 95), the loop variables are those the
    iteration started with; when a call on a validation batch raises (line
    110), the optimizer has already stepped. The division of line 112
    never raises: the validation pass of [fit] always sees a batch. *)
Theorem fit_raises_from_set_up_or_loss :
  forall (T : TensorOps) (R : Torch T)
         (get_output_path : Args -> string -> string -> string -> string -> string)
         (self : MLP) (X : tensor) (y : list target)
         (X_val : tensor) (y_val : list target) (w : World) (e : exn),
    let r := fit get_output_path self X y X_val y_val w in
    let a := args self in
    let lf := fst (fst (select_loss a y y_val)) in
    let vl := {| dataset := combine (to_float X_val) (snd (select_loss a y y_val));
                 loader_batch_size := Z.to_nat (batch_size (params self)) |} in
    fit_control r = Raised e ->
    (fit_final r = fit_start self w /\ (e = AssertionError \/ e = ValueError))
    \/ (exists st epoch i batch,
          visits get_output_path self lf vl (fit_start self w) st
          /\ fit_body get_output_path self lf vl epoch i batch st = (Raised e, fit_final r)
          /\ val_batches_of vl st <> []
          /\ stdout (world (fit_final r)) = stdout (world st)
          /\ files (world (fit_final r)) = files (world st)
          /\ min_val_loss (fit_final r) = min_val_loss st
          /\ min_val_loss_idx (fit_final r) = min_val_loss_idx st
          /\ ((batch_loss a lf batch (self_net st) = Raise e /\ fit_final r = st)
              \/ (exists loss vb,
                    batch_loss a lf batch (self_net st) = Ok loss
                    /\ In vb (val_batches_of vl st)
                    /\ batch_loss a lf vb (stepped self lf batch st) = Raise e
                    /\ self_net (fit_final r) = stepped self lf batch st))).
Proof.
  intros T R gop self X y X_val y_val w e r a lf vl Hc.
  destruct (fit_cases gop self X y X_val y_val w)
    as [[e' [Hc' [Hf Hkind]]]|[tl [vl' [_ [Hl2 [_ [Hb2 [Hbs [_ [Hd2 [[_ HXv] Hrun]]]]]]]]]]];
    fold r in Hc' || fold r in Hrun.
  - left. fold r in Hf. rewrite Hc in Hc'. injection Hc' as <-. split; assumption.
  - right.
    assert (Evl : vl' = vl).
    { destruct vl'. simpl in Hd2, Hb2. subst. reflexivity. }
    subst vl'. rewrite Hc in Hrun.
    destruct (fit_epochs_raised _ _ _ (visits_start gop self lf vl (fit_start self w)) Hrun)
      as [st [epoch [i [batch [Hv Hbody]]]]].
    assert (Hvb : val_batches_of vl st <> []).
    { unfold val_batches_of. apply loader_iter_nonempty.
      intro E. rewrite E in Hl2. destruct X_val; [congruence|discriminate]. }
    exists st, epoch, i, batch.
    split; [exact Hv|]. split; [exact Hbody|]. split; [exact Hvb|].
    pose proof Hbody as Hsame. apply fit_body_raised in Hsame.
    destruct Hsame as [[Ho [Hfi [Hm Hi]]] _].
    split; [exact Ho|]. split; [exact Hfi|]. split; [exact Hm|]. split; [exact Hi|].
    apply fit_body_outcome in Hbody.
    destruct Hbody as [[e1 [He1 [[Hl Hst]|[loss [Hl [Hst [Hls|[Hnil _]]]]]]]]
                      |[loss [ls [_ [_ [_ [_ Hctl]]]]]]].
    + injection He1 as <-. left. split; assumption.
    + injection He1 as <-. right.
      destruct (losses_raise _ _ _ _ Hls) as [vb [Hin Hraise]].
      exists loss, vb. split; [exact Hl|]. split; [exact Hin|]. split; [exact Hraise|].
      rewrite Hst. reflexivity.
    + destruct (Hvb Hnil).
    + destruct (_ <? _)%Z; discriminate.
Qed.

(** A runtime whose loss call raises ValueError once the output layer has
    seen a step: the first validation pass raises, after the optimizer
    step. *)
Definition failing_table (t : nat) : result float :=
  match t with 0 => Ok zero | _ => Raise ValueError end.

Lemma fit_raises_from_set_up_or_loss_witness :
  fit_control (@fit counter_ops (partial_torch failing_table) example_output_path
                 (example_self (fun _ => zero) "binary" 1)
                 [[10]; [20]] [1; 2] [[40]] [4]
                 (@Build_World counter_ops (partial_torch failing_table) [] 0 []))
    = Raised ValueError
  /\ stdout (world (fit_final
       (@fit counter_ops (partial_torch failing_table) example_output_path
          (example_self (fun _ => zero) "binary" 1)
          [[10]; [20]] [1; 2] [[40]] [4]
          (@Build_World counter_ops (partial_torch failing_table) [] 0 [])))) = []
  /\ wb (output_layer (self_net (fit_final
       (@fit counter_ops (partial_torch failing_table) example_output_path
          (example_self (fun _ => zero) "binary" 1)
          [[10]; [20]] [1; 2] [[40]] [4]
          (@Build_World counter_ops (partial_torch failing_table) [] 0 []))))) = 1.
Proof.
  split; [reflexivity|].
  destruct (@fit_raises_from_set_up_or_loss counter_ops (partial_torch failing_table)
              example_output_path (example_self (fun _ => zero) "binary" 1)
              [[10]; [20]] [1; 2] [[40]] [4]
              (@Build_World counter_ops (partial_torch failing_table) [] 0 [])
              ValueError eq_refl) as [[Hf _]|_].
  - vm_compute in Hf. discriminate.
  - split; reflexivity.
Defined.

(** *** define_trial_parameters *)

(** The trial object of the hyperparameter search, seen through the three
    methods the model calls; each suggestion lies in the range or among
    the choices it was asked for. *)
Class Trial : Type := {
  trial : Type;
  suggest_int : string -> Z -> Z -> trial -> Z * trial;
  suggest_float : string -> float -> float -> trial -> float * trial;
  suggest_categorical : string -> list Z -> trial -> Z * trial;
  suggest_int_range :
    forall name lo hi t, (lo <= hi)%Z ->
      (lo <= fst (suggest_int name lo hi t) <= hi)%Z;
  suggest_float_range :
    forall name lo hi t, leb lo hi = true ->
      leb lo (fst (suggest_float name lo hi t)) = true
      /\ leb (fst (suggest_float name lo hi t)) hi = true;
  suggest_categorical_choice :
    forall name choices t, choices <> [] ->
      In (fst (suggest_categorical name choices t)) choices
}.

(** The binary64 values of the literals [0.0005] and [0.001]. *)
Definition lr_low : float := S754_finite false 4611686018427388 (-63).
Definition lr_high : float := S754_finite false 4611686018427388 (-62).

Section TrialParameters.
Context {Tr : Trial}.

(** The dictionary of lines 169 to 174, its entries evaluated in order;
    the run configuration is not used. *)
Definition define_trial_parameters (t : trial) (a : Args) : Params * trial :=
  let (hidden, t1) := suggest_int "hidden_dim" 10 100 t in
  let (n, t2) := suggest_int "n_layers" 2 5 t1 in
  let (lr, t3) := suggest_float "learning_rate" lr_low lr_high t2 in
  let (bs, t4) := suggest_categorical "batch_size" [64; 128; 256; 512]%Z t3 in
  ({| hidden_dim := Z.to_nat hidden; n_layers := n;
      learning_rate := lr; batch_size := bs |}, t4).

Lemma define_trial_parameters_ranges (t : trial) (a : Args) :
  let p := fst (define_trial_parameters t a) in
  10 <= hidden_dim p <= 100
  /\ (2 <= n_layers p <= 5)%Z
  /\ leb lr_low (learning_rate p) = true
  /\ leb (learning_rate p) lr_high = true
  /\ In (batch_size p) [64; 128; 256; 512]%Z.
Proof.
  unfold define_trial_parameters.
  pose proof (@suggest_int_range _ "hidden_dim"%string 10%Z 100%Z t) as H1.
  destruct (suggest_int "hidden_dim" 10 100 t) as [hidden t1].
  pose proof (@suggest_int_range _ "n_layers"%string 2%Z 5%Z t1) as H2.
  destruct (suggest_int "n_layers" 2 5 t1) as [n t2].
  pose proof (@suggest_float_range _ "learning_rate"%string lr_low lr_high t2) as H3.
  destruct (suggest_float "learning_rate" lr_low lr_high t2) as [lr t3].
  pose proof (@suggest_categorical_choice _ "batch_size"%string [64; 128; 256; 512]%Z t3) as H4.
  destruct (suggest_categorical "batch_size" [64; 128; 256; 512]%Z t3) as [bs t4].
  simpl in *.
  specialize (H1 ltac:(lia)). specialize (H2 ltac:(lia)).
  specialize (H3 eq_refl). specialize (H4 ltac:(discriminate)).
  destruct H3 as [H3 H3']. repeat split; try lia; assumption.
Qed.

End TrialParameters.

(** X21: every hyperparameter set [define_trial_parameters] returns, for
    any suggestions the trial makes within the ranges asked for, has a
    hidden width from 10 to 100, 2 to 5 layers, a learning rate from
    0.0005 to 0.001 and one of the four batch sizes, whatever the run
    configuration; so the constructor builds 3 to 6 affine layers from it
    and a data loader accepts its batch size on every data set that is not
    empty. *)
Theorem define_trial_parameters_usable :
  forall (Tr : Trial) (T : TensorOps) (R : Torch T)
         (t : trial) (a a' : Args) (g : rng),
    let p := fst (define_trial_parameters t a) in
    10 <= hidden_dim p <= 100
    /\ (2 <= n_layers p <= 5)%Z
    /\ leb lr_low (learning_rate p) = true
    /\ leb (learning_rate p) lr_high = true
    /\ In (batch_size p) [64; 128; 256; 512]%Z
    /\ define_trial_parameters t a' = define_trial_parameters t a
    /\ 3 <= length (affine_layers (net (fst (init p a g)))) <= 6
    /\ (forall (A : Type) (ds : list A),
          ds <> [] ->
          new_loader ds (batch_size p)
          = Ok {| dataset := ds; loader_batch_size := Z.to_nat (batch_size p) |})
    /\ 64 <= Z.to_nat (batch_size p).
Proof.
  intros Tr T R t a a' g p.
  destruct (define_trial_parameters_ranges t a) as [H1 [H2 [H3 [H4 H5]]]]. fold p in H1, H2, H3, H4, H5.
  split; [exact H1|]. split; [exact H2|]. split; [exact H3|]. split; [exact H4|].
  split; [exact H5|]. split; [reflexivity|].
  assert (Hbs : (64 <= batch_size p)%Z).
  { simpl in H5. destruct H5 as [<-|[<-|[<-|[<-|[]]]]]; lia. }
  split; [|split].
  - destruct (init_net p a g) as [_ [_ [_ [Hlen _]]]].
    unfold affine_layers. simpl. rewrite length_app, Hlen. simpl. lia.
  - intros A ds Hds. apply new_loader_returns; [exact Hds|lia].
  - lia.
Qed.

(** A trial that always suggests the low end of the range and the first
    choice. *)
Lemma lowest_int_range (name : string) (lo hi : Z) (t : unit) :
  (lo <= hi)%Z -> (lo <= fst (lo, t) <= hi)%Z.
Proof. simpl. lia. Qed.

Lemma lowest_float_range (name : string) (lo hi : float) (t : unit) :
  leb lo hi = true -> leb lo (fst (lo, t)) = true /\ leb (fst (lo, t)) hi = true.
Proof.
  intros H. simpl. split; [|assumption].
  apply leb_refl. apply (leb_nan_free lo hi H).
Qed.

Lemma first_choice (name : string) (choices : list Z) (t : unit) :
  choices <> [] -> In (fst (hd 0%Z choices, t)) choices.
Proof. destruct choices; [congruence|]. intros _. left. reflexivity. Qed.

Definition lowest_trial : Trial := {|
  trial := unit;
  suggest_int := fun _ lo _ t => (lo, t);
  suggest_float := fun _ lo _ t => (lo, t);
  suggest_categorical := fun _ choices t => (hd 0%Z choices, t);
  suggest_int_range := lowest_int_range;
  suggest_float_range := lowest_float_range;
  suggest_categorical_choice := first_choice
|}.

Lemma define_trial_parameters_usable_witness :
  fst (define_trial_parameters (Tr := lowest_trial) tt (example_args "binary"))
  = {| hidden_dim := 10; n_layers := 2; learning_rate := lr_low; batch_size := 64 |}
  /\ 3 <= length (affine_layers (net (fst (init (R := table_torch (fun _ => zero))
                    (fst (define_trial_parameters (Tr := lowest_trial) tt
                            (example_args "binary")))
                    (example_args "binary") 0)))) <= 6.
Proof.
  split; [reflexivity|].
  exact (proj1 (proj2 (proj2 (proj2 (proj2 (proj2 (proj2
    (@define_trial_parameters_usable lowest_trial counter_ops
       (table_torch (fun _ => zero)) tt (example_args "binary") (example_args "binary")
       0)))))))).
Defined.

End MLP.
